(** * The extract controller of apps/api/src/controllers/v1/extract.ts

    A shallow embedding of [extractController] and [filterAndProcessLinks],
    and the properties of the orchestration pipeline checked against it.

    Conventions of the embedding.
    - A JavaScript [number] that takes part in rounding arithmetic (the
      request timeout, token counts, content lengths in a quotient) is an
      IEEE-754 binary64 value: Rocq's primitive [float], whose operations
      are the ones [*], [/] and [+] denote in the source.
    - A relevance score is only ever compared, with the thresholds 0.75 and
      0.5 (both dyadic, so exact in binary64) and with other scores through
      the sign of a difference.  Comparison of finite binary64 values is
      comparison of the rationals they denote, so a score is a [Q].
    - The functions the controller imports from other files of the
      repository (the blocklist, the map search, the ranker, the queue, the
      completion services) are fields of a record of collaborators.  A
      call that can reject returns a [result].
    - [urlTraces] is one array of objects mutated in place: a list, with a
      trace object identified by its index, and [urlTraces.find] returning
      the first index whose [url] matches.
    - An async function runs without interruption from one [await] to the
      next.  The tasks of a [Promise.all] are resumed one at a time, in an
      order the controller does not choose: the order is a parameter, and
      the properties of the controller hold for every order.
    - The request is the body as [extractRequestSchema.parse] returns it
      (line 54); a body the parser refuses never reaches the pipeline:
      the controller is rejected with what the parser threw
      ([extractController_parsing]).
    - What a rejected call throws is any JavaScript value.  [null] and
      [undefined] are told apart from every other value, because reading
      a property of them throws; any other value is given by the three
      properties the controller reads of it.
    - A JavaScript string is a sequence of UTF-16 code units, and its
      [length] their number.  URLs and prompts are only compared and
      searched for ASCII patterns, and are [string]s; the text of a
      fetched page, of which the length is taken, is the list of its
      code units. *)

From Stdlib Require Import ZArith QArith String Ascii Floats Uint63 Lia.
From Stdlib Require Import Sorted Permutation.
From stdpp Require Import base list.

Local Open Scope string_scope.
Local Open Scope list_scope.

(** ** JavaScript numbers *)

(** [Math.floor]: the largest integral value not above [x]; NaN, the
    infinities and the zeros are returned unchanged. *)
Definition Math_floor (x : float) : float :=
  match Prim2SF x with
  | S754_finite s m e =>
      if (0 <=? e)%Z then x
      else
        let q := Z.shiftr (Zpos m) (- e) in
        if (Z.shiftl q (- e) =? Zpos m)%Z then x
        else if s then PrimFloat.opp (PrimFloat.of_uint63 (Uint63.of_Z (q + 1)))
        else PrimFloat.of_uint63 (Uint63.of_Z q)
  | _ => x
  end.

(** Truthiness of a number: every value but [0], [-0] and [NaN]. *)
Definition truthy (x : float) : bool :=
  negb (PrimFloat.is_nan x || PrimFloat.is_zero x).

(** [x || d] on numbers, and on a number that may be [undefined]. *)
Definition num_or (x d : float) : float := if truthy x then x else d.

Definition opt_num_or (x : option float) (d : float) : float :=
  match x with
  | Some v => num_or v d
  | None => d
  end.

(** The [length] of a string, as a number. *)
Definition number_of_nat (n : nat) : float :=
  PrimFloat.of_uint63 (Uint63.of_Z (Z.of_nat n)).

(** Truthiness of a string that may be [undefined]: defined and non-empty. *)
Definition truthy_string (s : option string) : bool :=
  match s with
  | Some EmptyString => false
  | Some _ => true
  | None => false
  end.

(** ** Constants of the module (lines 35-39) *)

Definition MAX_EXTRACT_LIMIT : nat := 100.
Definition MAX_RANKING_LIMIT : nat := 10.
Definition INITIAL_SCORE_THRESHOLD : Q := 0.75.
Definition FALLBACK_SCORE_THRESHOLD : Q := 0.5.
Definition MIN_REQUIRED_LINKS : nat := 1.

(** ** The per-fetch timeout (line 268)

    [Math.floor((req.body.timeout || 40000) * 0.7) || 30000]; the literal
    [0.7] denotes the binary64 value [0x1.6666666666666p-1]. *)
Definition scrape_timeout (timeout : option float) : float :=
  num_or
    (Math_floor (PrimFloat.mul (opt_num_or timeout 40000%float)
                               0x1.6666666666666p-1%float))
    30000%float.

(** ** Candidate links and scores *)

Module MapDocument.
Record t := mk { url : string; title : string; description : string }.
End MapDocument.

Module LinkScore.
Record t := mk {
  link : string;
  linkWithContext : string;
  score : Q;
  originalIndex : nat
}.
End LinkScore.

(** [x > y] on scores. *)
Definition score_gt (x y : Q) : bool := negb (Qle_bool x y).

(** [mappedLinks.find((link) => link.url === u)] *)
Definition find_link (mappedLinks : list MapDocument.t) (u : string)
  : option MapDocument.t :=
  List.find (fun l => String.eqb (MapDocument.url l) u) mappedLinks.

(** The type guard of both filters: the document was found and its URL is
    not blocked ([url] is never [undefined] in a [MapDocument.t]). *)
Definition allowed (isUrlBlocked : string -> bool) (x : option MapDocument.t)
  : bool :=
  match x with
  | Some d => negb (isUrlBlocked (MapDocument.url d))
  | None => false
  end.

(** A list of defined values, once the guard has narrowed its type. *)
Definition defined {A} (l : list (option A)) : list A :=
  omap (fun x => x) l.

(** [filterAndProcessLinks] (lines 407-424) *)
Definition filterAndProcessLinks (isUrlBlocked : string -> bool)
    (mappedLinks : list MapDocument.t) (linksAndScores : list LinkScore.t)
    (threshold : Q) : list MapDocument.t :=
  defined
    (List.filter (allowed isUrlBlocked)
       (List.map (fun x => find_link mappedLinks (LinkScore.link x))
          (List.filter (fun x => score_gt (LinkScore.score x) threshold)
             linksAndScores))).

(** [linksAndScores.sort((a, b) => b.score - a.score)].  The comparator
    is consistent, so the result is the one stable sort of the array: an
    element moves behind exactly the elements it compares greater than
    zero with. *)
Fixpoint insert_by_score (a : LinkScore.t) (l : list LinkScore.t)
  : list LinkScore.t :=
  match l with
  | [] => [a]
  | b :: l' =>
      if score_gt (LinkScore.score b - LinkScore.score a) 0
      then b :: insert_by_score a l'
      else a :: l
  end.

Definition sort_by_score (l : list LinkScore.t) : list LinkScore.t :=
  List.fold_right insert_by_score [] l.

(** The cascade of lines 156-190.  The array [linksAndScores] is sorted in
    place when the last branch runs, so the function returns it too. *)
Definition cascade (isUrlBlocked : string -> bool)
    (mappedLinks : list MapDocument.t) (linksAndScores : list LinkScore.t)
  : list MapDocument.t * list LinkScore.t :=
  let filteredLinks :=
    filterAndProcessLinks isUrlBlocked mappedLinks linksAndScores
      INITIAL_SCORE_THRESHOLD in
  if (length filteredLinks <? MIN_REQUIRED_LINKS)%nat then
    let filteredLinks :=
      filterAndProcessLinks isUrlBlocked mappedLinks linksAndScores
        FALLBACK_SCORE_THRESHOLD in
    if (length filteredLinks =? 0)%nat then
      let sorted := sort_by_score linksAndScores in
      (defined
         (List.filter (allowed isUrlBlocked)
            (List.map (fun x => find_link mappedLinks (LinkScore.link x))
               (firstn MIN_REQUIRED_LINKS sorted))),
       sorted)
    else (filteredLinks, linksAndScores)
  else (filteredLinks, linksAndScores).

(** ** Strings *)

(** [s.includes(pat)] *)
Definition includes (s pat : string) : bool :=
  match String.index 0 pat s with
  | Some _ => true
  | None => false
  end.

(** [s.replace(pat, rep)] with a string pattern: the first occurrence. *)
Definition replace (s pat rep : string) : string :=
  match String.index 0 pat s with
  | Some n =>
      substring 0 n s ++ rep
        ++ substring (n + String.length pat)
             (String.length s - (n + String.length pat)) s
  | None => s
  end.

(** ** Exceptions and promises *)

Module Exn.
Record t := mk {
  message : option string;
  status : option Z;
  error : option string
}.
End Exn.

(** The two values of which no property can be read. *)
Inductive nullish := null | undefined.

(** A value that is thrown, or that a promise rejects with.  [Obj e] is
    any value other than [null] and [undefined], by its properties
    [message], [status] and [error], each [None] where the value has no
    such property (as an [Error] has no [status], and a string none of
    the three); it is taken to convert to a string, as the template
    literal of line 311 makes it, without throwing. *)
Inductive thrown :=
| Obj (e : Exn.t)
| Nullish (n : nullish).
Coercion Obj : Exn.t >-> thrown.

(** What awaiting a call yields: its value, or what it throws. *)
Inductive result (A : Type) : Type :=
| Ok (a : A)
| Throw (v : thrown).
Arguments Ok {A} a.
Arguments Throw {A} v.

(** The [TypeError] that reading a property of [null] or [undefined]
    throws, with the message Node gives it.  It has no [status] and no
    [error]. *)
Definition nullish_name (n : nullish) : string :=
  match n with
  | null => "null"
  | undefined => "undefined"
  end.

Definition cannot_read (n : nullish) (property : string) : Exn.t :=
  Exn.mk
    (Some ("Cannot read properties of " ++ nullish_name n ++ " (reading '"
             ++ property ++ "')")%string)
    None None.

(** ** The trace ledger *)

Module Status.
Inductive t := mapped | scraped | error.
End Status.

Inductive Warning :=
| BelowThreshold (score : Q)   (* `Relevance score ${score} below threshold` *)
| RankingLimit.                (* 'Excluded due to ranking limit' *)

Module Timing.
Record t := mk {
  discoveredAt : nat;
  scrapedAt : option nat;
  completedAt : option nat
}.
End Timing.

Module ContentStats.
Record t := mk {
  rawContentLength : nat;
  processedContentLength : nat;
  tokensUsed : float
}.
End ContentStats.

Module URLTrace.
Record t := mk {
  url : string;
  status : Status.t;
  timing : Timing.t;
  relevanceScore : option Q;
  usedInCompletion : option bool;
  warning : option Warning;
  error : option string;
  contentStats : option ContentStats.t
}.

Definition set_status (s : Status.t) (x : t) : t :=
  mk (url x) s (timing x) (relevanceScore x) (usedInCompletion x)
     (warning x) (error x) (contentStats x).
Definition set_timing (f : Timing.t -> Timing.t) (x : t) : t :=
  mk (url x) (status x) (f (timing x)) (relevanceScore x)
     (usedInCompletion x) (warning x) (error x) (contentStats x).
Definition set_relevanceScore (s : Q) (x : t) : t :=
  mk (url x) (status x) (timing x) (Some s) (usedInCompletion x)
     (warning x) (error x) (contentStats x).
Definition set_usedInCompletion (b : bool) (x : t) : t :=
  mk (url x) (status x) (timing x) (relevanceScore x) (Some b)
     (warning x) (error x) (contentStats x).
Definition set_warning (w : Warning) (x : t) : t :=
  mk (url x) (status x) (timing x) (relevanceScore x) (usedInCompletion x)
     (Some w) (error x) (contentStats x).
Definition set_error (e : option string) (x : t) : t :=
  mk (url x) (status x) (timing x) (relevanceScore x) (usedInCompletion x)
     (warning x) e (contentStats x).
Definition set_contentStats (c : ContentStats.t) (x : t) : t :=
  mk (url x) (status x) (timing x) (relevanceScore x) (usedInCompletion x)
     (warning x) (error x) (Some c).
(** [trace.contentStats.tokensUsed = n], run only where [contentStats]
    is defined. *)
Definition set_tokensUsed (n : float) (x : t) : t :=
  match contentStats x with
  | Some c =>
      set_contentStats
        (ContentStats.mk (ContentStats.rawContentLength c)
           (ContentStats.processedContentLength c) n) x
  | None => x
  end.
End URLTrace.

(** The first index at which [p] holds. *)
Fixpoint find_index {A} (p : A -> bool) (l : list A) : option nat :=
  match l with
  | [] => None
  | x :: l' => if p x then Some 0%nat else option_map S (find_index p l')
  end.

(** [urlTraces.find((t) => t.url === u)]: the trace object, by its index. *)
Definition find_trace (u : string) (urlTraces : list URLTrace.t) : option nat :=
  find_index (fun t => String.eqb (URLTrace.url t) u) urlTraces.

(** [const trace = urlTraces.find(...); if (trace) { f(trace) }] *)
Definition update_found (u : string) (f : URLTrace.t -> URLTrace.t)
    (urlTraces : list URLTrace.t) : list URLTrace.t :=
  match find_trace u urlTraces with
  | Some i => alter f i urlTraces
  | None => urlTraces
  end.

(** ** Fetched documents and token attribution *)

(** The text of a page: its UTF-16 code units, each below [2^16]. *)
Definition code_unit := N.
Definition text := list code_unit.

Module Document.
Record t := mk { markdown : option text; sourceURL : option string }.
End Document.

(** [doc.markdown?.length || 0]: the number of code units. *)
Definition markdown_length (d : Document.t) : nat :=
  match Document.markdown d with
  | Some s => length s
  | None => 0%nat
  end.

(** [docs.reduce((sum, doc) => sum + (doc.markdown?.length || 0), 0)] *)
Definition totalLength (docs : list Document.t) : float :=
  List.fold_left
    (fun sum d => PrimFloat.add sum (number_of_nat (markdown_length d)))
    docs 0%float.

(** [Math.floor(((doc.markdown?.length || 0) / totalLength) * numTokens)] *)
Definition token_share (total numTokens : float) (d : Document.t) : float :=
  Math_floor
    (PrimFloat.mul
       (PrimFloat.div (number_of_nat (markdown_length d)) total)
       numTokens).

(** The body of [docs.forEach] at lines 351-360. *)
Definition attribute_doc (total numTokens : float)
    (urlTraces : list URLTrace.t) (d : Document.t) : list URLTrace.t :=
  if truthy_string (Document.sourceURL d) then
    match Document.sourceURL d with
    | Some u =>
        update_found u
          (URLTrace.set_tokensUsed (token_share total numTokens d)) urlTraces
    | None => urlTraces
    end
  else urlTraces.

(** Lines 347-361. *)
Definition attribute_tokens (numTokens : option float)
    (docs : list Document.t) (urlTraces : list URLTrace.t)
  : list URLTrace.t :=
  match numTokens with
  | Some n =>
      if truthy n then
        List.fold_left (attribute_doc (totalLength docs) n) docs urlTraces
      else urlTraces
  | None => urlTraces
  end.

(** ** The request *)

Module ExtractRequest.
Record t := mk {
  urls : list string;
  prompt : option string;
  schema : option string;
  systemPrompt : option string;
  allowExternalLinks : option bool;
  includeSubdomains : option bool;
  limit : option nat;
  timeout : option float;
  origin : option string
}.
End ExtractRequest.

(** [req.body], [req.auth] and [req.acuc?.sub_id]. *)
Module Request.
Record t := mk {
  body : ExtractRequest.t;
  team_id : string;
  plan : option string;
  sub_id : option string
}.
End Request.

Definition is_true (b : option bool) : bool :=
  match b with
  | Some true => true
  | _ => false
  end.

(** ** Collaborators *)

Module MapArgs.
Record t := mk {
  url : string;
  search : option string;
  teamId : string;
  plan : option string;
  allowExternalLinks : option bool;
  origin : option string;
  limit : option nat;
  ignoreSitemap : bool;
  includeMetadata : bool;
  includeSubdomains : option bool
}.
End MapArgs.

Module MapResult.
Record t := mk { mapResults : list MapDocument.t; links : list string }.
End MapResult.

Module ScrapeJob.
Record t := mk {
  url : string;
  mode : string;
  team_id : string;
  plan : option string;
  origin : string;
  is_scrape : bool
}.
End ScrapeJob.

Module CompletionArgs.
Record t := mk {
  mode : string;
  systemPrompt : string;
  prompt : option string;
  schema : option string
}.
End CompletionArgs.

Module Completions.
Record t := mk {
  extract : option string;
  warning : option string;
  numTokens : option float
}.
End Completions.

(** The imported functions the controller calls.  A job id is the serial
    number of the [crypto.randomUUID()] call that made it.

    The calls the controller awaits return a [result]: they resolve with
    a value of their declared type, or reject with any value.  The
    helpers it calls without awaiting ([isUrlBlocked],
    [removeDuplicateUrls], [buildRefrasedPrompt], [buildDocument]) are
    functions: they are taken to return.  So are the logger,
    [scrapeOptions.parse] and [getScrapeQueue] inside the [try] of a
    fetch, [billTeam] and [logJob], which the controller does not
    await, and [res.status(...).json(...)]. *)
Record Collaborators := {
  isUrlBlocked : string -> bool;
  removeDuplicateUrls : list string -> list string;
  buildRefrasedPrompt : string -> string -> string;
  generateBasicCompletion : string -> result (option string);
  getMapResults : MapArgs.t -> result MapResult.t;
  performRanking : list string -> list string -> string
                   -> result (list LinkScore.t);
  getJobPriority : option string -> string -> Z -> result Z;
  addScrapeJob : ScrapeJob.t -> nat -> Z -> result unit;
  waitForJob : nat -> float -> result Document.t;
  queue_remove : nat -> result unit;
  buildDocument : Document.t -> string;
  generateOpenAICompletions : CompletionArgs.t -> string
                              -> result Completions.t
}.

(** The calls made to the outside, in the order they are issued. *)
Inductive call :=
| Call_generateBasicCompletion (prompt : string)
| Call_getMapResults (args : MapArgs.t)
| Call_performRanking (linksWithContext urls : list string) (query : string)
| Call_getJobPriority (plan : option string) (team_id : string)
| Call_addScrapeJob (job : ScrapeJob.t) (jobId : nat) (priority : Z)
| Call_waitForJob (jobId : nat) (timeout : float)
| Call_remove (jobId : nat)
| Call_generateOpenAICompletions (args : CompletionArgs.t) (context : string)
| Call_billTeam (team_id : string) (sub_id : option string) (credits : nat)
| Call_logJob (job_id : nat).

(** ** The state of one request

    [urlTraces] is the array of line 60; [calls] the calls issued so far;
    [clock] counts the readings of [new Date()], each reading being its own
    serial number; [uuids] counts the calls of [crypto.randomUUID()]. *)
Record state := mkState {
  urlTraces : list URLTrace.t;
  calls : list call;
  clock : nat;
  uuids : nat
}.

Definition initial_state : state := mkState [] [] 0 0.

Definition with_traces (f : list URLTrace.t -> list URLTrace.t) (s : state)
  : state :=
  mkState (f (urlTraces s)) (calls s) (clock s) (uuids s).

Definition issue (c : call) (s : state) : state :=
  mkState (urlTraces s) (calls s ++ [c]) (clock s) (uuids s).

(** [new Date().toISOString()] *)
Definition now (s : state) : nat * state :=
  (clock s, mkState (urlTraces s) (calls s) (S (clock s)) (uuids s)).

(** [crypto.randomUUID()] *)
Definition randomUUID (s : state) : nat * state :=
  (uuids s, mkState (urlTraces s) (calls s) (clock s) (S (uuids s))).

(** [urlTraces.push(t)] *)
Definition push (t : URLTrace.t) (s : state) : state :=
  with_traces (fun l => l ++ [t]) s.

(** An update of the trace object at index [i]. *)
Definition update (i : nat) (f : URLTrace.t -> URLTrace.t) (s : state)
  : state :=
  with_traces (alter f i) s.

(** ** Resolution of one input URL (lines 63-243)

    The async function of line 63 runs from one [await] to the next without
    interruption.  A task is the point at which it is suspended, with the
    variables its continuation reads and the outcome of the awaited call. *)
Inductive rtask :=
| RAwaitRephrase (trace : nat) (baseUrl urlWithoutWww : string)
    (p : result (option string))
| RAwaitMap (trace : nat) (baseUrl urlWithoutWww : string)
    (p : result MapResult.t)
| RAwaitRank (trace : nat) (mappedLinks : list MapDocument.t)
    (p : result (list LinkScore.t))
| RFulfilled (urls : list string)
| RRejected (v : thrown).

(** Lines 87-99: entering the [try] and calling [getMapResults]. *)
Definition call_getMapResults (env : Collaborators) (req : Request.t)
    (trace : nat) (baseUrl urlWithoutWww : string)
    (rephrasedPrompt : option string) (s : state) : rtask * state :=
  let b := Request.body req in
  let args :=
    MapArgs.mk baseUrl rephrasedPrompt (Request.team_id req)
      (Request.plan req) (ExtractRequest.allowExternalLinks b)
      (ExtractRequest.origin b) (ExtractRequest.limit b) false true
      (ExtractRequest.includeSubdomains b) in
  (RAwaitMap trace baseUrl urlWithoutWww (getMapResults env args),
   issue (Call_getMapResults args) s).

(** Lines 63-86 and 232-242: from the start of the function to its first
    [await], or to its end for a literal URL. *)
Definition start_resolve (env : Collaborators) (req : Request.t)
    (url : string) (s : state) : rtask * state :=
  let b := Request.body req in
  let '(t, s) := now s in
  let trace := length (urlTraces s) in
  let s :=
    push (URLTrace.mk url Status.mapped (Timing.mk t None None)
            None None None None None) s in
  if includes url "/*" || is_true (ExtractRequest.allowExternalLinks b) then
    let baseUrl := replace url "/*" EmptyString in
    let urlWithoutWww := replace baseUrl "www." EmptyString in
    if truthy_string (ExtractRequest.prompt b) then
      match ExtractRequest.prompt b with
      | Some prompt =>
          let p := buildRefrasedPrompt env prompt baseUrl in
          (RAwaitRephrase trace baseUrl urlWithoutWww
             (generateBasicCompletion env p),
           issue (Call_generateBasicCompletion p) s)
      | None =>
          call_getMapResults env req trace baseUrl urlWithoutWww None s
      end
    else
      call_getMapResults env req trace baseUrl urlWithoutWww
        (ExtractRequest.prompt b) s
  else if negb (isUrlBlocked env url) then
    (RFulfilled [url], update trace (URLTrace.set_usedInCompletion true) s)
  else
    (RFulfilled [],
     update trace
       (fun x =>
          URLTrace.set_usedInCompletion false
            (URLTrace.set_error (Some "URL is blocked")
               (URLTrace.set_status Status.error x))) s).

(** Lines 226-231: the [catch] of the resolution.  It sets the status,
    then reads [error.message]: of [null] or [undefined] the reading
    throws, and the task is rejected with the [TypeError], the status
    set and nothing else. *)
Definition catch_resolve (trace : nat) (v : thrown) (s : state)
  : rtask * state :=
  match v with
  | Obj e =>
      (RFulfilled [],
       update trace
         (fun x =>
            URLTrace.set_usedInCompletion false
              (URLTrace.set_error (Exn.message e)
                 (URLTrace.set_status Status.error x))) s)
  | Nullish n =>
      (RRejected (cannot_read n "message"),
       update trace (URLTrace.set_status Status.error) s)
  end.

(** Lines 108-119: a trace for every discovered URL that has none. *)
Definition track_discovered (uniqueUrls : list string) (s : state) : state :=
  List.fold_left
    (fun s discoveredUrl =>
       if existsb (fun t => String.eqb (URLTrace.url t) discoveredUrl)
            (urlTraces s)
       then s
       else
         let '(t, s) := now s in
         push (URLTrace.mk discoveredUrl Status.mapped (Timing.mk t None None)
                 None (Some false) None None None) s)
    uniqueUrls s.

(** Lines 101-135: the candidate list built from the map results. *)
Definition candidates (env : Collaborators) (baseUrl : string)
    (r : MapResult.t) : list string * list MapDocument.t :=
  let mappedLinks := MapResult.mapResults r in
  let allUrls := List.map MapDocument.url mappedLinks ++ MapResult.links r in
  let uniqueUrls := removeDuplicateUrls env allUrls in
  let existingUrls := List.map MapDocument.url mappedLinks in
  let newUrls :=
    List.filter (fun url => negb (existsb (String.eqb url) existingUrls))
      uniqueUrls in
  let mappedLinks :=
    mappedLinks
      ++ List.map (fun url => MapDocument.mk url EmptyString EmptyString)
           newUrls in
  let mappedLinks :=
    if (length mappedLinks =? 0)%nat
    then [MapDocument.mk baseUrl EmptyString EmptyString]
    else mappedLinks in
  (uniqueUrls, firstn MAX_EXTRACT_LIMIT mappedLinks).

(** Lines 143-148. *)
Definition searchQuery (req : Request.t) (urlWithoutWww : string) : string :=
  let b := Request.body req in
  let prompt :=
    match ExtractRequest.prompt b with
    | Some p => p
    | None => EmptyString
    end in
  if truthy_string (ExtractRequest.prompt b)
     && is_true (ExtractRequest.allowExternalLinks b)
  then prompt ++ " " ++ urlWithoutWww
  else if truthy_string (ExtractRequest.prompt b)
  then prompt ++ " site:" ++ urlWithoutWww
  else "site:" ++ urlWithoutWww.

(** Lines 137-154 and 225: what follows a successful [getMapResults], up
    to the [await] of [performRanking] or, without a prompt, to the end. *)
Definition after_map (env : Collaborators) (req : Request.t) (trace : nat)
    (baseUrl urlWithoutWww : string) (r : MapResult.t) (s : state)
  : rtask * state :=
  let '(uniqueUrls, mappedLinks) := candidates env baseUrl r in
  let s := track_discovered uniqueUrls s in
  let mappedLinksRerank :=
    List.map
      (fun x =>
         ("url: " ++ MapDocument.url x ++ ", title: " ++ MapDocument.title x
            ++ ", description: " ++ MapDocument.description x)%string)
      mappedLinks in
  if truthy_string (ExtractRequest.prompt (Request.body req)) then
    let q := searchQuery req urlWithoutWww in
    let urls := List.map MapDocument.url mappedLinks in
    (RAwaitRank trace mappedLinks (performRanking env mappedLinksRerank urls q),
     issue (Call_performRanking mappedLinksRerank urls q) s)
  else (RFulfilled (List.map MapDocument.url mappedLinks), s).

(** Lines 193-203. *)
Definition score_traces (filteredLinks : list MapDocument.t)
    (linksAndScores : list LinkScore.t) (urlTraces : list URLTrace.t)
  : list URLTrace.t :=
  List.fold_left
    (fun traces score =>
       update_found (LinkScore.link score)
         (fun t =>
            let t := URLTrace.set_relevanceScore (LinkScore.score score) t in
            if negb
                 (existsb
                    (fun l => String.eqb (MapDocument.url l)
                                (LinkScore.link score))
                    filteredLinks)
            then
              URLTrace.set_usedInCompletion false
                (URLTrace.set_warning
                   (BelowThreshold (LinkScore.score score)) t)
            else t)
         traces)
    linksAndScores urlTraces.

(** Lines 208-213. *)
Definition mark_used (links : list MapDocument.t)
    (urlTraces : list URLTrace.t) : list URLTrace.t :=
  List.fold_left
    (fun traces l =>
       update_found (MapDocument.url l) (URLTrace.set_usedInCompletion true)
         traces)
    links urlTraces.

(** Lines 216-222. *)
Definition mark_dropped (links : list MapDocument.t)
    (urlTraces : list URLTrace.t) : list URLTrace.t :=
  List.fold_left
    (fun traces l =>
       update_found (MapDocument.url l)
         (fun t =>
            URLTrace.set_usedInCompletion false
              (URLTrace.set_warning RankingLimit t))
         traces)
    links urlTraces.

(** Lines 156-225: what follows a successful [performRanking]. *)
Definition after_rank (env : Collaborators) (mappedLinks : list MapDocument.t)
    (linksAndScores : list LinkScore.t) (s : state) : rtask * state :=
  let '(filteredLinks, linksAndScores) :=
    cascade (isUrlBlocked env) mappedLinks linksAndScores in
  let s := with_traces (score_traces filteredLinks linksAndScores) s in
  let mappedLinks := firstn MAX_RANKING_LIMIT filteredLinks in
  let s := with_traces (mark_used mappedLinks) s in
  let s :=
    with_traces (mark_dropped (skipn MAX_RANKING_LIMIT filteredLinks)) s in
  (RFulfilled (List.map MapDocument.url mappedLinks), s).

(** The continuation of a suspended resolution, run to its next [await]
    or to its end.  The rephrasing call of lines 81-84 stands before the
    [try] of line 87; the other two calls stand inside it. *)
Definition resume_resolve (env : Collaborators) (req : Request.t)
    (t : rtask) (s : state) : rtask * state :=
  match t with
  | RAwaitRephrase trace baseUrl urlWithoutWww p =>
      match p with
      | Throw e => (RRejected e, s)
      | Ok v =>
          let rephrasedPrompt :=
            match v with
            | Some x => Some x
            | None => ExtractRequest.prompt (Request.body req)
            end in
          call_getMapResults env req trace baseUrl urlWithoutWww
            rephrasedPrompt s
      end
  | RAwaitMap trace baseUrl urlWithoutWww p =>
      match p with
      | Throw e => catch_resolve trace e s
      | Ok r => after_map env req trace baseUrl urlWithoutWww r s
      end
  | RAwaitRank trace mappedLinks p =>
      match p with
      | Throw e => catch_resolve trace e s
      | Ok linksAndScores => after_rank env mappedLinks linksAndScores s
      end
  | RFulfilled _ | RRejected _ => (t, s)
  end.

Definition rsettled (t : rtask) : option (result (list string)) :=
  match t with
  | RFulfilled urls => Some (Ok urls)
  | RRejected e => Some (Throw e)
  | _ => None
  end.

(** ** The fetch of one resolved URL (lines 260-318) *)
Inductive ftask :=
| FAwaitPriority (trace : option nat) (url : string) (timeout : float)
    (jobId : nat) (p : result Z)
| FAwaitAdd (trace : option nat) (timeout : float) (jobId : nat)
    (p : result unit)
| FAwaitWait (trace : option nat) (jobId : nat) (p : result Document.t)
| FAwaitRemove (trace : option nat) (doc : Document.t) (p : result unit)
| FFulfilled (doc : option Document.t)
| FRejected (v : thrown).

(** [if (trace) { f(trace) }] on a trace object found earlier. *)
Definition update_if (trace : option nat) (f : URLTrace.t -> URLTrace.t)
    (s : state) : state :=
  match trace with
  | Some i => update i f s
  | None => s
  end.

(** Lines 260-275: up to the [await] of [getJobPriority]. *)
Definition start_scrape (env : Collaborators) (req : Request.t)
    (url : string) (s : state) : ftask * state :=
  let trace := find_trace url (urlTraces s) in
  let s :=
    match trace with
    | Some i =>
        let s := update i (URLTrace.set_status Status.scraped) s in
        let '(t, s) := now s in
        update i
          (URLTrace.set_timing
             (fun x =>
                Timing.mk (Timing.discoveredAt x) (Some t)
                  (Timing.completedAt x))) s
    | None => s
    end in
  let timeout :=
    scrape_timeout (ExtractRequest.timeout (Request.body req)) in
  let '(jobId, s) := randomUUID s in
  (FAwaitPriority trace url timeout jobId
     (getJobPriority env (Request.plan req) (Request.team_id req) 10%Z),
   issue (Call_getJobPriority (Request.plan req) (Request.team_id req)) s).

(** Lines 267 and 279-288: the job submitted for a URL, with
    [req.body.origin || "api"] as its origin. *)
Definition scrape_job (req : Request.t) (url : string) : ScrapeJob.t :=
  let origin :=
    if truthy_string (ExtractRequest.origin (Request.body req)) then
      match ExtractRequest.origin (Request.body req) with
      | Some o => o
      | None => "api"
      end
    else "api" in
  ScrapeJob.mk url "single_urls" (Request.team_id req) (Request.plan req)
    origin true.

(** Lines 310-317: the [catch] of the fetch.  Where a trace was found
    it sets the status, then reads [e.message]: of [null] or [undefined]
    the reading throws, and the task is rejected with the [TypeError].
    Without a trace nothing is read of what was caught. *)
Definition catch_scrape (trace : option nat) (v : thrown) (s : state)
  : ftask * state :=
  match trace, v with
  | Some i, Nullish n =>
      (FRejected (cannot_read n "message"),
       update i (URLTrace.set_status Status.error) s)
  | Some i, Obj e =>
      (FFulfilled None,
       update i
         (fun x =>
            URLTrace.set_error (Exn.message e)
              (URLTrace.set_status Status.error x)) s)
  | None, _ => (FFulfilled None, s)
  end.

(** The continuation of a suspended fetch.  [getJobPriority] is awaited
    before the [try] of line 277; [addScrapeJob], [waitForJob] and
    [getScrapeQueue().remove] are awaited inside it, in this order. *)
Definition resume_scrape (env : Collaborators) (req : Request.t)
    (t : ftask) (s : state) : ftask * state :=
  match t with
  | FAwaitPriority trace url timeout jobId p =>
      match p with
      | Throw e => (FRejected e, s)
      | Ok jobPriority =>
          let job := scrape_job req url in
          (FAwaitAdd trace timeout jobId
             (addScrapeJob env job jobId jobPriority),
           issue (Call_addScrapeJob job jobId jobPriority) s)
      end
  | FAwaitAdd trace timeout jobId p =>
      match p with
      | Throw e => catch_scrape trace e s
      | Ok _ =>
          (FAwaitWait trace jobId (waitForJob env jobId timeout),
           issue (Call_waitForJob jobId timeout) s)
      end
  | FAwaitWait trace jobId p =>
      match p with
      | Throw e => catch_scrape trace e s
      | Ok doc =>
          (FAwaitRemove trace doc (queue_remove env jobId),
           issue (Call_remove jobId) s)
      end
  | FAwaitRemove trace doc p =>
      match p with
      | Throw e => catch_scrape trace e s
      | Ok _ =>
          let s :=
            match trace with
            | Some i =>
                let '(t, s) := now s in
                let s :=
                  update i
                    (URLTrace.set_timing
                       (fun x =>
                          Timing.mk (Timing.discoveredAt x)
                            (Timing.scrapedAt x) (Some t))) s in
                update i
                  (URLTrace.set_contentStats
                     (ContentStats.mk (markdown_length doc)
                        (markdown_length doc) 0%float)) s
            | None => s
            end in
          (FFulfilled (Some doc), s)
      end
  | FFulfilled _ | FRejected _ => (t, s)
  end.

Definition fsettled (t : ftask) : option (result (option Document.t)) :=
  match t with
  | FFulfilled d => Some (Ok d)
  | FRejected e => Some (Throw e)
  | _ => None
  end.

(** ** Tasks in flight and [Promise.all]

    [xs.map(async (x) => ...)] starts the tasks one after the other, each
    running to its first [await].  Afterwards the suspended tasks are
    resumed one at a time, in the order in which the awaited calls settle:
    a schedule names, step by step, the task resumed next.  Whatever the
    schedule leaves suspended is then resumed in index order, [k] times
    each, [k] bounding the number of [await]s of a task. *)
Section Scheduler.
Context {T A : Type}.
Variable resume : T -> state -> T * state.
Variable settled_of : T -> option (result A).

Record pool := mkPool {
  tasks : list T;
  pstate : state;
  (* the first rejection, with the trace ledger as it was then *)
  rejection : option (thrown * list URLTrace.t)
}.

(** The tasks of [xs.map(async ...)], each started in turn. *)
Definition start_all {X} (start : X -> state -> T * state) (xs : list X)
    (s : state) : list T * state :=
  List.fold_left
    (fun '(ts, s) x => let '(t, s) := start x s in (ts ++ [t], s))
    xs ([], s).

(** [Promise.all] rejects with the first rejection among its tasks. *)
Definition note_rejection (t : T) (s : state)
    (r : option (thrown * list URLTrace.t))
  : option (thrown * list URLTrace.t) :=
  match r with
  | Some _ => r
  | None =>
      match settled_of t with
      | Some (Throw e) => Some (e, urlTraces s)
      | _ => None
      end
  end.

(** The task at index [i] is resumed, if it is suspended. *)
Definition step (p : pool) (i : nat) : pool :=
  match tasks p !! i with
  | Some t =>
      match settled_of t with
      | Some _ => p
      | None =>
          let '(t', s') := resume t (pstate p) in
          mkPool (<[i := t']> (tasks p)) s'
            (note_rejection t' s' (rejection p))
      end
  | None => p
  end.

(** Each of [n] tasks in turn, [k] times. *)
Definition drain (n k : nat) : list nat :=
  List.flat_map (fun i => repeat i k) (seq 0 n).

(** The pool once every task has settled. *)
Definition run (k : nat) (schedule : list nat) (p : pool) : pool :=
  List.fold_left step (schedule ++ drain (length (tasks p)) k) p.

(** The values of the tasks, when all are fulfilled. *)
Fixpoint values_of (ts : list T) : option (list A) :=
  match ts with
  | [] => Some []
  | t :: ts' =>
      match settled_of t, values_of ts' with
      | Some (Ok a), Some vs => Some (a :: vs)
      | _, _ => None
      end
  end.

(** What [await Promise.all(promises)] yields. *)
Inductive joined :=
| AllFulfilled (values : list A)
| FirstRejected (v : thrown) (snapshot : list URLTrace.t)
| Unsettled.

Definition Promise_all (p : pool) : joined :=
  match rejection p with
  | Some (e, snapshot) => FirstRejected e snapshot
  | None =>
      match values_of (tasks p) with
      | Some vs => AllFulfilled vs
      | None => Unsettled
      end
  end.

(** The first rejection is noted: while none is, no task is rejected. *)
Definition none_rejected (p : pool) : Prop :=
  rejection p = None ->
  Forall (fun t => forall e, settled_of t <> Some (Throw e)) (tasks p).

(** Every task but the one at index [i0] has settled. *)
Definition quiet_except (i0 : nat) (p : pool) : Prop :=
  forall j t, j <> i0 -> tasks p !! j = Some t -> settled_of t <> None.

(** At most one task is still suspended. *)
Definition at_most_one_pending (ts : list T) : bool :=
  (length
     (List.filter
        (fun t => match settled_of t with None => true | Some _ => false end)
        ts)
   <=? 1)%nat.

(** The [await]s the task at index [i] has yet to pass, [awaits] counting
    them for a task. *)
Definition awaits_at (awaits : T -> nat) (p : pool) (i : nat) : nat :=
  match tasks p !! i with
  | Some t => awaits t
  | None => 0%nat
  end.

End Scheduler.

(** ** The controller (lines 48-398) *)

Module Response.
Record t := mk {
  success : bool;
  data : option string;
  scrape_id : option nat;
  warning : option string;
  error : option string;
  urlTrace : list URLTrace.t
}.
End Response.

(** How a call of the controller ends: with [res.status(..).json(..)], or
    with an exception leaving the function.  [Unfinished] stands for tasks
    left suspended, which the schedules of [run] exclude. *)
Inductive outcome :=
| Responded (status : option Z) (body : Response.t)
| Rejected (v : thrown)
| Unfinished.

Definition newline : string := String (ascii_of_nat 10) EmptyString.

Definition NO_LINKS_ERROR : string :=
  "No valid URLs found to scrape. Try adjusting your search criteria or including more URLs.".

Definition SYSTEM_PROMPT : string :=
  "Always prioritize using the provided content to answer the question. Do not make up an answer. Be concise and follow the schema always if provided. Here are the urls the user provided of which he wants to extract information from: ".

(** Lines 331-397: completion, token attribution, billing, logging and
    the response. *)
Definition complete (env : Collaborators) (req : Request.t) (id : nat)
    (links : list string) (docs : list Document.t) (s : state)
  : outcome * state :=
  let b := Request.body req in
  let prefix :=
    if truthy_string (ExtractRequest.systemPrompt b) then
      match ExtractRequest.systemPrompt b with
      | Some p => (p ++ newline)%string
      | None => EmptyString
      end
    else EmptyString in
  let args :=
    CompletionArgs.mk "llm"
      (prefix ++ SYSTEM_PROMPT ++ String.concat ", " links)%string
      (ExtractRequest.prompt b) (ExtractRequest.schema b) in
  let context := String.concat newline (List.map (buildDocument env) docs) in
  let s := issue (Call_generateOpenAICompletions args context) s in
  match generateOpenAICompletions env args context with
  | Throw e => (Rejected e, s)
  | Ok completions =>
      let s :=
        with_traces
          (attribute_tokens (Completions.numTokens completions) docs) s in
      let s :=
        issue
          (Call_billTeam (Request.team_id req) (Request.sub_id req)
             (length links * 5)) s in
      let data :=
        match Completions.extract completions with
        | Some d => d
        | None => "{}"
        end in
      let s := issue (Call_logJob id) s in
      (Responded (Some 200%Z)
         (Response.mk true (Some data) (Some id)
            (Completions.warning completions) None (urlTraces s)),
       s)
  end.

(** Lines 259-329: the fetch of every link, and what follows. *)
Definition scrape_all (env : Collaborators) (req : Request.t) (id : nat)
    (links : list string) (scrape_order : list nat) (s : state)
  : outcome * state :=
  let '(scrapePromises, s) := start_all (start_scrape env req) links s in
  let p :=
    run (resume_scrape env req) fsettled 4 scrape_order
      (mkPool scrapePromises s None) in
  match Promise_all fsettled p with
  | FirstRejected (Obj e) snapshot =>
      (Responded (Exn.status e)
         (Response.mk false None None None (Exn.error e) snapshot),
       pstate p)
  | FirstRejected (Nullish n) _ =>
      (* [e.status] of line 324 throws, inside the [catch] *)
      (Rejected (cannot_read n "status"), pstate p)
  | Unsettled => (Unfinished, pstate p)
  | AllFulfilled results =>
      complete env req id links (defined results) (pstate p)
  end.

(** Lines 56-246: the resolution of every input URL. *)
Definition resolve_all (env : Collaborators) (req : Request.t)
    (resolve_order : list nat) : nat * pool (T := rtask) :=
  let '(id, s) := randomUUID initial_state in
  let '(urlPromises, s) :=
    start_all (start_resolve env req)
      (ExtractRequest.urls (Request.body req)) s in
  (id,
   run (resume_resolve env req) rsettled 3 resolve_order
     (mkPool urlPromises s None)).

(** Lines 247-248: [processedUrls.flat().filter((url) => url)]. *)
Definition links_of (processedUrls : list (list string)) : list string :=
  List.filter (fun url => negb (String.eqb url EmptyString))
    (List.concat processedUrls).

(** [extractController], on a request body already parsed (line 54).  The
    two orders are the schedules of the resolution tasks and of the fetch
    tasks. *)
Definition extractController (env : Collaborators) (req : Request.t)
    (resolve_order scrape_order : list nat) : outcome * state :=
  let '(id, p) := resolve_all env req resolve_order in
  match Promise_all rsettled p with
  | FirstRejected e _ => (Rejected e, pstate p)
  | Unsettled => (Unfinished, pstate p)
  | AllFulfilled processedUrls =>
      let links := links_of processedUrls in
      if (length links =? 0)%nat then
        (Responded (Some 400%Z)
           (Response.mk false None None None (Some NO_LINKS_ERROR)
              (urlTraces (pstate p))),
         pstate p)
      else scrape_all env req id links scrape_order (pstate p)
  end.

(** Lines 48-54: the handler on the body as it arrives.
    [extractRequestSchema.parse] throws on a body it refuses, before
    anything else is done. *)
Definition extractController_parsing {Body : Type}
    (parse : Body -> result ExtractRequest.t) (env : Collaborators)
    (body : Body) (team_id : string) (plan sub_id : option string)
    (resolve_order scrape_order : list nat) : outcome * state :=
  match parse body with
  | Throw v => (Rejected v, initial_state)
  | Ok b =>
      extractController env (Request.mk b team_id plan sub_id)
        resolve_order scrape_order
  end.

(** * Properties: the notions they are stated with *)

(** ** The relevance filter *)

(** A document is accepted at a threshold when some scored link above the
    threshold resolves to it in the candidate list and its URL is not
    blocked. *)
Definition accepted_at (blocked : string -> bool)
    (mappedLinks : list MapDocument.t) (linksAndScores : list LinkScore.t)
    (threshold : Q) (d : MapDocument.t) : Prop :=
  exists x, In x linksAndScores
    /\ (threshold < LinkScore.score x)%Q
    /\ find_link mappedLinks (LinkScore.link x) = Some d
    /\ blocked (MapDocument.url d) = false.

(** The same without the blocklist: the words [all candidates with
    score > threshold]. *)
Definition scored_above (mappedLinks : list MapDocument.t)
    (linksAndScores : list LinkScore.t) (threshold : Q) (d : MapDocument.t)
  : Prop :=
  exists x, In x linksAndScores
    /\ (threshold < LinkScore.score x)%Q
    /\ find_link mappedLinks (LinkScore.link x) = Some d.

(** The entry at index [i] has the highest score, and is the first to
    have it. *)
Definition first_highest (linksAndScores : list LinkScore.t) (i : nat)
    (x : LinkScore.t) : Prop :=
  linksAndScores !! i = Some x
  /\ (forall j y, linksAndScores !! j = Some y -> (j < i)%nat ->
        (LinkScore.score y < LinkScore.score x)%Q)
  /\ (forall j y, linksAndScores !! j = Some y ->
        (LinkScore.score y <= LinkScore.score x)%Q).

(** Descending order of score, and the entries of a given score. *)
Definition descending (a b : LinkScore.t) : Prop :=
  (LinkScore.score b <= LinkScore.score a)%Q.

Definition has_score (v : Q) (x : LinkScore.t) : bool :=
  Qeq_bool (LinkScore.score x) v.

(** The head of the sorted array, computed without sorting. *)
Fixpoint top (ls : list LinkScore.t) : option LinkScore.t :=
  match ls with
  | [] => None
  | x :: ls' =>
      match top ls' with
      | Some y =>
          if score_gt (LinkScore.score y - LinkScore.score x) 0
          then Some y else Some x
      | None => Some x
      end
  end.

(** The single highest-scoring candidate, kept only if it is not blocked. *)
Definition top_candidate (blocked : string -> bool)
    (mappedLinks : list MapDocument.t) (linksAndScores : list LinkScore.t)
    (d : MapDocument.t) : Prop :=
  exists i x, first_highest linksAndScores i x
    /\ find_link mappedLinks (LinkScore.link x) = Some d
    /\ blocked (MapDocument.url d) = false.

(** The cascade in the words of the specification: the blocklist is
    named for the last step only. *)
Definition cascade_as_specified (blocked : string -> bool)
    (mappedLinks : list MapDocument.t) (linksAndScores : list LinkScore.t)
    (accepted : list MapDocument.t) : Prop :=
  let above := scored_above mappedLinks linksAndScores in
  ((exists d, above 0.75%Q d) -> forall d, In d accepted <-> above 0.75%Q d)
  /\ (~ (exists d, above 0.75%Q d) -> (exists d, above 0.5%Q d) ->
      forall d, In d accepted <-> above 0.5%Q d)
  /\ (~ (exists d, above 0.5%Q d) ->
      forall d, In d accepted
                <-> top_candidate blocked mappedLinks linksAndScores d).

(** The cascade as the code runs it: the blocklist applies at every
    step, and a step counts what is left after it. *)
Definition cascade_policy (blocked : string -> bool)
    (mappedLinks : list MapDocument.t) (linksAndScores : list LinkScore.t)
    (accepted : list MapDocument.t) : Prop :=
  let ok := accepted_at blocked mappedLinks linksAndScores in
  ((exists d, ok 0.75%Q d) -> forall d, In d accepted <-> ok 0.75%Q d)
  /\ (~ (exists d, ok 0.75%Q d) -> (exists d, ok 0.5%Q d) ->
      forall d, In d accepted <-> ok 0.5%Q d)
  /\ (~ (exists d, ok 0.5%Q d) ->
      forall d, In d accepted
                <-> top_candidate blocked mappedLinks linksAndScores d).

(** Sample candidates: a document per URL, a score per document. *)
Definition page (u : string) : MapDocument.t :=
  MapDocument.mk u EmptyString EmptyString.

Definition scored (u : string) (s : Q) : LinkScore.t :=
  LinkScore.mk u u s 0.

Definition nothing_blocked (u : string) : bool := false.

(** [at least one candidate survives whenever any exist], every candidate
    having been scored. *)
Definition survivor_as_specified (blocked : string -> bool)
    (mappedLinks : list MapDocument.t) (linksAndScores : list LinkScore.t)
  : Prop :=
  mappedLinks <> [] ->
  List.map LinkScore.link linksAndScores
    = List.map MapDocument.url mappedLinks ->
  fst (cascade blocked mappedLinks linksAndScores) <> [].

(** ** The per-fetch timeout *)

(** The request timeout as a number: [undefined * 0.7] is [NaN]. *)
Definition to_number (x : option float) : float :=
  match x with
  | Some v => v
  | None => PrimFloat.nan
  end.

Definition scaled (x : float) : float :=
  Math_floor (PrimFloat.mul x 0x1.6666666666666p-1%float).

(** The timeout in the words of the specification: the scaled request
    timeout, and 30000 when that value is falsy. *)
Definition timeout_as_specified (requestTimeout : option float)
    (effective : float) : Prop :=
  (truthy (scaled (to_number requestTimeout)) = true ->
   effective = scaled (to_number requestTimeout))
  /\ (truthy (scaled (to_number requestTimeout)) = false ->
      effective = 30000%float).

(** ** Token attribution *)




(** The quotient in the words of the specification, on integers:
    [floor(tokenTotal * rawLength_i / sum(rawLength))]. *)
Definition length_sum (docs : list Document.t) : Z :=
  List.fold_right (fun d n => (Z.of_nat (markdown_length d) + n)%Z) 0%Z docs.

Definition specified_share (tokenTotal : Z) (docs : list Document.t)
    (d : Document.t) : Z :=
  (tokenTotal * Z.of_nat (markdown_length d) / length_sum docs)%Z.



(** A fetched document of [n] characters, and the trace of its URL as
    the fetch leaves it. *)
Definition fetched (u : string) (n : nat) : Document.t :=
  Document.mk (Some (repeat 120%N n)) (Some u).

Definition fetched_trace (u : string) (n : nat) : URLTrace.t :=
  URLTrace.mk u Status.scraped (Timing.mk 0 (Some 1%nat) (Some 2%nat)) None
    (Some true) None None (Some (ContentStats.mk n n 0%float)).

(** The integer a number denotes, when it is finite and integral. *)
Definition integer_of (x : float) : option Z :=
  match Prim2SF x with
  | S754_zero _ => Some 0%Z
  | S754_finite s m e =>
      let v :=
        if (0 <=? e)%Z then Some (Z.shiftl (Zpos m) e)
        else if (Z.shiftl (Z.shiftr (Zpos m) (- e)) (- e) =? Zpos m)%Z
             then Some (Z.shiftr (Zpos m) (- e))
             else None in
      option_map (fun v => if s then (- v)%Z else v) v
  | _ => None
  end.

(** The sum of the attributed values of a ledger, as an integer: the
    [tokensUsed] of the traces that have content statistics. *)
Definition attributed_sum (urlTraces : list URLTrace.t) : option Z :=
  List.fold_right
    (fun t acc =>
       match URLTrace.contentStats t with
       | Some c =>
           match integer_of (ContentStats.tokensUsed c), acc with
           | Some v, Some a => Some (v + a)%Z
           | _, _ => None
           end
       | None => acc
       end)
    (Some 0%Z) urlTraces.

(** The bound in the words of the specification: the attributed values
    never sum to more than the reported total. *)
Definition sum_within_total (tokenTotal : Z) (urlTraces : list URLTrace.t)
  : Prop :=
  exists sum, attributed_sum urlTraces = Some sum /\ (sum <= tokenTotal)%Z.




(** The bound, decided, for two pages of [a] and [b] characters and [n]
    tokens. *)
Definition two_within_total (n a b : nat) : bool :=
  match
    attributed_sum
      (attribute_tokens (Some (number_of_nat n))
         [fetched "a" a; fetched "b" b]
         [fetched_trace "a" a; fetched_trace "b" b])
  with
  | Some sum => (sum <=? Z.of_nat n)%Z
  | None => false
  end.

(** ** Calls of the fetch stage *)

Definition is_fetch_call (c : call) : bool :=
  match c with
  | Call_getJobPriority _ _
  | Call_addScrapeJob _ _ _
  | Call_waitForJob _ _
  | Call_remove _ => true
  | _ => false
  end.

Definition no_fetch_call (s : state) : Prop :=
  Forall (fun c => is_fetch_call c = false) (calls s).

(** The links handed to the fetch stage, once every resolution has
    settled without a rejection. *)
Definition resolved_links (env : Collaborators) (req : Request.t)
    (resolve_order : list nat) : option (list string) :=
  match Promise_all rsettled (snd (resolve_all env req resolve_order)) with
  | AllFulfilled processedUrls => Some (links_of processedUrls)
  | _ => None
  end.

(** A resolution task that is not rejected and is not about to be: it
    does not wait for a rephrasing that has failed, nor for a map search
    or a ranking that has rejected with [null] or [undefined]. *)
Definition not_failing (t : rtask) : Prop :=
  match t with
  | RRejected _ | RAwaitRephrase _ _ _ (Throw _)
  | RAwaitMap _ _ _ (Throw (Nullish _))
  | RAwaitRank _ _ (Throw (Nullish _)) => False
  | _ => True
  end.

(** At most one task is in flight in each stage of the request: at most
    one input URL needs a call to resolve, and at most one link is
    fetched. *)
Definition one_in_flight (env : Collaborators) (req : Request.t) : bool :=
  let '(id, s) := randomUUID initial_state in
  at_most_one_pending rsettled
    (fst (start_all (start_resolve env req)
            (ExtractRequest.urls (Request.body req)) s))
  && match Promise_all rsettled (snd (resolve_all env req [])) with
     | AllFulfilled processedUrls =>
         at_most_one_pending fsettled
           (fst (start_all (start_scrape env req) (links_of processedUrls)
                   (pstate (snd (resolve_all env req [])))))
     | _ => true
     end.

(** One fetch task run alone, from its start to its end. *)
Definition scrape_one (env : Collaborators) (req : Request.t) (url : string)
    (s : state) : ftask * state :=
  Nat.iter 4 (fun '(t, s) => resume_scrape env req t s)
    (start_scrape env req url s).

(** [every submitted job is released]: each job id passed to
    [addScrapeJob] is passed to [remove]. *)
Definition released_as_specified (cs : list call) : Prop :=
  forall job jobId priority,
    In (Call_addScrapeJob job jobId priority) cs -> In (Call_remove jobId) cs.

(** The [await]s ahead of a resolution task and of a fetch task. *)
Definition rawaits (t : rtask) : nat :=
  match t with
  | RAwaitRephrase _ _ _ _ => 3
  | RAwaitMap _ _ _ _ => 2
  | RAwaitRank _ _ _ => 1
  | RFulfilled _ | RRejected _ => 0
  end.

Definition fawaits (t : ftask) : nat :=
  match t with
  | FAwaitPriority _ _ _ _ _ => 4
  | FAwaitAdd _ _ _ _ => 3
  | FAwaitWait _ _ _ => 2
  | FAwaitRemove _ _ _ => 1
  | FFulfilled _ | FRejected _ => 0
  end.

(** The calls a continuation of a fetch task issues. *)
Definition issued_by (req : Request.t) (t : ftask) : list call :=
  match t with
  | FAwaitPriority _ url _ jobId (Ok jobPriority) =>
      [Call_addScrapeJob (scrape_job req url) jobId jobPriority]
  | FAwaitAdd _ timeout jobId (Ok _) => [Call_waitForJob jobId timeout]
  | FAwaitWait _ jobId (Ok _) => [Call_remove jobId]
  | _ => []
  end.

(** What relates the waits and the removals issued so far to the fetch
    tasks in flight: a task suspended at [waitForJob] has its wait among
    the calls; a job is removed only after a wait for it that succeeded;
    and a wait that succeeded is followed by the removal, unless its task
    is still suspended at it. *)
Definition waits_inv (env : Collaborators) (ts : list ftask) (s : state)
  : Prop :=
  (forall i trace jobId p,
     ts !! i = Some (FAwaitWait trace jobId p) ->
     exists timeout,
       p = waitForJob env jobId timeout
       /\ In (Call_waitForJob jobId timeout) (calls s))
  /\ (forall jobId,
        In (Call_remove jobId) (calls s) ->
        exists timeout doc,
          In (Call_waitForJob jobId timeout) (calls s)
          /\ waitForJob env jobId timeout = Ok doc)
  /\ (forall jobId timeout doc,
        In (Call_waitForJob jobId timeout) (calls s) ->
        waitForJob env jobId timeout = Ok doc ->
        In (Call_remove jobId) (calls s)
        \/ exists i trace, ts !! i = Some (FAwaitWait trace jobId (Ok doc))).

(** No wait and no removal has been issued. *)
Definition no_wait_yet (s : state) : Prop :=
  Forall
    (fun c =>
       match c with
       | Call_waitForJob _ _ | Call_remove _ => False
       | _ => True
       end)
    (calls s).

(** [remove] is issued for exactly the jobs whose wait has succeeded. *)
Definition released_iff_waited (env : Collaborators) (cs : list call)
  : Prop :=
  forall jobId,
    In (Call_remove jobId) cs
    <-> exists timeout doc,
          In (Call_waitForJob jobId timeout) cs
          /\ waitForJob env jobId timeout = Ok doc.

(** ** The guard of the relevance filter *)

(** The task goes on to score and filter its candidates. *)
Definition runs_filter (t : rtask) : bool :=
  match t with
  | RAwaitRank _ _ _ => true
  | _ => false
  end.

(** No call to the rephrasing service or to the scorer has been issued. *)
Definition no_prompt_call (s : state) : Prop :=
  Forall
    (fun c =>
       match c with
       | Call_generateBasicCompletion _ | Call_performRanking _ _ _ => False
       | _ => True
       end)
    (calls s).

Definition guard_as_specified (env : Collaborators) (req : Request.t)
    (trace : nat) (baseUrl urlWithoutWww : string) (r : MapResult.t)
    (s : state) : Prop :=
  runs_filter (fst (after_map env req trace baseUrl urlWithoutWww r s)) = true
  <-> truthy_string (ExtractRequest.prompt (Request.body req)) = true
      /\ (1 < length (snd (candidates env baseUrl r)))%nat.

(** ** Duplicates among the resolved links *)

Definition lower (c : ascii) : ascii :=
  let n := nat_of_ascii c in
  if ((65 <=? n) && (n <=? 90))%nat then ascii_of_nat (n + 32) else c.

Fixpoint lowercase (s : string) : string :=
  match s with
  | EmptyString => EmptyString
  | String c s' => String (lower c) (lowercase s')
  end.

Fixpoint strip_trailing_slash (s : string) : string :=
  match s with
  | EmptyString => EmptyString
  | String c EmptyString => if Ascii.eqb c "/"%char then EmptyString else s
  | String c s' => String c (strip_trailing_slash s')
  end.

(** Case and trailing-slash normalization of a URL. *)
Definition normalize_url (u : string) : string :=
  strip_trailing_slash (lowercase u).

Fixpoint dedupe_from (seen : list string) (l : list string) : list string :=
  match l with
  | [] => []
  | u :: l' =>
      if existsb (String.eqb (normalize_url u)) seen then dedupe_from seen l'
      else u :: dedupe_from (normalize_url u :: seen) l'
  end.

(** Modelled from the spec: [removeDuplicateUrls] of lib/validateUrl is
    not among the sources; by the specification the merge deduplicates
    case- and trailing-slash-insensitively.  The first URL of each class
    is kept. *)
Definition dedupe_normalized (l : list string) : list string :=
  dedupe_from [] l.

Definition no_duplicates_as_specified (links : list string) : Prop :=
  NoDup (List.map normalize_url links).

(** ** Sample collaborators and requests *)

Definition failure (m : string) : Exn.t := Exn.mk (Some m) None None.

Definition sample_env (blocked : string -> bool)
    (rephrased : result (option string))
    (mapped : string -> result MapResult.t)
    (ranked : list string -> result (list LinkScore.t))
    (waited : nat -> result Document.t) : Collaborators :=
  {| isUrlBlocked := blocked;
     removeDuplicateUrls := dedupe_normalized;
     buildRefrasedPrompt := fun prompt url => (prompt ++ " " ++ url)%string;
     generateBasicCompletion := fun _ => rephrased;
     getMapResults := fun args => mapped (MapArgs.url args);
     performRanking := fun _ urls _ => ranked urls;
     getJobPriority := fun _ _ base => Ok base;
     addScrapeJob := fun _ _ _ => Ok tt;
     waitForJob := fun jobId _ => waited jobId;
     queue_remove := fun _ => Ok tt;
     buildDocument :=
       fun d =>
         match Document.markdown d with
         | Some m => string_of_list_ascii (List.map ascii_of_N m)
         | None => EmptyString
         end;
     generateOpenAICompletions :=
       fun _ _ => Ok (Completions.mk (Some "{}") None (Some 40%float)) |}.

Definition sample_request (urls : list string) (prompt : option string)
  : Request.t :=
  Request.mk
    (ExtractRequest.mk urls prompt None None None None None None None)
    "team" None None.

(** A map search that finds one page under every base URL. *)
Definition one_page (u : string) (base : string) : result MapResult.t :=
  Ok (MapResult.mk [page u] []).

(** A ranker that gives every link the same score. *)
Definition flat_score (s : Q) (urls : list string)
  : result (list LinkScore.t) :=
  Ok (List.map (fun u => scored u s) urls).

Definition no_rephrase : result (option string) := Ok None.

Definition no_map (base : string) : result MapResult.t :=
  Throw (failure "map failed").

Definition no_rank (urls : list string) : result (list LinkScore.t) :=
  Throw (failure "ranking failed").

Definition job_done (jobId : nat) : result Document.t :=
  Ok (fetched "https://example.com/page" 100).

Definition job_timeout (jobId : nat) : result Document.t :=
  Throw (failure "Job wait").

(** A trace that is marked both as used in the completion and as failed. *)
Definition used_and_failed (t : URLTrace.t) : bool :=
  match URLTrace.usedInCompletion t, URLTrace.status t with
  | Some true, Status.error => true
  | _, _ => false
  end.

(** ** The trace ledger *)

(** The trace pushed for a discovered URL (lines 110-117): [mapped], not
    used, and nothing else recorded beside the time of discovery. *)
Definition discovered_trace (t : URLTrace.t) : Prop :=
  URLTrace.status t = Status.mapped
  /\ URLTrace.usedInCompletion t = Some false
  /\ URLTrace.relevanceScore t = None
  /\ URLTrace.warning t = None
  /\ URLTrace.error t = None
  /\ URLTrace.contentStats t = None
  /\ Timing.scrapedAt (URLTrace.timing t) = None
  /\ Timing.completedAt (URLTrace.timing t) = None.

(** A trace marked as used names a URL that is not blocked. *)
Definition used_unblocked (env : Collaborators) (t : URLTrace.t) : Prop :=
  URLTrace.usedInCompletion t = Some true ->
  isUrlBlocked env (URLTrace.url t) = false.

(** The ledger of a request for [urls]: a trace for each input URL, in
    the order of the request, then traces whose URLs are no input URLs
    and occur once. *)
Definition inputs_then_discovered (urls : list string)
    (urlTraces : list URLTrace.t) : Prop :=
  exists rest,
    List.map URLTrace.url urlTraces = urls ++ rest
    /\ NoDup rest
    /\ forall u, In u rest -> ~ In u urls.

(** What the client is sent as [urlTrace], when a response is sent. *)
Definition sent_ledger (o : outcome) : option (list URLTrace.t) :=
  match o with
  | Responded _ body => Some (Response.urlTrace body)
  | Rejected _ | Unfinished => None
  end.

(** ** Billing and logging *)

(** The credits of the [billTeam] calls among [cs], in their order. *)
Definition credits_billed (cs : list call) : list nat :=
  List.flat_map
    (fun c => match c with Call_billTeam _ _ n => [n] | _ => [] end) cs.

(** The job ids of the [logJob] calls among [cs], in their order. *)
Definition jobs_logged (cs : list call) : list nat :=
  List.flat_map
    (fun c => match c with Call_logJob id => [id] | _ => [] end) cs.

(** The calls of [generateOpenAICompletions] among [cs]. *)
Definition completions_requested (cs : list call) : nat :=
  length
    (List.filter
       (fun c =>
          match c with
          | Call_generateOpenAICompletions _ _ => true
          | _ => false
          end) cs).

(** The calls a resolution or a fetch can issue. *)
Definition is_task_call (c : call) : bool :=
  match c with
  | Call_generateOpenAICompletions _ _ | Call_billTeam _ _ _
  | Call_logJob _ => false
  | _ => true
  end.

Definition only_task_calls (s : state) : Prop :=
  List.Forall (fun c => is_task_call c = true) (calls s).

(** The response reports success. *)
Definition succeeded (o : outcome) : bool :=
  match o with
  | Responded _ body => Response.success body
  | Rejected _ | Unfinished => false
  end.

(** ** Where an exception comes from *)

(** What a resolution (lines 63-243) is rejected with: what the
    rephrasing call threw, which no [try] covers; or the [TypeError] of
    the [catch] of line 226, which cannot read the message of a [null]
    or [undefined] that the map search or the ranker rejected with. *)
Definition resolution_failure (env : Collaborators) (v : thrown) : Prop :=
  (exists q, generateBasicCompletion env q = Throw v)
  \/ (exists n,
        v = Obj (cannot_read n "message")
        /\ ((exists args, getMapResults env args = Throw (Nullish n))
            \/ (exists l urls q,
                  performRanking env l urls q = Throw (Nullish n)))).

(** A resolution task that waits for what a collaborator returned, and
    is rejected, if it is, with a failure of a resolution. *)
Definition resolution_traced (env : Collaborators) (t : rtask) : Prop :=
  match t with
  | RAwaitRephrase _ _ _ p => exists q, p = generateBasicCompletion env q
  | RAwaitMap _ _ _ p => exists args, p = getMapResults env args
  | RAwaitRank _ _ p => exists l urls q, p = performRanking env l urls q
  | RRejected v => resolution_failure env v
  | RFulfilled _ => True
  end.

(** What a fetch (lines 260-318) is rejected with: what the priority
    lookup threw, which no [try] covers; or, the lookup having
    succeeded, the [TypeError] of the [catch] of line 310, which cannot
    read the message of a [null] or [undefined] that [addScrapeJob],
    [waitForJob] or the removal from the queue rejected with. *)
Definition fetch_failure (env : Collaborators) (req : Request.t)
    (v : thrown) : Prop :=
  getJobPriority env (Request.plan req) (Request.team_id req) 10%Z = Throw v
  \/ (exists n,
        v = Obj (cannot_read n "message")
        /\ (exists priority,
              getJobPriority env (Request.plan req) (Request.team_id req)
                10%Z = Ok priority)
        /\ ((exists job jobId priority,
               addScrapeJob env job jobId priority = Throw (Nullish n))
            \/ (exists jobId timeout,
                  waitForJob env jobId timeout = Throw (Nullish n))
            \/ (exists jobId, queue_remove env jobId = Throw (Nullish n)))).

(** A fetch task that waits for what a collaborator returned, the
    priority lookup having succeeded once it is past it, and is
    rejected, if it is, with a failure of a fetch. *)
Definition fetch_traced (env : Collaborators) (req : Request.t)
    (t : ftask) : Prop :=
  let looked_up :=
    exists priority,
      getJobPriority env (Request.plan req) (Request.team_id req) 10%Z
      = Ok priority in
  match t with
  | FAwaitPriority _ _ _ _ p =>
      p = getJobPriority env (Request.plan req) (Request.team_id req) 10%Z
  | FAwaitAdd _ _ _ p =>
      looked_up
      /\ exists job jobId priority, p = addScrapeJob env job jobId priority
  | FAwaitWait _ _ p =>
      looked_up /\ exists jobId timeout, p = waitForJob env jobId timeout
  | FAwaitRemove _ _ p =>
      looked_up /\ exists jobId, p = queue_remove env jobId
  | FRejected v => fetch_failure env req v
  | FFulfilled _ => True
  end.

(** A fetch task that is not rejected and is not about to be: it does
    not wait for a priority lookup that has failed, nor for a call that
    has rejected with [null] or [undefined]. *)
Definition fetch_not_failing (t : ftask) : Prop :=
  match t with
  | FRejected _ | FAwaitPriority _ _ _ _ (Throw _)
  | FAwaitAdd _ _ _ (Throw (Nullish _))
  | FAwaitWait _ _ (Throw (Nullish _))
  | FAwaitRemove _ _ (Throw (Nullish _)) => False
  | _ => True
  end.

(** A fetch task stopped by the failure [e] of the priority lookup: it
    waits for the lookup, or is rejected with [e]. *)
Definition stopped_at_priority (e : Exn.t) (t : ftask) : Prop :=
  match t with
  | FAwaitPriority _ _ _ _ (Throw v) | FRejected v => v = Obj e
  | _ => False
  end.

(** The state once every fetch has started: the ledger as a failing
    priority lookup leaves it. *)
Definition fetches_started (env : Collaborators) (req : Request.t)
    (resolve_order : list nat) (links : list string) : state :=
  snd (start_all (start_scrape env req) links
         (pstate (snd (resolve_all env req resolve_order)))).

(** [env] with another priority lookup, and with another completion. *)
Definition with_priority (p : result Z) (env : Collaborators)
  : Collaborators :=
  {| isUrlBlocked := isUrlBlocked env;
     removeDuplicateUrls := removeDuplicateUrls env;
     buildRefrasedPrompt := buildRefrasedPrompt env;
     generateBasicCompletion := generateBasicCompletion env;
     getMapResults := getMapResults env;
     performRanking := performRanking env;
     getJobPriority := fun _ _ _ => p;
     addScrapeJob := addScrapeJob env;
     waitForJob := waitForJob env;
     queue_remove := queue_remove env;
     buildDocument := buildDocument env;
     generateOpenAICompletions := generateOpenAICompletions env |}.

Definition with_completion (c : result Completions.t) (env : Collaborators)
  : Collaborators :=
  {| isUrlBlocked := isUrlBlocked env;
     removeDuplicateUrls := removeDuplicateUrls env;
     buildRefrasedPrompt := buildRefrasedPrompt env;
     generateBasicCompletion := generateBasicCompletion env;
     getMapResults := getMapResults env;
     performRanking := performRanking env;
     getJobPriority := getJobPriority env;
     addScrapeJob := addScrapeJob env;
     waitForJob := waitForJob env;
     queue_remove := queue_remove env;
     buildDocument := buildDocument env;
     generateOpenAICompletions := fun _ _ => c |}.

(** An exception as an HTTP layer throws it, with a status and an error
    text. *)
Definition http_failure (status : Z) (m : string) : Exn.t :=
  Exn.mk (Some m) (Some status) (Some m).

(** ** Requests for literal URLs *)

(** What the ledger says of a URL, timing apart. *)
Definition trace_summary (t : URLTrace.t)
  : string * Status.t * option bool * option string :=
  (URLTrace.url t, URLTrace.status t, URLTrace.usedInCompletion t,
   URLTrace.error t).

(** The summary of the trace of a literal URL (lines 234-241). *)
Definition literal_summary (env : Collaborators) (u : string)
  : string * Status.t * option bool * option string :=
  if isUrlBlocked env u
  then (u, Status.error, Some false, Some "URL is blocked")
  else (u, Status.mapped, Some true, None).

(** The settled task of a literal URL. *)
Definition literal_task (env : Collaborators) (u : string) : rtask :=
  if negb (isUrlBlocked env u) then RFulfilled [u] else RFulfilled [].

(** ** The order of resumption *)

(** The task a continuation of a resolution ends in: it does not depend
    on the state. *)
Definition next_resolve (env : Collaborators) (req : Request.t) (t : rtask)
  : rtask :=
  fst (resume_resolve env req t initial_state).

(** Whether [urlTraces.find] finds a trace for a URL. *)
Definition has_trace (u : string) (urlTraces : list URLTrace.t) : bool :=
  match find_trace u urlTraces with
  | Some _ => true
  | None => false
  end.

(** A trace found or not, without its place in the ledger. *)
Definition found (b : bool) : option nat :=
  if b then Some 0%nat else None.

Definition is_found (trace : option nat) : bool :=
  match trace with
  | Some _ => true
  | None => false
  end.

(** A fetch task without the place of the trace it found at its start;
    whether it found one, on which its [catch] depends, is kept. *)
Definition forget_trace (t : ftask) : ftask :=
  match t with
  | FAwaitPriority trace url timeout jobId p =>
      FAwaitPriority (found (is_found trace)) url timeout jobId p
  | FAwaitAdd trace timeout jobId p =>
      FAwaitAdd (found (is_found trace)) timeout jobId p
  | FAwaitWait trace jobId p => FAwaitWait (found (is_found trace)) jobId p
  | FAwaitRemove trace doc p => FAwaitRemove (found (is_found trace)) doc p
  | FFulfilled _ | FRejected _ => t
  end.


(** The task a continuation of a fetch ends in, the trace apart. *)
Definition next_scrape (env : Collaborators) (req : Request.t) (t : ftask)
  : ftask :=
  forget_trace (fst (resume_scrape env req t initial_state)).


(** ** The blocklist and the links *)

(** A resolution task that, if fulfilled, is fulfilled with URLs that
    are not blocked. *)
Definition screened (env : Collaborators) (t : rtask) : Prop :=
  match t with
  | RFulfilled urls => List.Forall (fun u => isUrlBlocked env u = false) urls
  | _ => True
  end.

(** ** The calls of the fetch stage *)

(** A call of the fetch stage made for one of [links]: a job is
    submitted for a link, with the priority that was looked up, and a
    wait has the timeout derived from the request. *)
Definition fetch_call_for (env : Collaborators) (req : Request.t)
    (links : list string) (c : call) : Prop :=
  match c with
  | Call_addScrapeJob job _ priority =>
      (exists u, In u links /\ job = scrape_job req u)
      /\ getJobPriority env (Request.plan req) (Request.team_id req) 10%Z
         = Ok priority
  | Call_waitForJob _ timeout =>
      timeout = scrape_timeout (ExtractRequest.timeout (Request.body req))
  | _ => True
  end.

(** A fetch task in flight for one of [links]. *)
Definition fetching_for (env : Collaborators) (req : Request.t)
    (links : list string) (t : ftask) : Prop :=
  match t with
  | FAwaitPriority _ u timeout _ p =>
      In u links
      /\ timeout = scrape_timeout (ExtractRequest.timeout (Request.body req))
      /\ p = getJobPriority env (Request.plan req) (Request.team_id req) 10%Z
  | FAwaitAdd _ timeout _ _ =>
      timeout = scrape_timeout (ExtractRequest.timeout (Request.body req))
  | _ => True
  end.

(** ** What a fetch yields *)

(** What the [catch] of a fetch (lines 310-317) makes of what it
    caught: [null] for the document; but where a trace was found and
    [null] or [undefined] was caught, the [TypeError] of reading its
    message. *)
Definition fetch_caught (traced : bool) (v : thrown)
  : result (option Document.t) :=
  match traced, v with
  | true, Nullish n => Throw (cannot_read n "message")
  | _, _ => Ok None
  end.

(** What the fetch of [url] under [jobId] yields (lines 277-317), the
    priority lookup having succeeded: the document [waitForJob] returns,
    when [addScrapeJob], [waitForJob] and the removal from the queue all
    succeed, and otherwise what the [catch] makes of the failure. *)
Definition fetch_outcome (env : Collaborators) (req : Request.t)
    (priority : Z) (jobId : nat) (traced : bool) (url : string)
  : result (option Document.t) :=
  match addScrapeJob env (scrape_job req url) jobId priority with
  | Throw v => fetch_caught traced v
  | Ok _ =>
      match
        waitForJob env jobId
          (scrape_timeout (ExtractRequest.timeout (Request.body req)))
      with
      | Throw v => fetch_caught traced v
      | Ok doc =>
          match queue_remove env jobId with
          | Throw v => fetch_caught traced v
          | Ok _ => Ok (Some doc)
          end
      end
  end.

(** The fetches of [links], the first under [jobId] and each next one
    under the next job id, with the ledger as the resolution left it. *)
Fixpoint fetch_outcomes (env : Collaborators) (req : Request.t)
    (priority : Z) (jobId : nat) (urlTraces : list URLTrace.t)
    (links : list string) : list (result (option Document.t)) :=
  match links with
  | [] => []
  | u :: us =>
      fetch_outcome env req priority jobId (has_trace u urlTraces) u
        :: fetch_outcomes env req priority (S jobId) urlTraces us
  end.

(** The documents of the fetches, when none is rejected:
    [results.filter((doc) => doc !== null)] of line 322. *)
Fixpoint fetched_documents (outcomes : list (result (option Document.t)))
  : option (list Document.t) :=
  match outcomes with
  | [] => Some []
  | Ok d :: rest =>
      match fetched_documents rest with
      | Some docs => Some (defined [d] ++ docs)
      | None => None
      end
  | Throw _ :: _ => None
  end.

(** The task a fetch ends as. *)
Definition fetch_ended (o : result (option Document.t)) : ftask :=
  match o with
  | Ok d => FFulfilled d
  | Throw v => FRejected v
  end.

(** The fetch tasks as they start, the places of their traces apart. *)
Fixpoint fetch_tasks (env : Collaborators) (req : Request.t) (jobId : nat)
    (urlTraces : list URLTrace.t) (links : list string) : list ftask :=
  match links with
  | [] => []
  | u :: us =>
      FAwaitPriority (found (has_trace u urlTraces)) u
        (scrape_timeout (ExtractRequest.timeout (Request.body req))) jobId
        (getJobPriority env (Request.plan req) (Request.team_id req) 10%Z)
        :: fetch_tasks env req (S jobId) urlTraces us
  end.

(** ** The traces of the links *)

(** A trace that shows a fetch: [scraped] or [error], with the time the
    fetch started. *)
Definition fetch_marked (t : URLTrace.t) : Prop :=
  (URLTrace.status t = Status.scraped \/ URLTrace.status t = Status.error)
  /\ Timing.scrapedAt (URLTrace.timing t) <> None.

(** The trace [urlTraces.find] returns for a URL that satisfies [P], if
    it returns one, shows a fetch. *)
Definition found_marked (P : string -> Prop) (urlTraces : list URLTrace.t)
  : Prop :=
  forall u i,
    P u -> find_trace u urlTraces = Some i ->
    exists t, urlTraces !! i = Some t /\ URLTrace.url t = u /\ fetch_marked t.

(** ** The marks of the relevance filter *)

(** The trace of a link filtered out by its score (lines 196-200). *)
Definition marked_below_threshold (t : URLTrace.t) : Prop :=
  URLTrace.usedInCompletion t = Some false
  /\ (exists v, URLTrace.warning t = Some (BelowThreshold v))
  /\ URLTrace.relevanceScore t <> None.

(** The trace of a document dropped by the ranking limit (lines
    219-220). *)
Definition marked_over_limit (t : URLTrace.t) : Prop :=
  URLTrace.usedInCompletion t = Some false
  /\ URLTrace.warning t = Some RankingLimit.

(** A trace has content statistics exactly when it has a completion
    time. *)
Definition stats_with_completion (t : URLTrace.t) : Prop :=
  URLTrace.contentStats t <> None
  <-> Timing.completedAt (URLTrace.timing t) <> None.

(** * Properties of the relevance filter *)

Lemma score_gt_iff (x y : Q) : score_gt x y = true <-> (y < x)%Q.
Proof.
  unfold score_gt. rewrite negb_true_iff.
  destruct (Qle_bool x y) eqn:E.
  - apply Qle_bool_iff in E. split; [discriminate |].
    intros H. exfalso. exact (Qlt_not_le _ _ H E).
  - split; [| reflexivity]. intros _. apply Qnot_le_lt. intros H.
    apply Qle_bool_iff in H. congruence.
Qed.

Lemma score_gt_diff (a b : Q) : score_gt (b - a) 0 = true <-> (a < b)%Q.
Proof.
  rewrite score_gt_iff. unfold Qminus. symmetry. apply Qlt_minus_iff.
Qed.

(** The sort of line 180.  [sort_by_score] is the sort that
    [Array.prototype.sort] specifies for this comparator: a permutation
    of the array, in descending order of score, that keeps entries of
    equal score in their order. *)
Lemma insert_by_score_perm (a : LinkScore.t) (l : list LinkScore.t) :
  Permutation (insert_by_score a l) (a :: l).
Proof.
  induction l as [| b l IH]; simpl; [reflexivity |].
  destruct (score_gt _ _); [| reflexivity].
  rewrite IH. apply perm_swap.
Qed.

Lemma sort_by_score_perm (l : list LinkScore.t) :
  Permutation (sort_by_score l) l.
Proof.
  induction l as [| a l IH]; [reflexivity |].
  change (sort_by_score (a :: l)) with (insert_by_score a (sort_by_score l)).
  rewrite insert_by_score_perm. now constructor.
Qed.

Lemma insert_by_score_sorted (a : LinkScore.t) (l : list LinkScore.t) :
  Sorted descending l -> Sorted descending (insert_by_score a l).
Proof.
  induction l as [| b l IH]; simpl; intros H.
  - repeat constructor.
  - destruct (score_gt (LinkScore.score b - LinkScore.score a) 0) eqn:E.
    + apply Sorted_inv in H as [Hl Hb]. constructor; [now apply IH |].
      apply score_gt_diff in E.
      destruct l as [| c l]; simpl.
      * constructor. now apply Qlt_le_weak.
      * destruct (score_gt (LinkScore.score c - LinkScore.score a) 0).
        -- constructor. now inversion Hb.
        -- constructor. now apply Qlt_le_weak.
    + constructor; [exact H |]. constructor.
      apply Qnot_lt_le. intros Hc. apply score_gt_diff in Hc. congruence.
Qed.

Lemma sort_by_score_sorted (l : list LinkScore.t) :
  Sorted descending (sort_by_score l).
Proof.
  induction l as [| a l IH]; [constructor |].
  change (sort_by_score (a :: l)) with (insert_by_score a (sort_by_score l)).
  now apply insert_by_score_sorted.
Qed.

Lemma insert_by_score_stable (v : Q) (a : LinkScore.t)
    (l : list LinkScore.t) :
  List.filter (has_score v) (insert_by_score a l)
  = List.filter (has_score v) (a :: l).
Proof.
  induction l as [| b l IH]; [reflexivity |].
  simpl insert_by_score.
  destruct (score_gt (LinkScore.score b - LinkScore.score a) 0) eqn:E;
    [| reflexivity].
  apply score_gt_diff in E.
  change (List.filter (has_score v) (b :: insert_by_score a l))
    with (if has_score v b
          then b :: List.filter (has_score v) (insert_by_score a l)
          else List.filter (has_score v) (insert_by_score a l)).
  rewrite IH. simpl.
  destruct (has_score v a) eqn:Ea, (has_score v b) eqn:Eb; try reflexivity.
  exfalso. unfold has_score in *.
  apply Qeq_bool_iff in Ea, Eb. rewrite Ea, Eb in E.
  exact (Qlt_irrefl _ E).
Qed.

Lemma sort_by_score_stable (v : Q) (l : list LinkScore.t) :
  List.filter (has_score v) (sort_by_score l) = List.filter (has_score v) l.
Proof.
  induction l as [| a l IH]; [reflexivity |].
  change (sort_by_score (a :: l)) with (insert_by_score a (sort_by_score l)).
  rewrite insert_by_score_stable. simpl. now rewrite IH.
Qed.

Lemma allowed_iff (blocked : string -> bool) (o : option MapDocument.t) :
  allowed blocked o = true
  <-> exists d, o = Some d /\ blocked (MapDocument.url d) = false.
Proof.
  destruct o as [d |]; simpl.
  - rewrite negb_true_iff. split.
    + intros H. exists d. auto.
    + intros (d' & [= <-] & H). exact H.
  - split; [discriminate | intros (d & [=] & _)].
Qed.

(** What the two filters and the narrowing keep of a list of scored
    links. *)
Lemma In_kept (blocked : string -> bool) (ml : list MapDocument.t)
    (xs : list LinkScore.t) (d : MapDocument.t) :
  In d (defined (List.filter (allowed blocked)
                   (List.map (fun x => find_link ml (LinkScore.link x)) xs)))
  <-> exists x, In x xs /\ find_link ml (LinkScore.link x) = Some d
                /\ blocked (MapDocument.url d) = false.
Proof.
  induction xs as [| x xs IH]; simpl.
  - split; [intros [] | intros (x & [] & _)].
  - destruct (allowed blocked (find_link ml (LinkScore.link x))) eqn:E.
    + apply allowed_iff in E as (d0 & Hf & Hb).
      rewrite Hf. simpl. rewrite IH. split.
      * intros [<- | (y & Hy & H)]; [exists x | exists y]; tauto.
      * intros (y & [<- | Hy] & Hfy & Hby).
        -- left. congruence.
        -- right. exists y. tauto.
    + rewrite IH. split.
      * intros (y & Hy & H). exists y. tauto.
      * intros (y & [<- | Hy] & Hfy & Hby).
        -- assert (allowed blocked (find_link ml (LinkScore.link x)) = true)
             by (apply allowed_iff; eauto).
           congruence.
        -- exists y. tauto.
Qed.

Lemma In_filterAndProcessLinks (blocked : string -> bool)
    (ml : list MapDocument.t) (ls : list LinkScore.t) (threshold : Q)
    (d : MapDocument.t) :
  In d (filterAndProcessLinks blocked ml ls threshold)
  <-> accepted_at blocked ml ls threshold d.
Proof.
  unfold filterAndProcessLinks, accepted_at. rewrite In_kept.
  split.
  - intros (x & Hx & Hf & Hb). apply filter_In in Hx as [Hx Hs].
    apply score_gt_iff in Hs. exists x. tauto.
  - intros (x & Hx & Hs & Hf & Hb). exists x. split; [| tauto].
    apply filter_In. split; [exact Hx | now apply score_gt_iff].
Qed.

Lemma filterAndProcessLinks_nil (blocked : string -> bool)
    (ml : list MapDocument.t) (ls : list LinkScore.t) (threshold : Q) :
  filterAndProcessLinks blocked ml ls threshold = []
  <-> ~ exists d, accepted_at blocked ml ls threshold d.
Proof.
  split.
  - intros E (d & H). apply In_filterAndProcessLinks in H.
    rewrite E in H. exact H.
  - intros H. destruct (filterAndProcessLinks blocked ml ls threshold)
      as [| d l] eqn:E; [reflexivity |].
    exfalso. apply H. exists d. apply In_filterAndProcessLinks.
    rewrite E. now left.
Qed.

Lemma hd_insert_by_score (a : LinkScore.t) (l : list LinkScore.t) :
  hd_error (insert_by_score a l)
  = match hd_error l with
    | Some b =>
        if score_gt (LinkScore.score b - LinkScore.score a) 0
        then Some b else Some a
    | None => Some a
    end.
Proof.
  destruct l as [| b l]; simpl; [reflexivity |].
  destruct (score_gt _ _); reflexivity.
Qed.

Lemma hd_sort_by_score (ls : list LinkScore.t) :
  hd_error (sort_by_score ls) = top ls.
Proof.
  induction ls as [| x ls IH]; [reflexivity |].
  change (sort_by_score (x :: ls))
    with (insert_by_score x (sort_by_score ls)).
  rewrite hd_insert_by_score, IH. reflexivity.
Qed.

Lemma top_first_highest (ls : list LinkScore.t) (x : LinkScore.t) :
  top ls = Some x -> exists i, first_highest ls i x.
Proof.
  revert x. induction ls as [| a ls IH]; simpl; intros x H; [discriminate |].
  destruct (top ls) as [y |] eqn:Ey.
  - destruct (IH y eq_refl) as (i & Hi & Hlt & Hle).
    destruct (score_gt (LinkScore.score y - LinkScore.score a) 0) eqn:E;
      injection H as <-.
    + apply score_gt_diff in E. exists (S i). split; [exact Hi |]. split.
      * intros [| j] z Hz Hj; simpl in Hz.
        -- injection Hz as <-. exact E.
        -- apply (Hlt j); [exact Hz | lia].
      * intros [| j] z Hz; simpl in Hz.
        -- injection Hz as <-. now apply Qlt_le_weak.
        -- now apply (Hle j).
    + assert (Hay : (LinkScore.score y <= LinkScore.score a)%Q).
      { apply Qnot_lt_le. intros Hc. apply score_gt_diff in Hc. congruence. }
      exists 0%nat. split; [reflexivity |]. split.
      * intros j z _ Hj. lia.
      * intros [| j] z Hz; simpl in Hz.
        -- injection Hz as <-. apply Qle_refl.
        -- eapply Qle_trans; [now apply (Hle j) | exact Hay].
  - injection H as <-. destruct ls as [| b ls].
    + exists 0%nat. split; [reflexivity |]. split.
      * intros j z _ Hj. lia.
      * intros [| j] z Hz; simpl in Hz; [| discriminate].
        injection Hz as <-. apply Qle_refl.
    + simpl in Ey. destruct (top ls); [destruct (score_gt _ _) |];
        discriminate.
Qed.

Lemma first_highest_unique (ls : list LinkScore.t) (i j : nat)
    (x y : LinkScore.t) :
  first_highest ls i x -> first_highest ls j y -> x = y.
Proof.
  intros (Hi & Hlti & Hlei) (Hj & Hltj & Hlej).
  destruct (Nat.lt_trichotomy i j) as [Hc | [-> | Hc]].
  - exfalso. apply (Qlt_not_le _ _ (Hltj i x Hi Hc)). now apply (Hlei j).
  - congruence.
  - exfalso. apply (Qlt_not_le _ _ (Hlti j y Hj Hc)). now apply (Hlej i).
Qed.

Lemma top_iff_first_highest (ls : list LinkScore.t) (x : LinkScore.t) :
  top ls = Some x <-> exists i, first_highest ls i x.
Proof.
  split; [apply top_first_highest |].
  intros (i & H). destruct (top ls) as [y |] eqn:E.
  - destruct (top_first_highest ls y E) as (j & Hy).
    f_equal. exact (first_highest_unique ls j i y x Hy H).
  - destruct ls as [| a ls].
    + destruct H as (H & _). destruct i; discriminate.
    + simpl in E. destruct (top ls); [destruct (score_gt _ _) |];
        discriminate.
Qed.

(** The last step of the cascade keeps the top candidate, if any. *)
Lemma In_top_step (blocked : string -> bool) (ml : list MapDocument.t)
    (ls : list LinkScore.t) (d : MapDocument.t) :
  In d (defined (List.filter (allowed blocked)
          (List.map (fun x => find_link ml (LinkScore.link x))
             (firstn MIN_REQUIRED_LINKS (sort_by_score ls)))))
  <-> top_candidate blocked ml ls d.
Proof.
  rewrite In_kept. unfold top_candidate, MIN_REQUIRED_LINKS.
  assert (Hhd : forall x,
            In x (firstn 1 (sort_by_score ls)) <-> top ls = Some x).
  { intros x. rewrite <- hd_sort_by_score.
    destruct (sort_by_score ls) as [| y l]; simpl.
    - split; [tauto | discriminate].
    - split; [intros [-> | []]; reflexivity | intros [= ->]; now left]. }
  split.
  - intros (x & Hx & Hf & Hb). apply Hhd, top_first_highest in Hx as (i & Hi).
    exists i, x. tauto.
  - intros (i & x & Hi & Hf & Hb). exists x. split; [| tauto].
    apply Hhd, top_iff_first_highest. eauto.
Qed.

(** The three steps of the cascade, by what the first two accept. *)
Lemma cascade_steps (blocked : string -> bool) (ml : list MapDocument.t)
    (ls : list LinkScore.t) :
  let high := filterAndProcessLinks blocked ml ls INITIAL_SCORE_THRESHOLD in
  let low := filterAndProcessLinks blocked ml ls FALLBACK_SCORE_THRESHOLD in
  fst (cascade blocked ml ls)
  = match high, low with
    | _ :: _, _ => high
    | [], _ :: _ => low
    | [], [] =>
        defined (List.filter (allowed blocked)
          (List.map (fun x => find_link ml (LinkScore.link x))
             (firstn MIN_REQUIRED_LINKS (sort_by_score ls))))
    end.
Proof.
  unfold cascade.
  destruct (filterAndProcessLinks blocked ml ls INITIAL_SCORE_THRESHOLD)
    as [| d1 l1]; simpl; [| reflexivity].
  destruct (filterAndProcessLinks blocked ml ls FALLBACK_SCORE_THRESHOLD)
    as [| d2 l2]; reflexivity.
Qed.

Lemma cascade_meets_policy (blocked : string -> bool)
    (ml : list MapDocument.t) (ls : list LinkScore.t) :
  cascade_policy blocked ml ls (fst (cascade blocked ml ls)).
Proof.
  unfold cascade_policy. rewrite cascade_steps.
  pose proof (filterAndProcessLinks_nil blocked ml ls INITIAL_SCORE_THRESHOLD)
    as Hhi.
  pose proof (filterAndProcessLinks_nil blocked ml ls FALLBACK_SCORE_THRESHOLD)
    as Hlo.
  pose proof (In_filterAndProcessLinks blocked ml ls INITIAL_SCORE_THRESHOLD)
    as Ihi.
  pose proof (In_filterAndProcessLinks blocked ml ls FALLBACK_SCORE_THRESHOLD)
    as Ilo.
  unfold INITIAL_SCORE_THRESHOLD, FALLBACK_SCORE_THRESHOLD in *.
  destruct (filterAndProcessLinks blocked ml ls 0.75) as [| d1 l1].
  - destruct (filterAndProcessLinks blocked ml ls 0.5) as [| d2 l2].
    + split; [| split].
      * intros H. exfalso. now apply (proj1 Hhi).
      * intros _ H. exfalso. now apply (proj1 Hlo).
      * intros _ d. apply In_top_step.
    + split; [| split].
      * intros H. exfalso. now apply (proj1 Hhi).
      * intros _ _ d. apply Ilo.
      * intros H. exfalso. apply H. exists d2. apply Ilo. now left.
  - split; [| split].
    + intros _ d. apply Ihi.
    + intros H. exfalso. apply H. exists d1. apply Ihi. now left.
    + intros H. exfalso. apply H. exists d1.
      destruct (proj1 (Ihi d1) (or_introl eq_refl)) as (x & Hx & Hs & Hr).
      exists x. split; [exact Hx |]. split; [| exact Hr].
      eapply Qlt_trans; [| exact Hs]. reflexivity.
Qed.

(** C1 (as stated): with [a] blocked and scores a:0.8, b:0.6 the code
    accepts [b] alone, whereas the cascade as the specification words it
    stops at the first step with [a], the only candidate above 0.75. *)
Lemma cascade_as_specified_fails :
  ~ cascade_as_specified (String.eqb "a") [page "a"; page "b"]
      [scored "a" 0.8; scored "b" 0.6]
      (fst (cascade (String.eqb "a") [page "a"; page "b"]
              [scored "a" 0.8; scored "b" 0.6])).
Proof.
  intros (H & _).
  assert (Ha : scored_above [page "a"; page "b"]
                 [scored "a" 0.8; scored "b" 0.6] 0.75 (page "a")).
  { exists (scored "a" 0.8). split; [now left |]. split; [| reflexivity].
    reflexivity. }
  specialize (H (ex_intro _ _ Ha)).
  apply H in Ha. vm_compute in Ha. destruct Ha as [Ha | []]. discriminate.
Qed.

(** C1 (amended): the accepted list is what the cascade yields when the
    blocklist and the lookup in the candidate list apply at every step:
    the unblocked candidates scoring above 0.75 if there is one, else
    those above 0.5 if there is one, else the single highest-scoring entry
    (the first of them on a tie) if it is an unblocked candidate.  With
    nothing blocked, scores a:0.8, b:0.6, c:0.3 give a; a:0.6, b:0.55 give
    a and b; a:0.2, b:0.1 give a. *)
Theorem cascade_correct :
  (forall blocked ml ls,
     cascade_policy blocked ml ls (fst (cascade blocked ml ls)))
  /\ fst (cascade nothing_blocked [page "a"; page "b"; page "c"]
            [scored "a" 0.8; scored "b" 0.6; scored "c" 0.3])
     = [page "a"]
  /\ fst (cascade nothing_blocked [page "a"; page "b"]
            [scored "a" 0.6; scored "b" 0.55])
     = [page "a"; page "b"]
  /\ fst (cascade nothing_blocked [page "a"; page "b"]
            [scored "a" 0.2; scored "b" 0.1])
     = [page "a"].
Proof.
  split; [exact cascade_meets_policy |].
  repeat split; vm_compute; reflexivity.
Qed.

(** C5 (as stated): candidates a and b, scored 0.2 and 0.1, with [a]
    blocked: the last step takes [a], the blocklist drops it, and nothing
    is left although [b] is an unblocked candidate. *)
Lemma survivor_as_specified_fails :
  ~ survivor_as_specified (String.eqb "a") [page "a"; page "b"]
      [scored "a" 0.2; scored "b" 0.1].
Proof.
  intros H. apply H; [discriminate | reflexivity |].
  vm_compute. reflexivity.
Qed.

(** C5 (amended): the filter returns nothing exactly when no unblocked
    candidate scores above 0.5 and the single highest-scoring entry is
    not an unblocked candidate; so a candidate survives whenever the
    highest-scoring one is not blocked. *)
Theorem cascade_empty_iff (blocked : string -> bool)
    (ml : list MapDocument.t) (ls : list LinkScore.t) :
  fst (cascade blocked ml ls) = []
  <-> ~ (exists d, accepted_at blocked ml ls 0.5 d)
      /\ ~ (exists d, top_candidate blocked ml ls d).
Proof.
  pose proof (cascade_meets_policy blocked ml ls) as (H1 & H2 & H3).
  set (r := fst (cascade blocked ml ls)) in *.
  assert (Hmono : (exists d, accepted_at blocked ml ls 0.75 d) ->
                  exists d, accepted_at blocked ml ls 0.5 d).
  { intros (d & x & Hx & Hs & Hr). exists d, x. split; [exact Hx |].
    split; [| exact Hr]. eapply Qlt_trans; [| exact Hs]. reflexivity. }
  split.
  - intros E. split.
    + intros Hlo.
      destruct (filterAndProcessLinks blocked ml ls INITIAL_SCORE_THRESHOLD)
        as [| d1 l1] eqn:Ehi.
      * apply filterAndProcessLinks_nil in Ehi.
        destruct Hlo as (d & Hd). apply (H2 Ehi (ex_intro _ d Hd)) in Hd.
        rewrite E in Hd. exact Hd.
      * assert (Hd : accepted_at blocked ml ls 0.75 d1).
        { apply In_filterAndProcessLinks.
          unfold INITIAL_SCORE_THRESHOLD in Ehi. rewrite Ehi. now left. }
        apply (H1 (ex_intro _ d1 Hd)) in Hd. rewrite E in Hd. exact Hd.
    + intros (d & Hd).
      destruct (filterAndProcessLinks blocked ml ls FALLBACK_SCORE_THRESHOLD)
        as [| d2 l2] eqn:Elo.
      * apply filterAndProcessLinks_nil in Elo.
        apply (H3 Elo) in Hd. rewrite E in Hd. exact Hd.
      * assert (Hd2 : accepted_at blocked ml ls 0.5 d2).
        { apply In_filterAndProcessLinks.
          unfold FALLBACK_SCORE_THRESHOLD in Elo. rewrite Elo. now left. }
        destruct (filterAndProcessLinks blocked ml ls INITIAL_SCORE_THRESHOLD)
          as [| d1 l1] eqn:Ehi.
        -- apply filterAndProcessLinks_nil in Ehi.
           apply (H2 Ehi (ex_intro _ d2 Hd2)) in Hd2.
           rewrite E in Hd2. exact Hd2.
        -- assert (Hd1 : accepted_at blocked ml ls 0.75 d1).
           { apply In_filterAndProcessLinks.
             unfold INITIAL_SCORE_THRESHOLD in Ehi. rewrite Ehi. now left. }
           apply (H1 (ex_intro _ d1 Hd1)) in Hd1.
           rewrite E in Hd1. exact Hd1.
  - intros (Hlo & Htop). destruct r as [| d l] eqn:E; [reflexivity |].
    exfalso. apply Htop. exists d. apply (H3 Hlo). now left.
Qed.

(** * Properties of the per-fetch timeout *)

(** [Math.floor] and truthiness on a few numbers. *)
Lemma Math_floor_examples :
  Math_floor 2.5%float = 2%float
  /\ Math_floor (-2.5)%float = (-3)%float
  /\ Math_floor 7%float = 7%float
  /\ Math_floor 0x1.fffffffffffffp-1%float = 0%float
  /\ Math_floor (-0.5)%float = (-1)%float
  /\ PrimFloat.is_nan (Math_floor PrimFloat.nan) = true
  /\ Math_floor PrimFloat.infinity = PrimFloat.infinity
  /\ Math_floor 4503599627370497%float = 4503599627370497%float.
Proof. vm_compute. repeat split; reflexivity. Qed.

Lemma truthy_examples :
  truthy 0%float = false
  /\ truthy (-0)%float = false
  /\ truthy PrimFloat.nan = false
  /\ truthy 1%float = true
  /\ truthy (-1)%float = true.
Proof. vm_compute. repeat split; reflexivity. Qed.

(** C7 (as stated): for a request timeout of 0 the scaled value is 0, which
    is falsy, yet the effective timeout is not 30000: the code replaces
    the 0 by 40000 before it scales, and 28000 comes out. *)
Lemma timeout_as_specified_fails :
  ~ timeout_as_specified (Some 0%float) (scrape_timeout (Some 0%float)).
Proof.
  intros (_ & H). specialize (H eq_refl).
  apply (f_equal (fun x => PrimFloat.eqb x 28000%float)) in H.
  vm_compute in H. discriminate.
Qed.

(** C7 (amended): a request timeout that is missing, zero or NaN is
    replaced by 40000 and the effective timeout is 28000; for any other
    request timeout [x] it is floor(x * 0.7) in binary64 arithmetic, and
    30000 when that value is zero (as for x = 1). *)
Theorem scrape_timeout_cases (requestTimeout : option float) :
  (truthy (to_number requestTimeout) = false ->
   scrape_timeout requestTimeout = 28000%float)
  /\ (truthy (to_number requestTimeout) = true ->
      truthy (scaled (to_number requestTimeout)) = true ->
      scrape_timeout requestTimeout = scaled (to_number requestTimeout))
  /\ (truthy (to_number requestTimeout) = true ->
      truthy (scaled (to_number requestTimeout)) = false ->
      scrape_timeout requestTimeout = 30000%float).
Proof.
  unfold scrape_timeout, opt_num_or, num_or, scaled.
  destruct requestTimeout as [x |]; simpl to_number.
  - destruct (truthy x) eqn:Ex.
    + split; [discriminate |]. split; intros _ H; rewrite H; reflexivity.
    + split; [intros _; vm_compute; reflexivity |].
      split; discriminate.
  - split; [intros _; vm_compute; reflexivity |].
    split; intros H; vm_compute in H; discriminate.
Qed.

(** Request timeouts of 45000 and 90 ms give 31499 and 62, one below
    the exact 31500 and 63: 45000 * 0.7 is 31499.999999999996 in
    binary64.  A request timeout of 1 ms gives the default 30000. *)
Lemma scrape_timeout_examples :
  scrape_timeout (Some 45000%float) = 31499%float
  /\ scrape_timeout (Some 90%float) = 62%float
  /\ scrape_timeout (Some 1%float) = 30000%float
  /\ scrape_timeout (Some 60000%float) = 42000%float
  /\ scrape_timeout None = 28000%float.
Proof. vm_compute. repeat split; reflexivity. Qed.

(** * Properties of the token attribution *)

Lemma find_index_map {A B} (f : A -> B) (p : B -> bool) (l : list A) :
  find_index p (List.map f l) = find_index (fun x => p (f x)) l.
Proof.
  induction l as [| x l IH]; simpl; [reflexivity |].
  rewrite IH. reflexivity.
Qed.

(** [urlTraces.find] looks at the URLs only. *)
Lemma find_trace_urls (u : string) (l1 l2 : list URLTrace.t) :
  List.map URLTrace.url l1 = List.map URLTrace.url l2 ->
  find_trace u l1 = find_trace u l2.
Proof.
  intros H. unfold find_trace.
  rewrite <- (find_index_map URLTrace.url (fun v => String.eqb v u) l1).
  rewrite <- (find_index_map URLTrace.url (fun v => String.eqb v u) l2).
  now rewrite H.
Qed.

Lemma map_url_alter (f : URLTrace.t -> URLTrace.t) (i : nat)
    (l : list URLTrace.t) :
  (forall t, URLTrace.url (f t) = URLTrace.url t) ->
  List.map URLTrace.url (alter f i l) = List.map URLTrace.url l.
Proof.
  intros Hf. revert i. induction l as [| t l IH]; intros [| i]; simpl;
    try reflexivity.
  - now rewrite Hf.
  - f_equal. apply IH.
Qed.

Lemma map_url_update_found (u : string) (f : URLTrace.t -> URLTrace.t)
    (l : list URLTrace.t) :
  (forall t, URLTrace.url (f t) = URLTrace.url t) ->
  List.map URLTrace.url (update_found u f l) = List.map URLTrace.url l.
Proof.
  intros Hf. unfold update_found.
  destruct (find_trace u l); [now apply map_url_alter | reflexivity].
Qed.

Lemma url_set_tokensUsed (n : float) (t : URLTrace.t) :
  URLTrace.url (URLTrace.set_tokensUsed n t) = URLTrace.url t.
Proof.
  unfold URLTrace.set_tokensUsed. destruct (URLTrace.contentStats t);
    reflexivity.
Qed.


Lemma map_url_attribute_doc (total n : float) (l : list URLTrace.t)
    (d : Document.t) :
  List.map URLTrace.url (attribute_doc total n l d) = List.map URLTrace.url l.
Proof.
  unfold attribute_doc. destruct (truthy_string _); [| reflexivity].
  destruct (Document.sourceURL d); [| reflexivity].
  apply map_url_update_found, url_set_tokensUsed.
Qed.

Lemma map_url_attribute_docs (total n : float) (docs : list Document.t)
    (l : list URLTrace.t) :
  List.map URLTrace.url (List.fold_left (attribute_doc total n) docs l)
  = List.map URLTrace.url l.
Proof.
  revert l. induction docs as [| d docs IH]; intros l; simpl;
    [reflexivity |].
  rewrite IH. apply map_url_attribute_doc.
Qed.





(** On small inputs the bound of the specification holds: for two
    documents of at most 24 characters each, not both empty, and from 1
    to 128 tokens, the two attributed values sum to no more than the
    total. *)
Lemma sum_within_total_small (n a b : nat) :
  (1 <= n <= 128)%nat -> (a <= 24)%nat -> (b <= 24)%nat ->
  (0 < a + b)%nat ->
  sum_within_total (Z.of_nat n)
    (attribute_tokens (Some (number_of_nat n))
       [fetched "a" a; fetched "b" b]
       [fetched_trace "a" a; fetched_trace "b" b]).
Proof.
  intros Hn Ha Hb Hab.
  assert (Hall : forallb
                   (fun n =>
                      forallb
                        (fun a =>
                           forallb
                             (fun b =>
                                (Nat.eqb (a + b) 0 || two_within_total n a b))
                             (seq 0 25))
                        (seq 0 25))
                   (seq 1 128)
                 = true) by (vm_compute; reflexivity).
  rewrite forallb_forall in Hall.
  specialize (Hall n ltac:(apply in_seq; lia)).
  rewrite forallb_forall in Hall.
  specialize (Hall a ltac:(apply in_seq; lia)).
  rewrite forallb_forall in Hall.
  specialize (Hall b ltac:(apply in_seq; lia)).
  apply orb_true_iff in Hall as [H | H];
    [apply Nat.eqb_eq in H; lia |].
  unfold two_within_total in H. unfold sum_within_total.
  destruct (attributed_sum _) as [sum |]; [| discriminate].
  exists sum. split; [reflexivity | now apply Z.leb_le].
Qed.

(** The same rounding at the scale of real pages: of 3616 characters and
    2486 tokens, a document of 1952 characters gets 1341 tokens, where
    floor(2486 * 1952 / 3616) is 1342. *)
Lemma token_share_at_scale :
  token_share (totalLength [fetched "a" 1952; fetched "b" 1664])
    2486%float (fetched "a" 1952)
  = 1341%float
  /\ specified_share 2486 [fetched "a" 1952; fetched "b" 1664]
       (fetched "a" 1952)
     = 1342%Z.
Proof. vm_compute. split; reflexivity. Qed.

(** * Properties of the scheduler *)

Section SchedulerFacts.
Context {T A : Type}.
Variable resume : T -> state -> T * state.
Variable settled_of : T -> option (result A).

(** A property of the state that every continuation preserves is
    preserved by every schedule. *)
Variable P : state -> Prop.
Hypothesis resume_preserves : forall t s, P s -> P (snd (resume t s)).

Lemma step_preserves (p : pool) (i : nat) :
  P (pstate p) -> P (pstate (step resume settled_of p i)).
Proof.
  intros H. unfold step. destruct (tasks p !! i) as [t |]; [| exact H].
  destruct (settled_of t); [exact H |].
  specialize (resume_preserves t (pstate p) H).
  destruct (resume t (pstate p)) as [t' s']. exact resume_preserves.
Qed.

Lemma steps_preserve (schedule : list nat) (p : pool) :
  P (pstate p) ->
  P (pstate (List.fold_left (step resume settled_of) schedule p)).
Proof.
  revert p. induction schedule as [| i l IH]; intros p H; simpl;
    [exact H |].
  apply IH, step_preserves, H.
Qed.

Lemma run_preserves (k : nat) (schedule : list nat) (p : pool) :
  P (pstate p) -> P (pstate (run resume settled_of k schedule p)).
Proof. apply steps_preserve. Qed.

Lemma start_all_preserves {X} (start : X -> state -> T * state)
    (xs : list X) (s : state) :
  (forall x s, P s -> P (snd (start x s))) ->
  P s -> P (snd (start_all start xs s)).
Proof.
  intros Hstart. unfold start_all.
  assert (Hacc : forall ts s, P s ->
            P (snd (List.fold_left
                      (fun '(ts, s) x =>
                         let '(t, s) := start x s in (ts ++ [t], s))
                      xs (ts, s)))).
  { induction xs as [| x xs IH]; intros ts s0 H; simpl; [exact H |].
    specialize (Hstart x s0 H). destruct (start x s0) as [t s'].
    apply IH, Hstart. }
  apply Hacc.
Qed.

End SchedulerFacts.

(** * The calls of the resolution stage *)

Lemma calls_with_traces (f : list URLTrace.t -> list URLTrace.t) (s : state) :
  calls (with_traces f s) = calls s.
Proof. reflexivity. Qed.

Lemma calls_track_discovered (l : list string) (s : state) :
  calls (track_discovered l s) = calls s.
Proof.
  unfold track_discovered. revert s.
  induction l as [| u l IH]; intros s; simpl; [reflexivity |].
  rewrite IH. destruct (existsb _ _); reflexivity.
Qed.

Lemma no_fetch_call_issue (c : call) (s : state) :
  is_fetch_call c = false -> no_fetch_call s -> no_fetch_call (issue c s).
Proof.
  intros Hc H. unfold no_fetch_call, issue. simpl.
  apply Forall_app. split; [exact H | now constructor].
Qed.

Lemma no_fetch_call_same (s s' : state) :
  calls s' = calls s -> no_fetch_call s -> no_fetch_call s'.
Proof. unfold no_fetch_call. now intros ->. Qed.

Lemma call_getMapResults_no_fetch (env : Collaborators) (req : Request.t)
    (trace : nat) (b w : string) (q : option string) (s : state) :
  no_fetch_call s ->
  no_fetch_call (snd (call_getMapResults env req trace b w q s)).
Proof. intros H. now apply no_fetch_call_issue. Qed.

Lemma start_resolve_no_fetch (env : Collaborators) (req : Request.t)
    (url : string) (s : state) :
  no_fetch_call s -> no_fetch_call (snd (start_resolve env req url s)).
Proof.
  intros H. unfold start_resolve. simpl.
  destruct (includes url "/*" || is_true _).
  - destruct (truthy_string _).
    + destruct (ExtractRequest.prompt _).
      * now apply no_fetch_call_issue.
      * now apply call_getMapResults_no_fetch.
    + now apply call_getMapResults_no_fetch.
  - destruct (negb _); exact H.
Qed.

Lemma resume_resolve_no_fetch (env : Collaborators) (req : Request.t)
    (t : rtask) (s : state) :
  no_fetch_call s -> no_fetch_call (snd (resume_resolve env req t s)).
Proof.
  intros H. destruct t as [tr b w [v | e] | tr b w [r | [e | n]]
                          | tr ml [ls | [e | n]] | urls | e]; simpl; try exact H.
  - now apply no_fetch_call_issue.
  - unfold after_map. destruct (candidates env b r) as [uniq ml].
    destruct (truthy_string _); simpl.
    + apply no_fetch_call_issue; [reflexivity |].
      eapply no_fetch_call_same; [apply calls_track_discovered | exact H].
    + eapply no_fetch_call_same; [apply calls_track_discovered | exact H].
  - unfold after_rank. destruct (cascade _ _ _) as [fl ls']. exact H.
Qed.

Lemma resolve_all_no_fetch (env : Collaborators) (req : Request.t)
    (resolve_order : list nat) :
  no_fetch_call (pstate (snd (resolve_all env req resolve_order))).
Proof.
  unfold resolve_all. simpl.
  destruct (start_all _ _ _) as [ts s] eqn:E. simpl.
  apply run_preserves; [apply resume_resolve_no_fetch |]. simpl.
  change s with (snd (ts, s)). rewrite <- E.
  apply start_all_preserves; [intros; now apply start_resolve_no_fetch |].
  constructor.
Qed.

(** C2: when every resolution has settled and no link is left, the
    controller answers with status 400, [success: false], the no-links
    message and the trace ledger as the resolution left it, and no call
    of the fetch stage ([getJobPriority], [addScrapeJob], [waitForJob],
    [remove]) has been issued. *)
Theorem no_links_short_circuit (env : Collaborators) (req : Request.t)
    (resolve_order scrape_order : list nat) :
  resolved_links env req resolve_order = Some [] ->
  let s := pstate (snd (resolve_all env req resolve_order)) in
  extractController env req resolve_order scrape_order
  = (Responded (Some 400%Z)
       (Response.mk false None None None (Some NO_LINKS_ERROR)
          (urlTraces s)),
     s)
  /\ forall c, In c (calls s) -> is_fetch_call c = false.
Proof.
  intros H. pose proof (resolve_all_no_fetch env req resolve_order) as Hc.
  unfold resolved_links, extractController in *.
  destruct (resolve_all env req resolve_order) as [id p]. simpl in *.
  destruct (Promise_all rsettled p) as [vs | e snap |]; try discriminate.
  injection H as H. rewrite H. simpl.
  split; [reflexivity |].
  intros c Hin. unfold no_fetch_call in Hc.
  rewrite List.Forall_forall in Hc. now apply Hc.
Qed.

(** A blocked literal URL: nothing resolves, and the response carries the
    one trace, marked as blocked. *)
Lemma no_links_short_circuit_witness :
  let env :=
    sample_env (String.eqb "https://blocked.example") no_rephrase no_map
      no_rank job_done in
  let req := sample_request ["https://blocked.example"] None in
  let s := pstate (snd (resolve_all env req [])) in
  extractController env req [] []
  = (Responded (Some 400%Z)
       (Response.mk false None None None (Some NO_LINKS_ERROR)
          (urlTraces s)),
     s)
  /\ forall c, In c (calls s) -> is_fetch_call c = false.
Proof.
  apply (no_links_short_circuit
           (sample_env (String.eqb "https://blocked.example") no_rephrase
              no_map no_rank job_done)
           (sample_request ["https://blocked.example"] None) [] []).
  vm_compute. reflexivity.
Defined.

(** * Failures during resolution *)

(** A discovery or ranking failure is caught by the task it occurs in:
    the task is fulfilled with no URL, and its own trace is marked. *)
Lemma discovery_failure_caught (env : Collaborators) (req : Request.t)
    (trace : nat) (b w : string) (e : Exn.t) (s : state) :
  resume_resolve env req (RAwaitMap trace b w (Throw e)) s
  = (RFulfilled [],
     update trace
       (fun x =>
          URLTrace.set_usedInCompletion false
            (URLTrace.set_error (Exn.message e)
               (URLTrace.set_status Status.error x))) s).
Proof. reflexivity. Qed.

Lemma ranking_failure_caught (env : Collaborators) (req : Request.t)
    (trace : nat) (ml : list MapDocument.t) (e : Exn.t) (s : state) :
  resume_resolve env req (RAwaitRank trace ml (Throw e)) s
  = (RFulfilled [],
     update trace
       (fun x =>
          URLTrace.set_usedInCompletion false
            (URLTrace.set_error (Exn.message e)
               (URLTrace.set_status Status.error x))) s).
Proof. reflexivity. Qed.

(** Unless what was thrown is [null] or [undefined]: the [catch] sets
    the status, throws on reading the message, and the task is rejected
    with the [TypeError]. *)
Lemma nullish_failure_escapes (env : Collaborators) (req : Request.t)
    (trace : nat) (b w : string) (ml : list MapDocument.t) (n : nullish)
    (s : state) :
  resume_resolve env req (RAwaitMap trace b w (Throw (Nullish n))) s
  = (RRejected (cannot_read n "message"),
     update trace (URLTrace.set_status Status.error) s)
  /\ resume_resolve env req (RAwaitRank trace ml (Throw (Nullish n))) s
     = (RRejected (cannot_read n "message"),
        update trace (URLTrace.set_status Status.error) s).
Proof. split; reflexivity. Qed.

(** So is a blocked literal URL. *)
Lemma blocked_url_caught (env : Collaborators) (req : Request.t)
    (url : string) (s : state) :
  includes url "/*"
  || is_true (ExtractRequest.allowExternalLinks (Request.body req)) = false ->
  isUrlBlocked env url = true ->
  fst (start_resolve env req url s) = RFulfilled []
  /\ urlTraces (snd (start_resolve env req url s))
     = urlTraces s
         ++ [URLTrace.mk url Status.error (Timing.mk (clock s) None None)
               None (Some false) None (Some "URL is blocked") None].
Proof.
  intros Hp Hb. unfold start_resolve. simpl. rewrite Hp, Hb. simpl.
  split; [reflexivity |].
  induction (urlTraces s) as [| t l IH]; simpl; [reflexivity |].
  f_equal. exact IH.
Qed.

(** A failure of the rephrasing call is not: the task is rejected, and
    no trace changes. *)
Lemma rephrase_failure_escapes (env : Collaborators) (req : Request.t)
    (trace : nat) (b w : string) (e : Exn.t) (s : state) :
  resume_resolve env req (RAwaitRephrase trace b w (Throw e)) s
  = (RRejected e, s).
Proof. reflexivity. Qed.

(** * Release of fetch jobs *)

(** C8 (as stated): the job of a URL whose wait times out is submitted
    and never removed. *)
Lemma released_as_specified_fails :
  ~ released_as_specified
      (calls (snd (extractController
                     (sample_env nothing_blocked no_rephrase no_map no_rank
                        job_timeout)
                     (sample_request ["https://example.com/page"] None)
                     [] []))).
Proof.
  intros H.
  specialize (H (scrape_job (sample_request ["https://example.com/page"] None)
                   "https://example.com/page") 1%nat 10%Z).
  vm_compute in H.
  destruct H as [H | [H | [H | [H | [H | [H | []]]]]]];
    try discriminate.
  right. left. reflexivity.
Qed.

(** One fetch task, run alone: it issues [remove] for its job exactly
    when [getJobPriority], [addScrapeJob] and [waitForJob] have all
    succeeded; when the submission or the wait fails or times out, the
    [catch] runs and the job is not removed. *)
Lemma remove_only_after_wait (env : Collaborators) (req : Request.t)
    (url : string) (s : state) :
  let jobId := uuids s in
  let timeout := scrape_timeout (ExtractRequest.timeout (Request.body req)) in
  exists issued,
    calls (snd (scrape_one env req url s)) = calls s ++ issued
    /\ (In (Call_remove jobId) issued
        <-> exists priority doc,
              getJobPriority env (Request.plan req) (Request.team_id req) 10
              = Ok priority
              /\ addScrapeJob env (scrape_job req url) jobId priority = Ok tt
              /\ waitForJob env jobId timeout = Ok doc).
Proof.
  intros jobId timeout. unfold scrape_one, start_scrape. simpl.
  fold jobId. fold timeout.
  destruct (find_trace url (urlTraces s)) as [i |]; simpl; fold jobId;
    (destruct (getJobPriority env (Request.plan req) (Request.team_id req) 10)
       as [priority | e0] eqn:Ep; simpl;
     [| eexists; split; [reflexivity |];
        split; [ intros [H | []]; discriminate
               | intros (p & d & H & _); discriminate ] ]);
    (destruct (addScrapeJob env (scrape_job req url) jobId priority)
       as [[] | [e1 | n1]] eqn:Ea; simpl;
     [| eexists; split; [rewrite <- !app_assoc; reflexivity |];
        split; [ intros [H | [H | []]]; discriminate
               | intros (p & d & [= <-] & H & _); congruence ] ..]);
    (destruct (waitForJob env jobId timeout) as [doc | [e2 | n2]] eqn:Ew;
     simpl;
     [| eexists; split; [rewrite <- !app_assoc; reflexivity |];
        split; [ intros [H | [H | [H | []]]]; discriminate
               | intros (p & d & _ & _ & H); discriminate ] ..]);
    destruct (queue_remove env jobId) as [[] | [e3 | n3]]; simpl;
    (eexists; split; [rewrite <- !app_assoc; reflexivity |]);
    (split; [ intros _; exists priority, doc; auto
            | intros _; right; right; right; left; reflexivity ]).
Qed.

(** A URL whose fetch times out: no [remove] among the calls. *)
Lemma remove_only_after_wait_example :
  calls (snd (scrape_one
                (sample_env nothing_blocked no_rephrase no_map no_rank
                   job_timeout)
                (sample_request ["https://example.com/page"] None)
                "https://example.com/page" initial_state))
  = [Call_getJobPriority None "team";
     Call_addScrapeJob
       (scrape_job (sample_request ["https://example.com/page"] None)
          "https://example.com/page") 0 10;
     Call_waitForJob 0 28000%float].
Proof. vm_compute. reflexivity. Qed.

(** * The guard of the relevance filter *)

(** C9 (as stated): a request with a prompt whose discovery finds one
    page.  The filter runs although there is a single candidate. *)
Lemma guard_as_specified_fails :
  ~ guard_as_specified
      (sample_env nothing_blocked no_rephrase
         (one_page "https://example.com/docs") (flat_score 0.9) job_done)
      (sample_request ["https://example.com/*"] (Some "pricing"))
      0 "https://example.com" "https://example.com"
      (MapResult.mk [page "https://example.com/docs"] [])
      initial_state.
Proof.
  intros [H _]. specialize (H eq_refl). destruct H as [_ H].
  vm_compute in H. lia.
Qed.

(** C9 (amended): what follows a successful discovery depends on the
    prompt alone.  Without a prompt (missing or empty) the task ends with
    the URLs of all its candidates and calls no scorer.  With a prompt,
    whatever the number of candidates, it calls [performRanking] on all
    of them, and once the scores are there it ends with the URLs of the
    first ten documents the cascade accepts. *)
Theorem filter_runs_iff_prompt (env : Collaborators) (req : Request.t)
    (trace : nat) (baseUrl urlWithoutWww : string) (r : MapResult.t)
    (s : state) :
  let mappedLinks := snd (candidates env baseUrl r) in
  let next := after_map env req trace baseUrl urlWithoutWww r s in
  runs_filter (fst next)
  = truthy_string (ExtractRequest.prompt (Request.body req))
  /\ (runs_filter (fst next) = false ->
      fst next = RFulfilled (List.map MapDocument.url mappedLinks)
      /\ calls (snd next) = calls s)
  /\ (runs_filter (fst next) = true ->
      exists linksWithContext query,
        fst next
        = RAwaitRank trace mappedLinks
            (performRanking env linksWithContext
               (List.map MapDocument.url mappedLinks) query)
        /\ calls (snd next)
           = calls s
               ++ [Call_performRanking linksWithContext
                     (List.map MapDocument.url mappedLinks) query]
        /\ forall linksAndScores s',
             fst (resume_resolve env req
                    (RAwaitRank trace mappedLinks (Ok linksAndScores)) s')
             = RFulfilled
                 (List.map MapDocument.url
                    (firstn MAX_RANKING_LIMIT
                       (fst (cascade (isUrlBlocked env) mappedLinks
                               linksAndScores))))).
Proof.
  intros mappedLinks next. unfold next, mappedLinks, after_map.
  destruct (candidates env baseUrl r) as [uniqueUrls ml]. simpl.
  destruct (truthy_string (ExtractRequest.prompt (Request.body req))); simpl.
  - split; [reflexivity |]. split; [discriminate |]. intros _.
    eexists. eexists. split; [reflexivity |]. split.
    + now rewrite calls_track_discovered.
    + intros ls s'. unfold after_rank.
      destruct (cascade (isUrlBlocked env) ml ls). reflexivity.
  - split; [reflexivity |]. split; [| discriminate]. intros _.
    split; [reflexivity | apply calls_track_discovered].
Qed.

(** With a prompt, a single candidate is scored, and filtered out when
    it is blocked: the request ends with no link. *)
Lemma single_candidate_is_filtered :
  resolved_links
    (sample_env (String.eqb "https://example.com/docs") no_rephrase
       (one_page "https://example.com/docs") (flat_score 0.9) job_done)
    (sample_request ["https://example.com/*"] (Some "pricing")) []
  = Some []
  /\ resolved_links
       (sample_env (String.eqb "https://example.com/docs") no_rephrase
          (one_page "https://example.com/docs") (flat_score 0.9) job_done)
       (sample_request ["https://example.com/*"] None) []
     = Some ["https://example.com/docs"].
Proof. vm_compute. split; reflexivity. Qed.

(** * Duplicates among the resolved links *)

(** C10 (as stated): two pattern URLs whose discoveries find the same
    page.  The page is handed to the fetch stage twice. *)
Lemma no_duplicates_as_specified_fails :
  exists links,
    resolved_links
      (sample_env nothing_blocked no_rephrase
         (one_page "https://example.com/docs") (flat_score 0.9) job_done)
      (sample_request ["https://example.com/*"; "https://example.com/docs/*"]
         None) []
    = Some links
    /\ ~ no_duplicates_as_specified links.
Proof.
  exists ["https://example.com/docs"; "https://example.com/docs"].
  split; [vm_compute; reflexivity |].
  unfold no_duplicates_as_specified. vm_compute.
  intros H. inversion H as [| x l Hx _]. apply Hx. left.
Qed.

Lemma In_new_urls (existing uniqueUrls : list string) (u : string) :
  In u (List.filter (fun url => negb (existsb (String.eqb url) existing))
          uniqueUrls)
  <-> In u uniqueUrls /\ ~ In u existing.
Proof.
  rewrite filter_In, negb_true_iff. split; intros [H1 H2]; split; auto.
  - intros Hin. assert (existsb (String.eqb u) existing = true); [| congruence].
    apply existsb_exists. exists u. split; [exact Hin | apply String.eqb_refl].
  - destruct (existsb (String.eqb u) existing) eqn:E; [| reflexivity].
    apply existsb_exists in E as (v & Hv & E). apply String.eqb_eq in E.
    subst v. contradiction.
Qed.

Lemma NoDup_filter_bool {A} (p : A -> bool) (l : list A) :
  NoDup l -> NoDup (List.filter p l).
Proof.
  induction 1 as [| x l Hx Hl IH]; simpl; [constructor |].
  destruct (p x); [| exact IH]. constructor; [| exact IH].
  rewrite list_elem_of_In, filter_In. rewrite list_elem_of_In in Hx. tauto.
Qed.

(** C10 (amended): the candidates of one input URL carry no URL twice
    (as strings) when the discovery returns none twice and
    [removeDuplicateUrls] returns a list without repetition: the raw links
    are added only where they are not candidates already.  Nothing removes
    duplicates across input URLs. *)
Theorem candidates_no_duplicates (env : Collaborators) (baseUrl : string)
    (r : MapResult.t) :
  NoDup (List.map MapDocument.url (MapResult.mapResults r)) ->
  NoDup (removeDuplicateUrls env
           (List.map MapDocument.url (MapResult.mapResults r)
              ++ MapResult.links r)) ->
  NoDup (List.map MapDocument.url (snd (candidates env baseUrl r))).
Proof.
  intros Hm Hu. unfold candidates. simpl.
  set (existing := List.map MapDocument.url (MapResult.mapResults r)) in *.
  set (uniqueUrls := removeDuplicateUrls env (existing ++ MapResult.links r))
    in *.
  set (newUrls := List.filter _ uniqueUrls).
  set (all := MapResult.mapResults r ++ List.map _ newUrls).
  assert (Hall : NoDup (List.map MapDocument.url all)).
  { unfold all. rewrite map_app, map_map. simpl. rewrite map_id.
    fold existing. apply NoDup_app. split; [exact Hm |]. split.
    - intros u Hin Hnew. rewrite list_elem_of_In in Hin, Hnew.
      apply In_new_urls in Hnew. tauto.
    - now apply NoDup_filter_bool. }
  rewrite <- firstn_map.
  eapply sublist_NoDup; [| apply sublist_take].
  destruct (length all =? 0)%nat; [| exact Hall].
  simpl. apply NoDup_singleton.
Qed.

(** A discovery that returns a page both as a candidate and as a raw
    link, beside a second raw link. *)
Lemma candidates_no_duplicates_witness :
  NoDup
    (List.map MapDocument.url
       (snd (candidates
               (sample_env nothing_blocked no_rephrase no_map no_rank job_done)
               "https://example.com"
               (MapResult.mk [page "https://example.com/docs"]
                  ["https://example.com/docs"; "https://example.com/blog"])))).
Proof.
  apply (candidates_no_duplicates
           (sample_env nothing_blocked no_rephrase no_map no_rank job_done)
           "https://example.com"
           (MapResult.mk [page "https://example.com/docs"]
              ["https://example.com/docs"; "https://example.com/blog"])).
  - vm_compute. apply NoDup_singleton.
  - vm_compute. apply NoDup_cons. split.
    + intros H. apply list_elem_of_In in H. destruct H as [H | []].
      discriminate.
    + apply NoDup_singleton.
Defined.

(** * Every schedule settles every task *)

Section Settling.
Context {T A : Type}.
Variable resume : T -> state -> T * state.
Variable settled_of : T -> option (result A).

(** [awaits t] bounds the number of [await]s the task has yet to pass. *)
Variable awaits : T -> nat.
Variable k : nat.
Hypothesis awaits_settled : forall t, settled_of t = None <-> awaits t <> 0%nat.
Hypothesis awaits_resume :
  forall t s, settled_of t = None -> (awaits (fst (resume t s)) < awaits t)%nat.
Hypothesis awaits_bound : forall t, (awaits t <= k)%nat.

Lemma length_step (p : pool (T := T)) (i : nat) :
  length (tasks (step resume settled_of p i)) = length (tasks p).
Proof.
  unfold step. destruct (tasks p !! i) as [t |]; [| reflexivity].
  destruct (settled_of t); [reflexivity |].
  destruct (resume t (pstate p)). simpl. apply length_insert.
Qed.

Lemma length_steps (schedule : list nat) (p : pool (T := T)) :
  length (tasks (List.fold_left (step resume settled_of) schedule p))
  = length (tasks p).
Proof.
  revert p. induction schedule as [| i l IH]; intros p; simpl;
    [reflexivity |].
  rewrite IH. apply length_step.
Qed.

Lemma awaits_at_step (p : pool) (i j : nat) :
  (awaits_at awaits (step resume settled_of p i) j
   <= if Nat.eqb i j then Nat.pred (awaits_at awaits p j)
      else awaits_at awaits p j)%nat.
Proof.
  unfold step, awaits_at.
  destruct (tasks p !! i) as [t |] eqn:Ei.
  - destruct (settled_of t) eqn:Es.
    + destruct (Nat.eqb_spec i j) as [<- | Hne]; [| lia].
      rewrite Ei. assert (awaits t = 0%nat); [| lia].
      destruct (Nat.eq_dec (awaits t) 0) as [E | E]; [exact E |].
      apply awaits_settled in E. congruence.
    + pose proof (awaits_resume t (pstate p) Es) as Hlt.
      destruct (resume t (pstate p)) as [t' s']. simpl in *.
      destruct (Nat.eqb_spec i j) as [<- | Hne].
      * rewrite Ei, list_lookup_insert_eq; [lia |].
        now apply lookup_lt_Some in Ei.
      * rewrite list_lookup_insert_ne; [lia | exact Hne].
  - destruct (Nat.eqb_spec i j) as [<- | Hne]; [rewrite Ei |]; lia.
Qed.

Lemma awaits_at_steps (schedule : list nat) (p : pool) (j : nat) :
  (awaits_at awaits (List.fold_left (step resume settled_of) schedule p) j
   <= awaits_at awaits p j)%nat.
Proof.
  revert p. induction schedule as [| i l IH]; intros p; simpl; [lia |].
  etransitivity; [apply IH |].
  pose proof (awaits_at_step p i j). destruct (Nat.eqb i j); lia.
Qed.

Lemma awaits_at_repeat (i n : nat) (p : pool) :
  (awaits_at awaits (List.fold_left (step resume settled_of) (repeat i n) p) i
   <= awaits_at awaits p i - n)%nat.
Proof.
  revert p. induction n as [| n IH]; intros p; simpl; [lia |].
  etransitivity; [apply IH |].
  pose proof (awaits_at_step p i i). rewrite Nat.eqb_refl in H. lia.
Qed.

Lemma awaits_at_bound (p : pool) (i : nat) : (awaits_at awaits p i <= k)%nat.
Proof.
  unfold awaits_at. destruct (tasks p !! i); [apply awaits_bound | lia].
Qed.

Lemma awaits_at_drain (a m : nat) (p : pool) (j : nat) :
  (a <= j < a + m)%nat ->
  awaits_at awaits
    (List.fold_left (step resume settled_of)
       (List.flat_map (fun i => repeat i k) (seq a m)) p) j
  = 0%nat.
Proof.
  revert a p. induction m as [| m IH]; intros a p Hj; [lia |].
  simpl. rewrite fold_left_app.
  destruct (Nat.eq_dec a j) as [-> | Hne].
  - pose proof (awaits_at_steps
                  (List.flat_map (fun i => repeat i k) (seq (S j) m))
                  (List.fold_left (step resume settled_of) (repeat j k) p) j).
    pose proof (awaits_at_repeat j k p).
    pose proof (awaits_at_bound p j). lia.
  - apply IH. lia.
Qed.

(** After [run], no task is left suspended. *)
Lemma run_settles (schedule : list nat) (p : pool) :
  Forall (fun t => settled_of t <> None)
    (tasks (run resume settled_of k schedule p)).
Proof.
  apply Forall_lookup. intros j t Hj.
  unfold run in *. rewrite fold_left_app in *.
  set (p1 := List.fold_left (step resume settled_of) schedule p) in *.
  assert (Hlen : length (tasks p1) = length (tasks p))
    by apply length_steps.
  unfold drain in *. rewrite <- Hlen in *.
  pose proof (lookup_lt_Some _ _ _ Hj) as Hlt.
  rewrite length_steps in Hlt.
  pose proof (awaits_at_drain 0 (length (tasks p1)) p1 j) as H0.
  unfold awaits_at in H0. rewrite Hj in H0.
  intros Hs. apply awaits_settled in Hs. apply Hs, H0. lia.
Qed.

Lemma none_rejected_step (p : pool) (i : nat) :
  none_rejected settled_of p ->
  none_rejected settled_of (step resume settled_of p i).
Proof.
  intros H. unfold step. destruct (tasks p !! i) as [t |]; [| exact H].
  destruct (settled_of t); [exact H |].
  destruct (resume t (pstate p)) as [t' s']. unfold none_rejected. simpl.
  unfold note_rejection.
  destruct (rejection p) as [r |] eqn:Er; [discriminate |].
  destruct (settled_of t') as [[v | e] |] eqn:Es; try discriminate;
    intros _; (apply Forall_insert; [now apply H | intros e0; congruence]).
Qed.

Lemma none_rejected_steps (schedule : list nat) (p : pool) :
  none_rejected settled_of p ->
  none_rejected settled_of (List.fold_left (step resume settled_of) schedule p).
Proof.
  revert p. induction schedule as [| i l IH]; intros p H; simpl;
    [exact H |].
  apply IH, none_rejected_step, H.
Qed.

Lemma values_of_settled (ts : list T) :
  Forall (fun t => settled_of t <> None) ts ->
  Forall (fun t => forall e, settled_of t <> Some (Throw e)) ts ->
  values_of settled_of ts <> None.
Proof.
  induction ts as [| t ts IH]; intros H1 H2; simpl; [discriminate |].
  inversion H1 as [| ? ? Ht1 Hts1]. inversion H2 as [| ? ? Ht2 Hts2]. subst.
  destruct (settled_of t) as [[v | e] |];
    [| exfalso; now apply (Ht2 e) | congruence].
  specialize (IH Hts1 Hts2).
  destruct (values_of settled_of ts); congruence.
Qed.

(** [Promise.all] settles. *)
Lemma Promise_all_settles (schedule : list nat) (p : pool) :
  none_rejected settled_of p ->
  Promise_all settled_of (run resume settled_of k schedule p) <> Unsettled.
Proof.
  intros H. unfold Promise_all.
  pose proof (none_rejected_steps
                (schedule ++ drain (length (tasks p)) k) p H) as Hr.
  pose proof (run_settles schedule p) as Hs.
  unfold run in *.
  destruct (rejection _) as [[e snap] |] eqn:Er; [discriminate |].
  specialize (Hr Er).
  pose proof (values_of_settled _ Hs Hr).
  destruct (values_of settled_of _); congruence.
Qed.

(** A property that holds of every started task. *)
Lemma start_all_tasks {X} (start : X -> state -> T * state)
    (Q : T -> Prop) (xs : list X) (s : state) :
  (forall x s, Q (fst (start x s))) ->
  Forall Q (fst (start_all start xs s)).
Proof.
  intros Hstart. unfold start_all.
  assert (Hacc : forall ts s, Forall Q ts ->
            Forall Q (fst (List.fold_left
                             (fun '(ts, s) x =>
                                let '(t, s) := start x s in (ts ++ [t], s))
                             xs (ts, s)))).
  { induction xs as [| x xs IH]; intros ts s0 H; simpl; [exact H |].
    specialize (Hstart x s0). destruct (start x s0) as [t s'].
    apply IH, Forall_app. split; [exact H | now constructor]. }
  apply Hacc. constructor.
Qed.

(** ** One task in flight: the order does not matter *)

Lemma step_settled (p : pool) (i : nat) (t : T) :
  tasks p !! i = Some t -> settled_of t <> None ->
  step resume settled_of p i = p.
Proof.
  intros Hi Hs. unfold step. rewrite Hi.
  destruct (settled_of t); [reflexivity | congruence].
Qed.

Lemma step_outside (p : pool) (i : nat) :
  tasks p !! i = None -> step resume settled_of p i = p.
Proof. intros Hi. unfold step. now rewrite Hi. Qed.

Lemma step_quiet (i0 : nat) (p : pool) (i : nat) :
  quiet_except settled_of i0 p -> i <> i0 -> step resume settled_of p i = p.
Proof.
  intros Hq Hne. destruct (tasks p !! i) as [t |] eqn:E.
  - eapply step_settled; [exact E | now apply (Hq i)].
  - now apply step_outside.
Qed.

Lemma quiet_step (i0 : nat) (p : pool) :
  quiet_except settled_of i0 p ->
  quiet_except settled_of i0 (step resume settled_of p i0).
Proof.
  intros Hq j t Hne Hj. apply (Hq j t Hne). unfold step in Hj.
  destruct (tasks p !! i0) as [t0 |]; [| exact Hj].
  destruct (settled_of t0); [exact Hj |].
  destruct (resume t0 (pstate p)). simpl in Hj.
  now rewrite list_lookup_insert_ne in Hj by congruence.
Qed.

Lemma quiet_repeat (i0 n : nat) (p : pool) :
  quiet_except settled_of i0 p ->
  quiet_except settled_of i0
    (List.fold_left (step resume settled_of) (repeat i0 n) p).
Proof.
  revert p. induction n as [| n IH]; intros p Hq; simpl; [exact Hq |].
  apply IH, quiet_step, Hq.
Qed.

Lemma steps_quiet (i0 : nat) (l : list nat) (p : pool) :
  quiet_except settled_of i0 p ->
  exists n,
    List.fold_left (step resume settled_of) l p
    = List.fold_left (step resume settled_of) (repeat i0 n) p.
Proof.
  revert p. induction l as [| i l IH]; intros p Hq; simpl.
  - now exists 0%nat.
  - destruct (Nat.eq_dec i i0) as [-> | Hne].
    + destruct (IH _ (quiet_step i0 p Hq)) as [n Hn]. now exists (S n).
    + rewrite (step_quiet i0 p i Hq Hne). now apply IH.
Qed.

Lemma repeat_other (i0 i n : nat) (p : pool) :
  quiet_except settled_of i0 p -> i <> i0 ->
  List.fold_left (step resume settled_of) (repeat i n) p = p.
Proof.
  intros Hq Hne. induction n as [| n IH]; simpl; [reflexivity |].
  now rewrite (step_quiet i0 p i Hq Hne).
Qed.

Lemma drain_quiet (i0 a m : nat) (p : pool) :
  quiet_except settled_of i0 p ->
  List.fold_left (step resume settled_of)
    (List.flat_map (fun i => repeat i k) (seq a m)) p
  = if ((a <=? i0) && (i0 <? a + m))%nat
    then List.fold_left (step resume settled_of) (repeat i0 k) p
    else p.
Proof.
  revert a p. induction m as [| m IH]; intros a p Hq; simpl.
  - destruct (Nat.leb_spec a i0), (Nat.ltb_spec i0 (a + 0)); simpl;
      (reflexivity || lia).
  - rewrite fold_left_app. destruct (Nat.eq_dec a i0) as [-> | Hne].
    + rewrite (IH (S i0)) by now apply quiet_repeat.
      destruct (Nat.leb_spec (S i0) i0); [lia |].
      destruct (Nat.leb_spec i0 i0), (Nat.ltb_spec i0 (i0 + S m)); simpl;
        (reflexivity || lia).
    + rewrite (repeat_other i0 a k p Hq Hne), (IH (S a) p Hq).
      destruct (Nat.leb_spec (S a) i0), (Nat.ltb_spec i0 (S a + m)),
        (Nat.leb_spec a i0), (Nat.ltb_spec i0 (a + S m)); simpl;
        (reflexivity || lia).
Qed.

Lemma repeat_saturated (i0 n : nat) (p : pool) :
  List.fold_left (step resume settled_of) (repeat i0 n)
    (List.fold_left (step resume settled_of) (repeat i0 k) p)
  = List.fold_left (step resume settled_of) (repeat i0 k) p.
Proof.
  set (q := List.fold_left (step resume settled_of) (repeat i0 k) p).
  assert (Hq : step resume settled_of q i0 = q).
  { destruct (tasks q !! i0) as [t |] eqn:E; [| now apply step_outside].
    apply (step_settled q i0 t E). intros Hs. apply awaits_settled in Hs.
    apply Hs. pose proof (awaits_at_repeat i0 k p) as H.
    pose proof (awaits_at_bound p i0) as Hb.
    fold q in H. unfold awaits_at in H at 1. rewrite E in H. lia. }
  induction n as [| n IH]; simpl; [reflexivity |]. now rewrite Hq.
Qed.

Lemma run_one_in_flight (i0 : nat) (l : list nat) (p : pool) :
  quiet_except settled_of i0 p -> (i0 < length (tasks p))%nat ->
  run resume settled_of k l p
  = List.fold_left (step resume settled_of) (repeat i0 k) p.
Proof.
  intros Hq Hlt. unfold run, drain. rewrite fold_left_app.
  destruct (steps_quiet i0 l p Hq) as [n ->].
  rewrite (drain_quiet i0) by now apply quiet_repeat.
  destruct (Nat.leb_spec 0 i0); [| lia].
  destruct (Nat.ltb_spec i0 (0 + length (tasks p))); [| lia]. simpl.
  rewrite <- fold_left_app, <- repeat_app, Nat.add_comm, repeat_app,
    fold_left_app.
  apply repeat_saturated.
Qed.

Lemma one_pending_quiet (ts : list T) (s : state)
    (r : option (thrown * list URLTrace.t)) :
  at_most_one_pending settled_of ts = true -> ts <> [] ->
  exists i0, (i0 < length ts)%nat
             /\ quiet_except settled_of i0 (mkPool ts s r).
Proof.
  unfold at_most_one_pending, quiet_except. simpl.
  induction ts as [| t ts IH]; intros Hc Hne; [congruence |].
  simpl in Hc. destruct (settled_of t) as [v |] eqn:Et.
  - destruct ts as [| t' ts'].
    + exists 0%nat. split; [simpl; lia |].
      intros [| j] x Hj Hx; [congruence | discriminate].
    + destruct (IH Hc) as (i0 & Hlt & Hq); [discriminate |].
      exists (S i0). split; [simpl in *; lia |].
      intros [| j] x Hj Hx; simpl in Hx.
      * injection Hx as <-. congruence.
      * apply (Hq j x); [lia | exact Hx].
  - exists 0%nat. split; [simpl; lia |].
    intros [| j] x Hj Hx; [congruence |]. simpl in Hx, Hc.
    apply Nat.leb_le in Hc.
    assert (Hnil : List.filter
                     (fun t => match settled_of t with
                               | None => true
                               | Some _ => false
                               end) ts = []).
    { destruct (List.filter _ ts); [reflexivity | simpl in Hc; lia]. }
    intros Hs. apply list_elem_of_lookup_2, list_elem_of_In in Hx.
    assert (Hin : In x [])
      by (rewrite <- Hnil; apply filter_In; split; [exact Hx | now rewrite Hs]).
    destruct Hin.
Qed.

(** With at most one task still suspended, every order of resumption
    leads to the same pool. *)
Lemma run_order_irrelevant (ts : list T) (s : state)
    (r : option (thrown * list URLTrace.t)) (l : list nat) :
  at_most_one_pending settled_of ts = true ->
  run resume settled_of k l (mkPool ts s r)
  = run resume settled_of k [] (mkPool ts s r).
Proof.
  intros Hc. destruct ts as [| t ts'].
  - unfold run, drain. simpl. rewrite app_nil_r.
    induction l as [| i l IH]; [reflexivity |]. simpl. exact IH.
  - destruct (one_pending_quiet (t :: ts') s r Hc) as (i0 & Hlt & Hq);
      [discriminate |].
    now rewrite !(run_one_in_flight i0) by assumption.
Qed.

End Settling.

Lemma rawaits_settled (t : rtask) : rsettled t = None <-> rawaits t <> 0%nat.
Proof. destruct t; simpl; split; (congruence || lia || discriminate). Qed.

Lemma rawaits_resume (env : Collaborators) (req : Request.t) (t : rtask)
    (s : state) :
  rsettled t = None ->
  (rawaits (fst (resume_resolve env req t s)) < rawaits t)%nat.
Proof.
  destruct t as [tr b w [v | e] | tr b w [r | [e | n]] | tr ml [ls | [e | n]] | urls | e];
    simpl; intros H; try discriminate; try lia.
  - unfold after_map. destruct (candidates env b r).
    destruct (truthy_string _); simpl; lia.
  - unfold after_rank. destruct (cascade _ _ _). simpl. lia.
Qed.

Lemma rawaits_bound (t : rtask) : (rawaits t <= 3)%nat.
Proof. destruct t; simpl; lia. Qed.

Lemma fawaits_settled (t : ftask) : fsettled t = None <-> fawaits t <> 0%nat.
Proof. destruct t; simpl; split; (congruence || lia || discriminate). Qed.

Lemma fawaits_resume (env : Collaborators) (req : Request.t) (t : ftask)
    (s : state) :
  fsettled t = None ->
  (fawaits (fst (resume_scrape env req t s)) < fawaits t)%nat.
Proof.
  destruct t as [tr u to j [v | e] | [i |] to j [v | [e | n]]
                 | [i |] j [d | [e | n]] | [i |] d [v | [e | n]] | d | e];
    simpl; intros H; try discriminate; lia.
Qed.

Lemma fawaits_bound (t : ftask) : (fawaits t <= 4)%nat.
Proof. destruct t; simpl; lia. Qed.

Lemma start_resolve_not_rejected (env : Collaborators) (req : Request.t)
    (url : string) (s : state) (e : thrown) :
  rsettled (fst (start_resolve env req url s)) <> Some (Throw e).
Proof.
  unfold start_resolve. simpl. destruct (includes url "/*" || is_true _).
  - destruct (truthy_string _); [destruct (ExtractRequest.prompt _) |];
      discriminate.
  - destruct (negb _); discriminate.
Qed.

Lemma start_scrape_not_rejected (env : Collaborators) (req : Request.t)
    (url : string) (s : state) (e : thrown) :
  fsettled (fst (start_scrape env req url s)) <> Some (Throw e).
Proof. discriminate. Qed.

(** The controller always ends: with a response or with an exception. *)
Lemma extractController_finishes (env : Collaborators) (req : Request.t)
    (resolve_order scrape_order : list nat) :
  fst (extractController env req resolve_order scrape_order) <> Unfinished.
Proof.
  unfold extractController, resolve_all. simpl.
  destruct (start_all (start_resolve env req) _ _) as [ts s] eqn:E.
  pose proof (Promise_all_settles (resume_resolve env req) rsettled rawaits 3
                rawaits_settled (rawaits_resume env req) rawaits_bound
                resolve_order (mkPool ts s None)) as Hr.
  destruct (Promise_all rsettled _) as [vs | e snap |].
  - destruct (length (links_of vs) =? 0)%nat; [discriminate |].
    unfold scrape_all.
    destruct (start_all (start_scrape env req) _ _) as [fs s2] eqn:E2.
    pose proof (Promise_all_settles (resume_scrape env req) fsettled fawaits 4
                  fawaits_settled (fawaits_resume env req) fawaits_bound
                  scrape_order (mkPool fs s2 None)) as Hf.
    destruct (Promise_all fsettled _) as [ds | [e | n] snap |].
    + unfold complete. simpl.
      destruct (generateOpenAICompletions env _ _); discriminate.
    + discriminate.
    + discriminate.
    + exfalso. apply Hf; [| reflexivity]. intros _. simpl.
      change fs with (fst (fs, s2)). rewrite <- E2.
      apply start_all_tasks. intros x s0 e. discriminate.
  - discriminate.
  - exfalso. apply Hr; [| reflexivity]. intros _. simpl.
    change ts with (fst (ts, s)). rewrite <- E.
    apply start_all_tasks. intros x s0 e. apply start_resolve_not_rejected.
Qed.

(** * Invariants of a pool of tasks *)

Section PoolInvariant.
Context {T A : Type}.
Variable resume : T -> state -> T * state.
Variable settled_of : T -> option (result A).
Variable Inv : list T -> state -> Prop.
Hypothesis Inv_resume :
  forall ts s i t,
    Inv ts s -> ts !! i = Some t -> settled_of t = None ->
    Inv (<[i := fst (resume t s)]> ts) (snd (resume t s)).

Lemma Inv_step (p : pool) (i : nat) :
  Inv (tasks p) (pstate p) ->
  Inv (tasks (step resume settled_of p i))
    (pstate (step resume settled_of p i)).
Proof.
  intros H. unfold step. destruct (tasks p !! i) as [t |] eqn:Ei; [| exact H].
  destruct (settled_of t) eqn:Es; [exact H |].
  specialize (Inv_resume _ _ _ _ H Ei Es).
  destruct (resume t (pstate p)) as [t' s']. exact Inv_resume.
Qed.

Lemma Inv_run (k : nat) (schedule : list nat) (p : pool) :
  Inv (tasks p) (pstate p) ->
  Inv (tasks (run resume settled_of k schedule p))
    (pstate (run resume settled_of k schedule p)).
Proof.
  unfold run. generalize (schedule ++ drain (length (tasks p)) k).
  intros l. revert p. induction l as [| i l IH]; intros p H; simpl;
    [exact H |].
  apply IH, Inv_step, H.
Qed.

End PoolInvariant.

(** * Release of fetch jobs, over the whole request *)

Lemma calls_resume_scrape (env : Collaborators) (req : Request.t)
    (t : ftask) (s : state) :
  calls (snd (resume_scrape env req t s)) = calls s ++ issued_by req t.
Proof.
  destruct t as [tr u to j [v | e] | tr to j [v | [e | n]]
                 | tr j [d | [e | n]] | tr d [v | [e | n]] | d | e];
    simpl; rewrite ?app_nil_r; try reflexivity;
    destruct tr; reflexivity.
Qed.

Lemma resumed_to_wait (env : Collaborators) (req : Request.t) (t : ftask)
    (s : state) (trace : option nat) (jobId : nat)
    (p : result Document.t) :
  fst (resume_scrape env req t s) = FAwaitWait trace jobId p ->
  exists timeout,
    p = waitForJob env jobId timeout
    /\ In (Call_waitForJob jobId timeout) (issued_by req t).
Proof.
  destruct t as [tr u to j [v | e] | tr to j [v | [e | n]]
                 | tr j [d | [e | n]] | tr d [v | [e | n]] | d | e];
    simpl; intros H; try discriminate; try (destruct tr; discriminate).
  injection H as <- <- <-. exists to. split; [reflexivity | now left].
Qed.

Lemma issued_remove (req : Request.t) (t : ftask) (jobId : nat) :
  In (Call_remove jobId) (issued_by req t)
  <-> exists trace doc, t = FAwaitWait trace jobId (Ok doc).
Proof.
  split.
  - destruct t as [tr u to j [v | e] | tr to j [v | [e | n]]
                   | tr j [d | [e | n]] | tr d [v | [e | n]] | d | e];
      simpl; intros H; try contradiction;
      destruct H as [H | []]; try discriminate.
    injection H as <-. eauto.
  - intros (tr & d & ->). now left.
Qed.

Lemma issued_wait (env : Collaborators) (req : Request.t) (t : ftask)
    (s : state) (jobId : nat) (timeout : float) :
  In (Call_waitForJob jobId timeout) (issued_by req t) ->
  exists trace,
    fst (resume_scrape env req t s)
    = FAwaitWait trace jobId (waitForJob env jobId timeout).
Proof.
  destruct t as [tr u to j [v | e] | tr to j [v | [e | n]]
                 | tr j [d | [e | n]] | tr d [v | [e | n]] | d | e];
    simpl; intros H; try contradiction;
    destruct H as [H | []]; try discriminate.
  injection H as <- <-. eauto.
Qed.

Lemma waits_inv_resume (env : Collaborators) (req : Request.t)
    (ts : list ftask) (s : state) (i : nat) (t : ftask) :
  waits_inv env ts s -> ts !! i = Some t -> fsettled t = None ->
  waits_inv env (<[i := fst (resume_scrape env req t s)]> ts)
    (snd (resume_scrape env req t s)).
Proof.
  intros (I1 & I2 & I3) Hi Hpending.
  pose proof (lookup_lt_Some _ _ _ Hi) as Hlt.
  unfold waits_inv. rewrite calls_resume_scrape.
  split; [| split].
  - intros i' tr j p H'. destruct (Nat.eq_dec i' i) as [-> | Hne].
    + rewrite list_lookup_insert_eq in H' by exact Hlt.
      injection H' as H'.
      destruct (resumed_to_wait env req t s tr j p H') as (to & -> & Hin).
      exists to. split; [reflexivity |]. apply in_or_app. now right.
    + rewrite list_lookup_insert_ne in H' by congruence.
      destruct (I1 i' tr j p H') as (to & -> & Hin).
      exists to. split; [reflexivity |]. apply in_or_app. now left.
  - intros j Hin. apply in_app_or in Hin as [Hin | Hin].
    + destruct (I2 j Hin) as (to & d & Hw & Hok).
      exists to, d. split; [apply in_or_app; now left | exact Hok].
    + apply issued_remove in Hin as (tr & d & ->).
      destruct (I1 i tr j (Ok d) Hi) as (to & Hok & Hw).
      exists to, d. split; [apply in_or_app; now left | now symmetry].
  - intros j to d Hin Hok. apply in_app_or in Hin as [Hin | Hin].
    + destruct (I3 j to d Hin Hok) as [Hr | (i' & tr & Hp)].
      * left. apply in_or_app. now left.
      * destruct (Nat.eq_dec i' i) as [-> | Hne].
        -- left. apply in_or_app. right. apply issued_remove.
           rewrite Hi in Hp. injection Hp as ->. eauto.
        -- right. exists i', tr. rewrite list_lookup_insert_ne by congruence.
           exact Hp.
    + destruct (issued_wait env req t s j to Hin) as (tr & Ht).
      right. exists i, tr. rewrite list_lookup_insert_eq by exact Hlt.
      now rewrite Ht, Hok.
Qed.

Lemma no_fetch_no_wait (s : state) : no_fetch_call s -> no_wait_yet s.
Proof.
  unfold no_fetch_call, no_wait_yet. intros H.
  eapply List.Forall_impl; [| exact H].
  intros [] Hc; simpl in *; (exact I || discriminate).
Qed.

Lemma start_scrape_no_wait (env : Collaborators) (req : Request.t)
    (url : string) (s : state) :
  no_wait_yet s -> no_wait_yet (snd (start_scrape env req url s)).
Proof.
  intros H. unfold start_scrape, no_wait_yet. simpl.
  apply Forall_app. split; [| repeat constructor].
  destruct (find_trace url (urlTraces s)); exact H.
Qed.

Lemma no_wait_released (env : Collaborators) (cs extra : list call) :
  Forall
    (fun c =>
       match c with
       | Call_waitForJob _ _ | Call_remove _ => False
       | _ => True
       end) extra ->
  released_iff_waited env cs -> released_iff_waited env (cs ++ extra).
Proof.
  intros Hx H j. rewrite List.Forall_forall in Hx.
  assert (Hr : In (Call_remove j) (cs ++ extra) <-> In (Call_remove j) cs).
  { rewrite in_app_iff. split; [intros [Hin | Hin] | tauto]; [exact Hin |].
    destruct (Hx _ Hin). }
  assert (Hw : forall to, In (Call_waitForJob j to) (cs ++ extra)
                          <-> In (Call_waitForJob j to) cs).
  { intros to. rewrite in_app_iff.
    split; [intros [Hin | Hin] | tauto]; [exact Hin |].
    destruct (Hx _ Hin). }
  rewrite Hr, (H j). split; intros (to & d & Hin & Hok); exists to, d;
    (split; [now apply Hw | exact Hok]).
Qed.

Lemma no_wait_yet_released (env : Collaborators) (s : state) :
  no_wait_yet s -> released_iff_waited env (calls s).
Proof.
  intros H. apply (no_wait_released env [] (calls s) H).
  intros j. split; [intros [] | intros (to & d & [] & _)].
Qed.

(** Once the fetch tasks have settled, the invariant is the property. *)
Lemma settled_waits_released (env : Collaborators) (ts : list ftask)
    (s : state) :
  Forall (fun t => fsettled t <> None) ts ->
  waits_inv env ts s -> released_iff_waited env (calls s).
Proof.
  intros Hs (_ & I2 & I3) j. split; [apply I2 |].
  intros (to & d & Hin & Hok).
  destruct (I3 j to d Hin Hok) as [Hr | (i & tr & Hp)]; [exact Hr |].
  exfalso. rewrite Forall_lookup in Hs. now apply (Hs i _ Hp).
Qed.

(** C8 (amended): whatever the order in which the tasks are resumed, at
    the end of the request [remove] has been issued for exactly the jobs
    for which [waitForJob] has been issued and has succeeded: a job whose
    wait fails or times out, or whose submission fails, is not removed. *)
Theorem release_iff_wait_succeeded (env : Collaborators) (req : Request.t)
    (resolve_order scrape_order : list nat) :
  released_iff_waited env
    (calls (snd (extractController env req resolve_order scrape_order))).
Proof.
  pose proof (resolve_all_no_fetch env req resolve_order) as Hno.
  unfold extractController.
  destruct (resolve_all env req resolve_order) as [id p]. simpl in Hno.
  apply no_fetch_no_wait in Hno.
  destruct (Promise_all rsettled p) as [vs | e snap |]; simpl;
    try now apply no_wait_yet_released.
  destruct (length (links_of vs) =? 0)%nat; simpl;
    [now apply no_wait_yet_released |].
  unfold scrape_all.
  destruct (start_all (start_scrape env req) (links_of vs) (pstate p))
    as [fs s2] eqn:E.
  assert (Hs2 : no_wait_yet s2).
  { change s2 with (snd (fs, s2)). rewrite <- E.
    apply (start_all_preserves no_wait_yet); [| exact Hno].
    intros x s0. apply start_scrape_no_wait. }
  assert (Hfs : Forall (fun t => forall tr j q, t <> FAwaitWait tr j q) fs).
  { change fs with (fst (fs, s2)). rewrite <- E.
    apply start_all_tasks. intros x s0 tr j q. discriminate. }
  assert (Hinv : waits_inv env fs s2).
  { unfold no_wait_yet in Hs2. rewrite List.Forall_forall in Hs2.
    split; [| split].
    - intros i tr j q Hi. rewrite Forall_lookup in Hfs.
      now destruct (Hfs i _ Hi tr j q).
    - intros j Hin. destruct (Hs2 _ Hin).
    - intros j to d Hin. destruct (Hs2 _ Hin). }
  set (p' := run (resume_scrape env req) fsettled 4 scrape_order
               (mkPool fs s2 None)).
  assert (Hend : released_iff_waited env (calls (pstate p'))).
  { apply (settled_waits_released env (tasks p')).
    - apply (run_settles (resume_scrape env req) fsettled fawaits 4
               fawaits_settled (fawaits_resume env req) fawaits_bound).
    - apply (Inv_run (resume_scrape env req) fsettled (waits_inv env));
        [intros; now apply waits_inv_resume | exact Hinv]. }
  destruct (Promise_all fsettled p') as [ds | [e | n] snap |]; simpl;
    try exact Hend.
  unfold complete. simpl.
  destruct (generateOpenAICompletions env _ _) as [c | e]; simpl.
  - rewrite <- !app_assoc. apply no_wait_released; [| exact Hend].
    repeat constructor.
  - apply no_wait_released; [| exact Hend]. repeat constructor.
Qed.

(** * The controller with one task in flight *)

Lemma resolve_all_order (env : Collaborators) (req : Request.t)
    (resolve_order : list nat) :
  at_most_one_pending rsettled
    (fst (start_all (start_resolve env req)
            (ExtractRequest.urls (Request.body req))
            (snd (randomUUID initial_state)))) = true ->
  resolve_all env req resolve_order = resolve_all env req [].
Proof.
  intros H. unfold resolve_all. simpl in *.
  destruct (start_all (start_resolve env req) _ _) as [ts s]. simpl in H.
  f_equal.
  apply (run_order_irrelevant (resume_resolve env req) rsettled rawaits 3
           rawaits_settled (rawaits_resume env req) rawaits_bound).
  exact H.
Qed.

Lemma scrape_all_order (env : Collaborators) (req : Request.t) (id : nat)
    (links : list string) (scrape_order : list nat) (s : state) :
  at_most_one_pending fsettled
    (fst (start_all (start_scrape env req) links s)) = true ->
  scrape_all env req id links scrape_order s
  = scrape_all env req id links [] s.
Proof.
  intros H. unfold scrape_all.
  destruct (start_all (start_scrape env req) links s) as [ts s']. simpl in H.
  now rewrite (run_order_irrelevant (resume_scrape env req) fsettled fawaits 4
                 fawaits_settled (fawaits_resume env req) fawaits_bound
                 ts s' None scrape_order H).
Qed.

(** With one task in flight in each stage, the outcome and the final
    state are the same for every order of resumption. *)
Lemma extractController_order (env : Collaborators) (req : Request.t)
    (resolve_order scrape_order : list nat) :
  one_in_flight env req = true ->
  extractController env req resolve_order scrape_order
  = extractController env req [] [].
Proof.
  unfold one_in_flight. simpl. intros H.
  apply andb_prop in H as [Hr Hf].
  unfold extractController.
  rewrite (resolve_all_order env req resolve_order Hr).
  destruct (resolve_all env req []) as [id p]. simpl in Hf.
  destruct (Promise_all rsettled p) as [vs | e snap |]; try reflexivity.
  destruct (length (links_of vs) =? 0)%nat; [reflexivity |].
  now apply scrape_all_order.
Qed.

(** * Failures during resolution, over the whole request *)

(** C3 (the code at the failing input): a pattern URL and a literal URL
    with a prompt, the rephrasing call failing.  In every order of
    resumption the controller ends with the exception and sends no
    response, and the trace of the pattern URL stays [mapped] with no
    error recorded. *)
Theorem rephrase_failure_aborts_request
    (resolve_order scrape_order : list nat) :
  let r :=
    extractController
      (sample_env nothing_blocked (Throw (failure "completion failed"))
         (one_page "https://example.com/docs") (flat_score 0.9) job_done)
      (sample_request ["https://example.com/*"; "https://example.com/page"]
         (Some "pricing")) resolve_order scrape_order in
  fst r = Rejected (failure "completion failed")
  /\ List.map (fun t => (URLTrace.url t, URLTrace.status t, URLTrace.error t))
       (urlTraces (snd r))
     = [("https://example.com/*", Status.mapped, None);
        ("https://example.com/page", Status.mapped, None)].
Proof.
  rewrite extractController_order by (vm_compute; reflexivity).
  vm_compute. split; reflexivity.
Qed.

(** * The invariant on traces *)

(** C6 (the code at the failing input): one literal URL, not blocked,
    whose fetch times out.  In every order of resumption the response
    has status 200 and its only trace has [usedInCompletion = true] and
    [status = error]. *)
Theorem failed_fetch_stays_used (resolve_order scrape_order : list nat) :
  exists body t,
    fst (extractController
           (sample_env nothing_blocked no_rephrase no_map no_rank job_timeout)
           (sample_request ["https://example.com/page"] None)
           resolve_order scrape_order)
    = Responded (Some 200%Z) body
    /\ Response.urlTrace body = [t]
    /\ URLTrace.usedInCompletion t = Some true
    /\ URLTrace.status t = Status.error
    /\ URLTrace.error t = Some "Job wait".
Proof.
  rewrite extractController_order by (vm_compute; reflexivity).
  eexists. eexists. vm_compute. repeat split; reflexivity.
Qed.

(** * Failures that stay with their URL *)

Section GoodTasks.
Context {T A : Type}.
Variable resume : T -> state -> T * state.
Variable settled_of : T -> option (result A).
Variable good : T -> Prop.
Hypothesis good_resume : forall t s, good t -> good (fst (resume t s)).
Hypothesis good_not_rejected :
  forall t e, good t -> settled_of t <> Some (Throw e).

Lemma good_step (p : pool) (i : nat) :
  Forall good (tasks p) /\ rejection p = None ->
  Forall good (tasks (step resume settled_of p i))
  /\ rejection (step resume settled_of p i) = None.
Proof.
  intros [Hg Hr]. unfold step.
  destruct (tasks p !! i) as [t |] eqn:Ei; [| now split].
  destruct (settled_of t); [now split |].
  assert (Ht : good t) by (rewrite Forall_lookup in Hg; now apply (Hg i)).
  pose proof (good_resume t (pstate p) Ht) as Ht'.
  destruct (resume t (pstate p)) as [t' s']. simpl in *.
  split; [now apply Forall_insert |].
  unfold note_rejection. rewrite Hr.
  destruct (settled_of t') as [[v | e] |] eqn:Es; try reflexivity.
  now destruct (good_not_rejected t' e Ht').
Qed.

Lemma good_run (k : nat) (l : list nat) (p : pool) :
  Forall good (tasks p) -> rejection p = None ->
  rejection (run resume settled_of k l p) = None.
Proof.
  intros Hg Hr. unfold run.
  generalize (l ++ drain (length (tasks p)) k). intros l'.
  assert (H : Forall good (tasks p) /\ rejection p = None) by now split.
  clear Hg Hr. revert p H.
  induction l' as [| i l' IH]; intros p H; simpl; [apply H |].
  apply IH, good_step, H.
Qed.

End GoodTasks.

Lemma not_failing_resume (env : Collaborators) (req : Request.t)
    (t : rtask) (s : state) :
  (forall args n, getMapResults env args <> Throw (Nullish n)) ->
  (forall l urls q n, performRanking env l urls q <> Throw (Nullish n)) ->
  not_failing t -> not_failing (fst (resume_resolve env req t s)).
Proof.
  intros Hmap Hrank.
  destruct t as [tr b w [v | e] | tr b w [r | [e | n]]
                | tr ml [ls | [e | n]] | urls | e];
    simpl; intros H; try exact I; try contradiction.
  - destruct (getMapResults env _) as [r | [e | n]] eqn:E; try exact I.
    now destruct (Hmap _ _ E).
  - unfold after_map. destruct (candidates env b r).
    destruct (truthy_string _); [| exact I]. simpl.
    destruct (performRanking env _ _ _) as [ls | [e | n]] eqn:E; try exact I.
    now destruct (Hrank _ _ _ _ E).
  - unfold after_rank. destruct (cascade _ _ _). exact I.
Qed.

Lemma not_failing_start (env : Collaborators) (req : Request.t)
    (url : string) (s : state) :
  (forall p e, generateBasicCompletion env p <> Throw e) ->
  (forall args n, getMapResults env args <> Throw (Nullish n)) ->
  not_failing (fst (start_resolve env req url s)).
Proof.
  intros Hok Hmap. unfold start_resolve, call_getMapResults. simpl.
  destruct (includes url "/*" || is_true _).
  - destruct (truthy_string _).
    + destruct (ExtractRequest.prompt _) as [p |]; simpl.
      * destruct (generateBasicCompletion env _) as [v | e] eqn:E;
          [exact I |].
        now destruct (Hok _ _ E).
      * destruct (getMapResults env _) as [r | [e | n]] eqn:E; try exact I.
        now destruct (Hmap _ _ E).
    + simpl.
      destruct (getMapResults env _) as [r | [e | n]] eqn:E; try exact I.
      now destruct (Hmap _ _ E).
  - destruct (negb _); exact I.
Qed.

(** As long as the rephrasing call does not fail, and the map search
    and the ranker do not reject with [null] or [undefined] (of which the
    [catch] cannot read the message), no failure of a resolution reaches
    the request: whatever else the map search and the ranker do for each
    URL, and whatever is blocked, every order of resumption ends with a
    list of links, the failing URLs contributing none. *)
Lemma resolution_isolates_failures (env : Collaborators) (req : Request.t)
    (resolve_order : list nat) :
  (forall p e, generateBasicCompletion env p <> Throw e) ->
  (forall args n, getMapResults env args <> Throw (Nullish n)) ->
  (forall l urls q n, performRanking env l urls q <> Throw (Nullish n)) ->
  exists links, resolved_links env req resolve_order = Some links.
Proof.
  intros Hok Hmap Hrank. unfold resolved_links, resolve_all. simpl.
  destruct (start_all (start_resolve env req) _ _) as [ts s] eqn:E. simpl.
  assert (Hts : Forall not_failing ts).
  { change ts with (fst (ts, s)). rewrite <- E. apply start_all_tasks.
    intros x s0. now apply not_failing_start. }
  pose proof (good_run (resume_resolve env req) rsettled not_failing
                (fun t s0 => not_failing_resume env req t s0 Hmap Hrank))
    as Hrun.
  specialize (Hrun ltac:(intros [] e0 H; simpl in *; congruence)
                3%nat resolve_order (mkPool ts s None) Hts eq_refl).
  pose proof (Promise_all_settles (resume_resolve env req) rsettled rawaits 3
                rawaits_settled (rawaits_resume env req) rawaits_bound
                resolve_order (mkPool ts s None)) as Hset.
  unfold Promise_all in *. rewrite Hrun in *.
  destruct (values_of rsettled _) as [vs |]; [eauto |].
  exfalso. apply Hset; [| reflexivity]. intros _. simpl.
  eapply List.Forall_impl; [| exact Hts].
  intros [] H e0; simpl in *; congruence.
Qed.

(** * The guard of the relevance filter, over the whole request *)

Lemma no_prompt_call_issue (c : call) (s : state) :
  match c with
  | Call_generateBasicCompletion _ | Call_performRanking _ _ _ => False
  | _ => True
  end ->
  no_prompt_call s -> no_prompt_call (issue c s).
Proof.
  intros Hc H. unfold no_prompt_call, issue. simpl.
  apply Forall_app. split; [exact H | now constructor].
Qed.

Lemma no_prompt_call_same (s s' : state) :
  calls s' = calls s -> no_prompt_call s -> no_prompt_call s'.
Proof. unfold no_prompt_call. now intros ->. Qed.

Lemma start_resolve_no_prompt (env : Collaborators) (req : Request.t)
    (url : string) (s : state) :
  truthy_string (ExtractRequest.prompt (Request.body req)) = false ->
  no_prompt_call s -> no_prompt_call (snd (start_resolve env req url s)).
Proof.
  intros Hp H. unfold start_resolve. simpl. rewrite Hp.
  destruct (includes url "/*" || is_true _).
  - now apply no_prompt_call_issue.
  - destruct (negb _); exact H.
Qed.

Lemma resume_resolve_no_prompt (env : Collaborators) (req : Request.t)
    (t : rtask) (s : state) :
  truthy_string (ExtractRequest.prompt (Request.body req)) = false ->
  no_prompt_call s -> no_prompt_call (snd (resume_resolve env req t s)).
Proof.
  intros Hp H.
  destruct t as [tr b w [v | e] | tr b w [r | [e | n]] | tr ml [ls | [e | n]] | urls | e];
    simpl; try exact H.
  - now apply no_prompt_call_issue.
  - unfold after_map. destruct (candidates env b r) as [uniq ml].
    rewrite Hp. simpl.
    eapply no_prompt_call_same; [apply calls_track_discovered | exact H].
  - unfold after_rank. destruct (cascade _ _ _). exact H.
Qed.

Lemma start_scrape_no_prompt (env : Collaborators) (req : Request.t)
    (url : string) (s : state) :
  no_prompt_call s -> no_prompt_call (snd (start_scrape env req url s)).
Proof.
  intros H. unfold start_scrape, no_prompt_call. simpl.
  apply Forall_app. split; [| repeat constructor].
  destruct (find_trace url (urlTraces s)); exact H.
Qed.

Lemma resume_scrape_no_prompt (env : Collaborators) (req : Request.t)
    (t : ftask) (s : state) :
  no_prompt_call s -> no_prompt_call (snd (resume_scrape env req t s)).
Proof.
  intros H. unfold no_prompt_call in *. rewrite calls_resume_scrape.
  apply Forall_app. split; [exact H |].
  destruct t as [tr u to j [v | e] | tr to j [v | [e | n]]
                 | tr j [d | [e | n]] | tr d [v | [e | n]] | d | e];
    simpl; repeat constructor.
Qed.

(** Without a prompt nothing is rephrased, scored or filtered, in any
    order of resumption: neither [generateBasicCompletion] nor
    [performRanking] is called during the request. *)
Lemma no_prompt_no_filter (env : Collaborators) (req : Request.t)
    (resolve_order scrape_order : list nat) :
  truthy_string (ExtractRequest.prompt (Request.body req)) = false ->
  no_prompt_call (snd (extractController env req resolve_order scrape_order)).
Proof.
  intros Hp. unfold extractController, resolve_all. simpl.
  destruct (start_all (start_resolve env req) _ _) as [ts s] eqn:E.
  assert (Hs : no_prompt_call s).
  { change s with (snd (ts, s)). rewrite <- E.
    apply (start_all_preserves no_prompt_call); [| constructor].
    intros x s0. now apply start_resolve_no_prompt. }
  set (p := run (resume_resolve env req) rsettled 3 resolve_order
              (mkPool ts s None)).
  assert (Hpst : no_prompt_call (pstate p)).
  { apply run_preserves; [| exact Hs].
    intros t s0. now apply resume_resolve_no_prompt. }
  destruct (Promise_all rsettled p) as [vs | e snap |]; try exact Hpst.
  destruct (length (links_of vs) =? 0)%nat; [exact Hpst |].
  unfold scrape_all.
  destruct (start_all (start_scrape env req) _ _) as [fs s2] eqn:E2.
  assert (Hs2 : no_prompt_call s2).
  { change s2 with (snd (fs, s2)). rewrite <- E2.
    apply (start_all_preserves no_prompt_call); [| exact Hpst].
    intros x s0. apply start_scrape_no_prompt. }
  set (p' := run (resume_scrape env req) fsettled 4 scrape_order
               (mkPool fs s2 None)).
  assert (Hend : no_prompt_call (pstate p')).
  { apply run_preserves; [| exact Hs2].
    intros t s0. apply resume_scrape_no_prompt. }
  destruct (Promise_all fsettled p') as [ds | [e | n] snap |]; try exact Hend.
  unfold complete. simpl.
  destruct (generateOpenAICompletions env _ _) as [c | e]; simpl.
  - unfold no_prompt_call in *. simpl. rewrite <- !app_assoc.
    apply Forall_app. split; [exact Hend | repeat constructor].
  - unfold no_prompt_call in *. simpl.
    apply Forall_app. split; [exact Hend | repeat constructor].
Qed.

(** * Further properties of the candidate list and of the filter *)

Lemma In_take {A} (x : A) (n : nat) (l : list A) :
  In x (firstn n l) -> In x l.
Proof.
  revert l. induction n as [| n IH]; intros [| y l]; simpl; try tauto.
  intros [H | H]; [now left | right; now apply IH].
Qed.

(** X1: the candidate list of a pattern URL is never empty and never
    longer than 100; the candidates of the map search come first, in
    their order, before any raw link; and every candidate is one of the
    map search, or a raw link kept by [removeDuplicateUrls] that is no
    candidate already, or the base URL, the last two with empty title
    and description. *)
Theorem candidates_bounds (env : Collaborators) (baseUrl : string)
    (r : MapResult.t) :
  let c := snd (candidates env baseUrl r) in
  (1 <= length c <= MAX_EXTRACT_LIMIT)%nat
  /\ firstn MAX_EXTRACT_LIMIT (MapResult.mapResults r) `prefix_of` c
  /\ List.Forall
       (fun d =>
          In d (MapResult.mapResults r)
          \/ (MapDocument.title d = EmptyString
              /\ MapDocument.description d = EmptyString
              /\ (MapDocument.url d = baseUrl
                  \/ (In (MapDocument.url d)
                        (removeDuplicateUrls env
                           (List.map MapDocument.url (MapResult.mapResults r)
                              ++ MapResult.links r))
                      /\ ~ In (MapDocument.url d)
                             (List.map MapDocument.url
                                (MapResult.mapResults r))))))
       c.
Proof.
  unfold candidates. simpl.
  set (ml := MapResult.mapResults r).
  set (uniq := removeDuplicateUrls env _).
  set (new := List.filter _ uniq).
  set (all := ml ++ List.map _ new).
  assert (Hall : List.Forall
            (fun d =>
               In d ml
               \/ (MapDocument.title d = EmptyString
                   /\ MapDocument.description d = EmptyString
                   /\ (MapDocument.url d = baseUrl
                       \/ (In (MapDocument.url d) uniq
                           /\ ~ In (MapDocument.url d)
                                  (List.map MapDocument.url ml))))) all).
  { apply List.Forall_forall. intros d Hd. unfold all in Hd.
    apply in_app_or in Hd as [Hd | Hd]; [now left |]. right.
    apply in_map_iff in Hd as (u & <- & Hu). simpl.
    apply In_new_urls in Hu. tauto. }
  destruct (length all =? 0)%nat eqn:E.
  - apply Nat.eqb_eq in E. unfold all in E. rewrite length_app in E.
    assert (Hml : ml = []) by (destruct ml; [reflexivity | simpl in E; lia]).
    rewrite Hml. simpl. split; [unfold MAX_EXTRACT_LIMIT; lia |].
    split; [apply prefix_nil |].
    constructor; [| constructor]. right. simpl. tauto.
  - apply Nat.eqb_neq in E. split; [| split].
    + rewrite length_take. unfold MAX_EXTRACT_LIMIT. lia.
    + unfold all. rewrite take_app. apply prefix_app_r. reflexivity.
    + apply List.Forall_forall. intros d Hd.
      rewrite List.Forall_forall in Hall. apply Hall.
      now apply In_take in Hd.
Qed.

Lemma find_link_Some (ml : list MapDocument.t) (u : string)
    (d : MapDocument.t) :
  find_link ml u = Some d -> In d ml /\ MapDocument.url d = u.
Proof.
  unfold find_link. intros H. apply find_some in H as [Hin He].
  split; [exact Hin | now apply String.eqb_eq].
Qed.

Lemma In_cascade (blocked : string -> bool) (ml : list MapDocument.t)
    (ls : list LinkScore.t) (d : MapDocument.t) :
  In d (fst (cascade blocked ml ls)) ->
  In d ml
  /\ blocked (MapDocument.url d) = false
  /\ exists x, In x ls /\ LinkScore.link x = MapDocument.url d.
Proof.
  intros Hd. rewrite cascade_steps in Hd.
  assert (Hx : exists x, In x ls
                         /\ find_link ml (LinkScore.link x) = Some d
                         /\ blocked (MapDocument.url d) = false).
  { destruct (filterAndProcessLinks blocked ml ls INITIAL_SCORE_THRESHOLD)
      as [| d1 l1] eqn:E1.
    - destruct (filterAndProcessLinks blocked ml ls FALLBACK_SCORE_THRESHOLD)
        as [| d2 l2] eqn:E2.
      + apply In_kept in Hd as (x & Hx & H). exists x. split; [| exact H].
        apply (Permutation_in x (sort_by_score_perm ls)).
        now apply In_take in Hx.
      + rewrite <- E2 in Hd. apply In_filterAndProcessLinks in Hd.
        destruct Hd as (x & Hx & _ & H). eauto.
    - rewrite <- E1 in Hd. apply In_filterAndProcessLinks in Hd.
      destruct Hd as (x & Hx & _ & H). eauto. }
  destruct Hx as (x & Hx & Hf & Hb).
  apply find_link_Some in Hf as [Hin Hu]. eauto.
Qed.

Lemma cascade_scores_perm (blocked : string -> bool)
    (ml : list MapDocument.t) (ls : list LinkScore.t) :
  Permutation ls (snd (cascade blocked ml ls)).
Proof.
  unfold cascade.
  destruct (length (filterAndProcessLinks blocked ml ls _) <? _)%nat;
    [| reflexivity].
  destruct (length (filterAndProcessLinks blocked ml ls _) =? _)%nat;
    [| reflexivity].
  simpl. symmetry. apply sort_by_score_perm.
Qed.

Lemma map_url_fold_update_found {A} (g : A -> string)
    (f : A -> URLTrace.t -> URLTrace.t) (xs : list A)
    (l : list URLTrace.t) :
  (forall a t, URLTrace.url (f a t) = URLTrace.url t) ->
  List.map URLTrace.url
    (List.fold_left (fun traces a => update_found (g a) (f a) traces) xs l)
  = List.map URLTrace.url l.
Proof.
  intros Hf. revert l. induction xs as [| a xs IH]; intros l; simpl;
    [reflexivity |].
  rewrite IH. now apply map_url_update_found.
Qed.

Lemma map_url_score_traces (fl : list MapDocument.t)
    (ls : list LinkScore.t) (l : list URLTrace.t) :
  List.map URLTrace.url (score_traces fl ls l) = List.map URLTrace.url l.
Proof.
  unfold score_traces.
  apply (map_url_fold_update_found LinkScore.link
           (fun score t =>
              let t := URLTrace.set_relevanceScore (LinkScore.score score) t in
              if negb (existsb (fun l0 => String.eqb (MapDocument.url l0)
                                            (LinkScore.link score)) fl)
              then URLTrace.set_usedInCompletion false
                     (URLTrace.set_warning
                        (BelowThreshold (LinkScore.score score)) t)
              else t)).
  intros a t. simpl. destruct (negb _); reflexivity.
Qed.

Lemma map_url_mark_used (links : list MapDocument.t) (l : list URLTrace.t) :
  List.map URLTrace.url (mark_used links l) = List.map URLTrace.url l.
Proof.
  unfold mark_used.
  now apply (map_url_fold_update_found MapDocument.url
               (fun _ => URLTrace.set_usedInCompletion true)).
Qed.

Lemma map_url_mark_dropped (links : list MapDocument.t)
    (l : list URLTrace.t) :
  List.map URLTrace.url (mark_dropped links l) = List.map URLTrace.url l.
Proof.
  unfold mark_dropped.
  now apply (map_url_fold_update_found MapDocument.url
               (fun _ t => URLTrace.set_usedInCompletion false
                             (URLTrace.set_warning RankingLimit t))).
Qed.

Lemma map_url_after_rank (env : Collaborators) (ml : list MapDocument.t)
    (ls : list LinkScore.t) (s : state) :
  List.map URLTrace.url (urlTraces (snd (after_rank env ml ls s)))
  = List.map URLTrace.url (urlTraces s).
Proof.
  unfold after_rank. destruct (cascade (isUrlBlocked env) ml ls) as [fl ls'].
  simpl.
  now rewrite map_url_mark_dropped, map_url_mark_used, map_url_score_traces.
Qed.

(** X3: once the scores are there, a resolution ends with at most ten
    URLs, each the URL of a candidate and none blocked; it issues no call
    and only annotates the ledger: no trace is added, removed or given
    another URL. *)
Theorem after_rank_result (env : Collaborators)
    (ml : list MapDocument.t) (ls : list LinkScore.t) (s : state) :
  exists urls,
    fst (after_rank env ml ls s) = RFulfilled urls
    /\ (length urls <= MAX_RANKING_LIMIT)%nat
    /\ List.Forall
         (fun u => isUrlBlocked env u = false
                   /\ In u (List.map MapDocument.url ml)) urls
    /\ calls (snd (after_rank env ml ls s)) = calls s
    /\ List.map URLTrace.url (urlTraces (snd (after_rank env ml ls s)))
       = List.map URLTrace.url (urlTraces s).
Proof.
  pose proof (In_cascade (isUrlBlocked env) ml ls) as Hs.
  pose proof (map_url_after_rank env ml ls s) as Hm.
  unfold after_rank in *.
  destruct (cascade (isUrlBlocked env) ml ls) as [fl ls'].
  simpl in *. eexists. split; [reflexivity |]. split; [| split; [| split]].
  - rewrite length_map, length_take. unfold MAX_RANKING_LIMIT. lia.
  - apply List.Forall_forall. intros u Hu.
    apply in_map_iff in Hu as (d & <- & Hd).
    destruct (Hs d) as (Hin & Hb & _).
    + now apply In_take in Hd.
    + split; [exact Hb | now apply in_map].
  - reflexivity.
  - exact Hm.
Qed.

Lemma filterAndProcessLinks_cons (blocked : string -> bool)
    (ml : list MapDocument.t) (x : LinkScore.t) (ls : list LinkScore.t)
    (threshold : Q) :
  filterAndProcessLinks blocked ml (x :: ls) threshold
  = (if score_gt (LinkScore.score x) threshold
        && allowed blocked (find_link ml (LinkScore.link x))
     then defined [find_link ml (LinkScore.link x)]
     else [])
    ++ filterAndProcessLinks blocked ml ls threshold.
Proof.
  unfold filterAndProcessLinks. simpl.
  destruct (score_gt (LinkScore.score x) threshold); simpl; [| reflexivity].
  destruct (allowed blocked (find_link ml (LinkScore.link x))) eqn:E;
    [| reflexivity].
  simpl. destruct (find_link ml (LinkScore.link x)); reflexivity.
Qed.

(** X4: lowering the threshold only adds documents: what is accepted at
    a threshold is accepted, in the same order, at every lower one. *)
Theorem filterAndProcessLinks_threshold (blocked : string -> bool)
    (ml : list MapDocument.t) (ls : list LinkScore.t) (high low : Q) :
  (low <= high)%Q ->
  filterAndProcessLinks blocked ml ls high
    `sublist_of` filterAndProcessLinks blocked ml ls low.
Proof.
  intros Hle. induction ls as [| x ls IH].
  - reflexivity.
  - rewrite !filterAndProcessLinks_cons.
    destruct (score_gt (LinkScore.score x) high) eqn:Eh; simpl.
    + assert (El : score_gt (LinkScore.score x) low = true).
      { apply score_gt_iff. apply score_gt_iff in Eh.
        eapply Qle_lt_trans; eassumption. }
      rewrite El. simpl. now apply sublist_app.
    + now apply sublist_inserts_l.
Qed.

Lemma filterAndProcessLinks_threshold_witness :
  filterAndProcessLinks nothing_blocked [page "a"; page "b"; page "c"]
    [scored "a" 0.8; scored "b" 0.6; scored "c" 0.3] 0.75
    `sublist_of`
    filterAndProcessLinks nothing_blocked [page "a"; page "b"; page "c"]
      [scored "a" 0.8; scored "b" 0.6; scored "c" 0.3] 0.5.
Proof.
  apply (filterAndProcessLinks_threshold nothing_blocked
           [page "a"; page "b"; page "c"]
           [scored "a" 0.8; scored "b" 0.6; scored "c" 0.3] 0.75 0.5).
  vm_compute. discriminate.
Defined.

(** X5: the effective timeout of a fetch is never zero and never NaN,
    whatever the request timeout: where the scaled value is, 30000 takes
    its place. *)
Theorem scrape_timeout_truthy (requestTimeout : option float) :
  truthy (scrape_timeout requestTimeout) = true.
Proof.
  unfold scrape_timeout, num_or.
  destruct (truthy (Math_floor _)) eqn:E; [exact E | reflexivity].
Qed.

(** * The traces of the discovered URLs *)

Lemma existsb_url (u : string) (l : list URLTrace.t) :
  existsb (fun t => String.eqb (URLTrace.url t) u) l = true
  <-> In u (List.map URLTrace.url l).
Proof.
  rewrite existsb_exists, in_map_iff. split.
  - intros (t & Ht & E). apply String.eqb_eq in E. eauto.
  - intros (t & E & Ht). exists t. split; [exact Ht | now apply String.eqb_eq].
Qed.

Lemma track_discovered_cons (u : string) (us : list string) (s : state) :
  track_discovered (u :: us) s
  = track_discovered us
      (if existsb (fun t => String.eqb (URLTrace.url t) u) (urlTraces s)
       then s
       else push (URLTrace.mk u Status.mapped (Timing.mk (clock s) None None)
                    None (Some false) None None None) (snd (now s))).
Proof. reflexivity. Qed.

Lemma track_discovered_added (uniqueUrls : list string) (s : state) :
  exists added,
    urlTraces (track_discovered uniqueUrls s) = urlTraces s ++ added
    /\ calls (track_discovered uniqueUrls s) = calls s
    /\ NoDup (List.map URLTrace.url added)
    /\ (forall u, In u (List.map URLTrace.url added)
                  <-> In u uniqueUrls
                      /\ ~ In u (List.map URLTrace.url (urlTraces s)))
    /\ List.Forall discovered_trace added.
Proof.
  revert s. induction uniqueUrls as [| u0 us IH]; intros s.
  - exists []. simpl. rewrite app_nil_r.
    split; [reflexivity |]. split; [reflexivity |].
    split; [constructor |]. split; [tauto | constructor].
  - rewrite track_discovered_cons.
    destruct (existsb _ (urlTraces s)) eqn:E.
    + apply existsb_url in E.
      destruct (IH s) as (added & H1 & H2 & H3 & H4 & H5).
      exists added. split; [exact H1 |]. split; [exact H2 |].
      split; [exact H3 |]. split; [| exact H5].
      intros u. rewrite H4. simpl. split; [tauto |].
      intros [[<- | Hu] Hn]; tauto.
    + assert (En : ~ In u0 (List.map URLTrace.url (urlTraces s))).
      { rewrite <- existsb_url. congruence. }
      set (t0 := URLTrace.mk u0 _ _ _ _ _ _ _).
      set (s1 := push t0 (snd (now s))).
      destruct (IH s1) as (added & H1 & H2 & H3 & H4 & H5).
      assert (Hs1 : List.map URLTrace.url (urlTraces s1)
                    = List.map URLTrace.url (urlTraces s) ++ [u0]).
      { unfold s1. simpl. now rewrite map_app. }
      rewrite Hs1 in H4.
      exists (t0 :: added). split; [| split; [| split; [| split]]].
      * rewrite H1. unfold s1. simpl. now rewrite <- app_assoc.
      * rewrite H2. reflexivity.
      * simpl. apply NoDup_cons. split; [| exact H3].
        rewrite list_elem_of_In. intros Hin. apply H4 in Hin as [_ Hn].
        apply Hn, in_or_app. right. now left.
      * intros u. simpl. rewrite H4, in_app_iff. simpl.
        destruct (string_dec u0 u) as [<- |]; tauto.
      * constructor; [| exact H5]. repeat split.
Qed.

(** X6: tracking the discovered URLs leaves every trace of the ledger as
    it is and issues no call; it appends one trace for each discovered
    URL the ledger does not hold yet, once however often the URL was
    discovered, and each appended trace is [mapped] and not used.
    Afterwards every discovered URL has a trace. *)
Theorem track_discovered_appends (uniqueUrls : list string) (s : state) :
  exists added,
    urlTraces (track_discovered uniqueUrls s) = urlTraces s ++ added
    /\ calls (track_discovered uniqueUrls s) = calls s
    /\ NoDup (List.map URLTrace.url added)
    /\ (forall u, In u (List.map URLTrace.url added)
                  <-> In u uniqueUrls
                      /\ ~ In u (List.map URLTrace.url (urlTraces s)))
    /\ List.Forall discovered_trace added
    /\ (forall u, In u uniqueUrls ->
          In u (List.map URLTrace.url
                  (urlTraces (track_discovered uniqueUrls s)))).
Proof.
  destruct (track_discovered_added uniqueUrls s)
    as (added & H1 & H2 & H3 & H4 & H5).
  exists added. split; [exact H1 |]. split; [exact H2 |].
  split; [exact H3 |]. split; [exact H4 |]. split; [exact H5 |].
  intros u Hu. rewrite H1, map_app, in_app_iff, H4.
  destruct (in_dec string_dec u (List.map URLTrace.url (urlTraces s))); tauto.
Qed.

(** * Invariants of the trace ledger, over the whole request *)

Section Snapshot.
Context {T A : Type}.
Variable resume : T -> state -> T * state.
Variable settled_of : T -> option (result A).
Variable Q : list URLTrace.t -> Prop.
Hypothesis resume_ledger :
  forall t s, Q (urlTraces s) -> Q (urlTraces (snd (resume t s))).

(** What holds of the ledger throughout holds of the ledger as it was at
    the first rejection. *)
Lemma step_snapshot (p : pool) (i : nat) :
  Q (urlTraces (pstate p))
  /\ (forall e snap, rejection p = Some (e, snap) -> Q snap) ->
  Q (urlTraces (pstate (step resume settled_of p i)))
  /\ (forall e snap,
        rejection (step resume settled_of p i) = Some (e, snap) -> Q snap).
Proof.
  intros [Hs Hr]. unfold step.
  destruct (tasks p !! i) as [t |]; [| now split].
  destruct (settled_of t); [now split |].
  pose proof (resume_ledger t (pstate p) Hs) as Hs'.
  destruct (resume t (pstate p)) as [t' s']. simpl in *.
  split; [exact Hs' |]. intros e snap. unfold note_rejection.
  destruct (rejection p) as [[e0 snap0] |].
  - intros E. injection E as <- <-. now apply (Hr e0).
  - destruct (settled_of t') as [[v | e1] |]; try discriminate.
    intros E. injection E as <- <-. exact Hs'.
Qed.

Lemma run_snapshot (k : nat) (schedule : list nat) (ts : list T)
    (s : state) :
  Q (urlTraces s) ->
  Q (urlTraces (pstate (run resume settled_of k schedule (mkPool ts s None))))
  /\ (forall e snap,
        rejection (run resume settled_of k schedule (mkPool ts s None))
        = Some (e, snap) -> Q snap).
Proof.
  intros Hs. unfold run. simpl.
  generalize (schedule ++ drain (length ts) k). intros l.
  assert (H : Q (urlTraces (pstate (mkPool ts s None)))
              /\ (forall e snap,
                    rejection (mkPool ts s None) = Some (e, snap) -> Q snap))
    by (split; [exact Hs | discriminate]).
  revert H. generalize (mkPool ts s None). intros p. revert p.
  induction l as [| i l IH]; intros p H; simpl; [exact H |].
  apply IH, step_snapshot, H.
Qed.

End Snapshot.

Section ControllerLedger.
Variable env : Collaborators.
Variable req : Request.t.
Variable Q : list URLTrace.t -> Prop.
Hypothesis Q_started :
  Q (urlTraces
       (snd (start_all (start_resolve env req)
               (ExtractRequest.urls (Request.body req))
               (snd (randomUUID initial_state))))).
Hypothesis Q_resume_resolve :
  forall t s, Q (urlTraces s) -> Q (urlTraces (snd (resume_resolve env req t s))).
Hypothesis Q_start_scrape :
  forall u s, Q (urlTraces s) -> Q (urlTraces (snd (start_scrape env req u s))).
Hypothesis Q_resume_scrape :
  forall t s, Q (urlTraces s) -> Q (urlTraces (snd (resume_scrape env req t s))).
Hypothesis Q_attribute :
  forall n docs l, Q l -> Q (attribute_tokens n docs l).

(** A property of the ledger that holds once the resolutions have
    started, and that every continuation and the token attribution
    preserve, holds of the ledger the controller leaves and of the ledger
    it sends. *)
Lemma controller_ledger (resolve_order scrape_order : list nat) :
  Q (urlTraces (snd (extractController env req resolve_order scrape_order)))
  /\ forall l,
       sent_ledger (fst (extractController env req resolve_order scrape_order))
       = Some l -> Q l.
Proof.
  unfold extractController, resolve_all. simpl in *.
  destruct (start_all (start_resolve env req) _ _) as [ts s] eqn:E.
  simpl in Q_started.
  destruct (run_snapshot (resume_resolve env req) rsettled Q Q_resume_resolve
              3 resolve_order ts s Q_started) as [Hp _].
  set (p := run (resume_resolve env req) rsettled 3 resolve_order _) in *.
  destruct (Promise_all rsettled p) as [vs | e snap |];
    [| split; [exact Hp | discriminate] ..].
  destruct (length (links_of vs) =? 0)%nat.
  { split; [exact Hp |]. simpl. intros l [= <-]. exact Hp. }
  unfold scrape_all.
  destruct (start_all (start_scrape env req) _ _) as [fs s2] eqn:E2.
  assert (Hs2 : Q (urlTraces s2)).
  { change s2 with (snd (fs, s2)). rewrite <- E2.
    apply (start_all_preserves (fun s => Q (urlTraces s)));
      [| exact Hp].
    intros x s0. apply Q_start_scrape. }
  destruct (run_snapshot (resume_scrape env req) fsettled Q Q_resume_scrape
              4 scrape_order fs s2 Hs2) as [Hp' Hsnap].
  set (p' := run (resume_scrape env req) fsettled 4 scrape_order _) in *.
  unfold Promise_all.
  destruct (rejection p') as [[[e | n] snap] |] eqn:Er.
  { split; [exact Hp' |]. simpl. intros l [= <-]. now apply (Hsnap e). }
  { split; [exact Hp' | discriminate]. }
  destruct (values_of fsettled (tasks p')) as [ds |];
    [| split; [exact Hp' | discriminate]].
  unfold complete. simpl.
  destruct (generateOpenAICompletions env _ _) as [c | e]; simpl.
  - split; [now apply Q_attribute |].
    intros l [= <-]. now apply Q_attribute.
  - split; [exact Hp' | discriminate].
Qed.

End ControllerLedger.

Lemma find_trace_Some (u : string) (l : list URLTrace.t) (i : nat) :
  find_trace u l = Some i ->
  exists x, l !! i = Some x /\ URLTrace.url x = u.
Proof.
  unfold find_trace. revert i.
  induction l as [| t l IH]; intros i; simpl; [discriminate |].
  destruct (String.eqb (URLTrace.url t) u) eqn:E.
  - intros [= <-]. exists t. split; [reflexivity | now apply String.eqb_eq].
  - destruct (find_index _ l) as [j |]; simpl; [| discriminate].
    intros [= <-]. now apply IH.
Qed.

Lemma Forall_update_found (P : URLTrace.t -> Prop) (u : string)
    (f : URLTrace.t -> URLTrace.t) (l : list URLTrace.t) :
  (forall x, URLTrace.url x = u -> P x -> P (f x)) ->
  List.Forall P l -> List.Forall P (update_found u f l).
Proof.
  intros Hf Hl. unfold update_found.
  destruct (find_trace u l) as [i |] eqn:E; [| exact Hl].
  apply Forall_alter; [exact Hl |]. intros x Hx.
  apply find_trace_Some in E as (y & Hy & Hu).
  rewrite Hx in Hy. injection Hy as <-. now apply Hf.
Qed.

Lemma Forall_fold_update_found {A} (P : URLTrace.t -> Prop)
    (g : A -> string) (f : A -> URLTrace.t -> URLTrace.t) (xs : list A)
    (l : list URLTrace.t) :
  (forall a x, In a xs -> URLTrace.url x = g a -> P x -> P (f a x)) ->
  List.Forall P l ->
  List.Forall P
    (List.fold_left (fun traces a => update_found (g a) (f a) traces) xs l).
Proof.
  revert l. induction xs as [| a xs IH]; intros l Hf Hl; simpl;
    [exact Hl |].
  apply IH.
  - intros b x Hb. apply Hf. now right.
  - apply Forall_update_found; [| exact Hl].
    intros x. apply Hf. now left.
Qed.

Lemma start_all_state {T X} (start : X -> state -> T * state)
    (xs : list X) (s : state) :
  snd (start_all start xs s)
  = List.fold_left (fun s x => snd (start x s)) xs s.
Proof.
  unfold start_all.
  assert (Hacc : forall ts s,
            snd (List.fold_left
                   (fun '(ts, s) x =>
                      let '(t, s) := start x s in (ts ++ [t], s))
                   xs (ts, s))
            = List.fold_left (fun s x => snd (start x s)) xs s).
  { induction xs as [| x xs IH]; intros ts s0; simpl; [reflexivity |].
    destruct (start x s0) as [t s']. simpl. apply IH. }
  apply Hacc.
Qed.

(** What a [catch] does to the ledger: it changes one trace at most, and
    of it neither the URL, the timing nor the content statistics; it
    marks the trace as used in no case. *)
Lemma catch_resolve_state (trace : nat) (v : thrown) (s : state) :
  exists f,
    snd (catch_resolve trace v s) = update trace f s
    /\ forall x,
         URLTrace.url (f x) = URLTrace.url x
         /\ (URLTrace.usedInCompletion (f x) = URLTrace.usedInCompletion x
             \/ URLTrace.usedInCompletion (f x) = Some false)
         /\ URLTrace.contentStats (f x) = URLTrace.contentStats x
         /\ URLTrace.timing (f x) = URLTrace.timing x
         /\ URLTrace.status (f x) = Status.error.
Proof.
  destruct v as [e | n]; simpl; eexists; (split; [reflexivity |]);
    intros x; simpl; auto 6.
Qed.

Lemma catch_scrape_state (trace : option nat) (v : thrown) (s : state) :
  snd (catch_scrape trace v s) = s
  \/ exists i f,
       snd (catch_scrape trace v s) = update i f s
       /\ forall x,
            URLTrace.url (f x) = URLTrace.url x
            /\ URLTrace.usedInCompletion (f x) = URLTrace.usedInCompletion x
            /\ URLTrace.contentStats (f x) = URLTrace.contentStats x
            /\ URLTrace.timing (f x) = URLTrace.timing x
            /\ URLTrace.status (f x) = Status.error.
Proof.
  destruct trace as [i |]; [| now left]. right.
  destruct v as [e | n]; simpl; eexists; eexists; (split; [reflexivity |]);
    intros x; simpl; auto 6.
Qed.

Lemma calls_catch_resolve (trace : nat) (v : thrown) (s : state) :
  calls (snd (catch_resolve trace v s)) = calls s.
Proof. destruct v; reflexivity. Qed.

Lemma calls_catch_scrape (trace : option nat) (v : thrown) (s : state) :
  calls (snd (catch_scrape trace v s)) = calls s.
Proof. destruct trace, v; reflexivity. Qed.

Lemma uuids_catch_resolve (trace : nat) (v : thrown) (s : state) :
  uuids (snd (catch_resolve trace v s)) = uuids s.
Proof. destruct v; reflexivity. Qed.

Lemma map_url_catch_resolve (trace : nat) (v : thrown) (s : state) :
  List.map URLTrace.url (urlTraces (snd (catch_resolve trace v s)))
  = List.map URLTrace.url (urlTraces s).
Proof.
  destruct (catch_resolve_state trace v s) as (f & -> & Hf).
  simpl. apply map_url_alter. intros x. apply Hf.
Qed.

Lemma map_url_catch_scrape (trace : option nat) (v : thrown) (s : state) :
  List.map URLTrace.url (urlTraces (snd (catch_scrape trace v s)))
  = List.map URLTrace.url (urlTraces s).
Proof.
  destruct (catch_scrape_state trace v s) as [-> | (i & f & -> & Hf)];
    [reflexivity |].
  simpl. apply map_url_alter. intros x. apply Hf.
Qed.

(** ** No blocked URL is marked as used *)

Lemma used_unblocked_kept (env : Collaborators) (x y : URLTrace.t) :
  URLTrace.url y = URLTrace.url x ->
  (URLTrace.usedInCompletion y = URLTrace.usedInCompletion x
   \/ URLTrace.usedInCompletion y = Some false) ->
  used_unblocked env x -> used_unblocked env y.
Proof.
  unfold used_unblocked. intros -> [-> | ->]; [auto | discriminate].
Qed.

Lemma used_unblocked_update (env : Collaborators) (i : nat)
    (f : URLTrace.t -> URLTrace.t) (s : state) :
  (forall x, URLTrace.url (f x) = URLTrace.url x) ->
  (forall x, URLTrace.usedInCompletion (f x) = URLTrace.usedInCompletion x
             \/ URLTrace.usedInCompletion (f x) = Some false) ->
  List.Forall (used_unblocked env) (urlTraces s) ->
  List.Forall (used_unblocked env) (urlTraces (update i f s)).
Proof.
  intros Hu Hc H. simpl. apply Forall_alter; [exact H |].
  intros x _. now apply used_unblocked_kept.
Qed.

Lemma used_unblocked_update_if (env : Collaborators) (trace : option nat)
    (f : URLTrace.t -> URLTrace.t) (s : state) :
  (forall x, URLTrace.url (f x) = URLTrace.url x) ->
  (forall x, URLTrace.usedInCompletion (f x) = URLTrace.usedInCompletion x
             \/ URLTrace.usedInCompletion (f x) = Some false) ->
  List.Forall (used_unblocked env) (urlTraces s) ->
  List.Forall (used_unblocked env) (urlTraces (update_if trace f s)).
Proof.
  destruct trace as [i |]; simpl; [| auto].
  apply used_unblocked_update.
Qed.

Lemma used_unblocked_start_resolve (env : Collaborators) (req : Request.t)
    (url : string) (s : state) :
  List.Forall (used_unblocked env) (urlTraces s) ->
  List.Forall (used_unblocked env)
    (urlTraces (snd (start_resolve env req url s))).
Proof.
  intros H. unfold start_resolve. simpl.
  set (t0 := URLTrace.mk url _ _ _ _ _ _ _).
  assert (H0 : List.Forall (used_unblocked env) (urlTraces s ++ [t0])).
  { apply Forall_app. split; [exact H |]. constructor; [| constructor].
    unfold used_unblocked. discriminate. }
  destruct (includes url "/*" || is_true _).
  - destruct (truthy_string _); [destruct (ExtractRequest.prompt _) |];
      exact H0.
  - destruct (isUrlBlocked env url) eqn:Eb; simpl.
    + apply Forall_alter; [exact H0 |]. intros x _ _.
      unfold used_unblocked. discriminate.
    + apply Forall_alter; [exact H0 |]. intros x Hx _.
      rewrite list_lookup_middle in Hx by reflexivity.
      injection Hx as <-. intros _. exact Eb.
Qed.

Lemma used_unblocked_catch_resolve (env : Collaborators) (trace : nat)
    (v : thrown) (s : state) :
  List.Forall (used_unblocked env) (urlTraces s) ->
  List.Forall (used_unblocked env) (urlTraces (snd (catch_resolve trace v s))).
Proof.
  destruct (catch_resolve_state trace v s) as (f & -> & Hf).
  apply used_unblocked_update; intros x; apply Hf.
Qed.

Lemma used_unblocked_after_rank (env : Collaborators)
    (ml : list MapDocument.t) (ls : list LinkScore.t) (s : state) :
  List.Forall (used_unblocked env) (urlTraces s) ->
  List.Forall (used_unblocked env) (urlTraces (snd (after_rank env ml ls s))).
Proof.
  intros H. pose proof (In_cascade (isUrlBlocked env) ml ls) as Hs.
  unfold after_rank. destruct (cascade (isUrlBlocked env) ml ls) as [fl ls'].
  simpl in *.
  apply Forall_fold_update_found.
  { intros a x _ _. apply used_unblocked_kept; [reflexivity | now right]. }
  apply Forall_fold_update_found.
  { intros a x Ha Hu _ _. simpl. rewrite Hu.
    apply In_take in Ha. now destruct (Hs a Ha) as (_ & Hb & _). }
  apply (Forall_fold_update_found (used_unblocked env) LinkScore.link
           (fun score t =>
              let t := URLTrace.set_relevanceScore (LinkScore.score score) t in
              if negb (existsb (fun l0 => String.eqb (MapDocument.url l0)
                                            (LinkScore.link score)) fl)
              then URLTrace.set_usedInCompletion false
                     (URLTrace.set_warning
                        (BelowThreshold (LinkScore.score score)) t)
              else t)); [| exact H].
  intros a x _ _. apply used_unblocked_kept; simpl.
  - destruct (negb _); reflexivity.
  - destruct (negb _); [now right | now left].
Qed.

Lemma used_unblocked_resume_resolve (env : Collaborators) (req : Request.t)
    (t : rtask) (s : state) :
  List.Forall (used_unblocked env) (urlTraces s) ->
  List.Forall (used_unblocked env)
    (urlTraces (snd (resume_resolve env req t s))).
Proof.
  intros H.
  destruct t as [tr b w [v | e] | tr b w [r | e] | tr ml [ls | e] | urls | e];
    simpl; try exact H; try now apply used_unblocked_catch_resolve.
  - unfold after_map. destruct (candidates env b r) as [us ml].
    destruct (track_discovered_added us s) as (added & H1 & _ & _ & _ & H5).
    assert (Hd : List.Forall (used_unblocked env)
                   (urlTraces (track_discovered us s))).
    { rewrite H1. apply Forall_app. split; [exact H |].
      eapply List.Forall_impl; [| exact H5].
      intros x (_ & Hx & _). unfold used_unblocked. rewrite Hx.
      discriminate. }
    destruct (truthy_string _); exact Hd.
  - now apply used_unblocked_after_rank.
Qed.

Lemma used_unblocked_start_scrape (env : Collaborators) (req : Request.t)
    (url : string) (s : state) :
  List.Forall (used_unblocked env) (urlTraces s) ->
  List.Forall (used_unblocked env)
    (urlTraces (snd (start_scrape env req url s))).
Proof.
  intros H. unfold start_scrape.
  destruct (find_trace url (urlTraces s)) as [i |]; simpl; [| exact H].
  apply Forall_alter; [| intros x _; apply used_unblocked_kept;
                          [reflexivity | now left]].
  apply Forall_alter; [exact H |].
  intros x _. apply used_unblocked_kept; [reflexivity | now left].
Qed.

Lemma used_unblocked_catch_scrape (env : Collaborators) (trace : option nat)
    (v : thrown) (s : state) :
  List.Forall (used_unblocked env) (urlTraces s) ->
  List.Forall (used_unblocked env) (urlTraces (snd (catch_scrape trace v s))).
Proof.
  destruct (catch_scrape_state trace v s) as [-> | (i & f & -> & Hf)];
    [auto |].
  apply used_unblocked_update; intros x; [apply Hf | left; apply Hf].
Qed.

Lemma used_unblocked_resume_scrape (env : Collaborators) (req : Request.t)
    (t : ftask) (s : state) :
  List.Forall (used_unblocked env) (urlTraces s) ->
  List.Forall (used_unblocked env)
    (urlTraces (snd (resume_scrape env req t s))).
Proof.
  intros H.
  destruct t as [tr u to j [v | e] | tr to j [v | e] | tr j [d | e]
                | tr d [v | e] | d | e];
    simpl; try exact H; try now apply used_unblocked_catch_scrape.
  destruct tr as [i |]; simpl; [| exact H].
  apply Forall_alter; [| intros x _; apply used_unblocked_kept;
                          [reflexivity | now left]].
  apply Forall_alter; [exact H |].
  intros x _. apply used_unblocked_kept; [reflexivity | now left].
Qed.

Lemma used_unblocked_attribute_tokens (env : Collaborators)
    (n : option float) (docs : list Document.t) (l : list URLTrace.t) :
  List.Forall (used_unblocked env) l ->
  List.Forall (used_unblocked env) (attribute_tokens n docs l).
Proof.
  intros H. unfold attribute_tokens. destruct n as [n |]; [| exact H].
  destruct (truthy n); [| exact H].
  generalize (totalLength docs). intros total. revert l H.
  induction docs as [| d docs IH]; intros l H; simpl; [exact H |].
  apply IH. unfold attribute_doc.
  destruct (truthy_string _); [| exact H].
  destruct (Document.sourceURL d) as [u |]; [| exact H].
  apply Forall_update_found; [| exact H].
  intros x _. apply used_unblocked_kept.
  - apply url_set_tokensUsed.
  - left. unfold URLTrace.set_tokensUsed.
    destruct (URLTrace.contentStats x); reflexivity.
Qed.

(** X7: in every order of resumption, and whatever the collaborators
    return or throw, no trace of the ledger is marked as used for a
    blocked URL: not in the ledger the controller leaves, and not in the
    ledger of any response it sends. *)
Theorem used_never_blocked (env : Collaborators) (req : Request.t)
    (resolve_order scrape_order : list nat) :
  List.Forall (used_unblocked env)
    (urlTraces (snd (extractController env req resolve_order scrape_order)))
  /\ forall l,
       sent_ledger (fst (extractController env req resolve_order scrape_order))
       = Some l ->
       List.Forall (used_unblocked env) l.
Proof.
  apply (controller_ledger env req (List.Forall (used_unblocked env))).
  - rewrite start_all_state.
    assert (H0 : List.Forall (used_unblocked env)
                   (urlTraces (snd (randomUUID initial_state))))
      by constructor.
    revert H0. generalize (snd (randomUUID initial_state)).
    induction (ExtractRequest.urls (Request.body req)) as [| u us IH];
      intros s H; simpl; [exact H |].
    apply IH. now apply used_unblocked_start_resolve.
  - apply used_unblocked_resume_resolve.
  - apply used_unblocked_start_scrape.
  - apply used_unblocked_resume_scrape.
  - apply used_unblocked_attribute_tokens.
Qed.

(** ** The shape of the ledger *)

Lemma map_url_update (i : nat) (f : URLTrace.t -> URLTrace.t) (s : state) :
  (forall t, URLTrace.url (f t) = URLTrace.url t) ->
  List.map URLTrace.url (urlTraces (update i f s))
  = List.map URLTrace.url (urlTraces s).
Proof. intros Hf. simpl. now apply map_url_alter. Qed.

Lemma map_url_update_if (trace : option nat) (f : URLTrace.t -> URLTrace.t)
    (s : state) :
  (forall t, URLTrace.url (f t) = URLTrace.url t) ->
  List.map URLTrace.url (urlTraces (update_if trace f s))
  = List.map URLTrace.url (urlTraces s).
Proof.
  destruct trace as [i |]; simpl; [| reflexivity].
  intros Hf. now apply map_url_alter.
Qed.

(** Starting a resolution appends the trace of its URL. *)
Lemma map_url_start_resolve (env : Collaborators) (req : Request.t)
    (url : string) (s : state) :
  List.map URLTrace.url (urlTraces (snd (start_resolve env req url s)))
  = List.map URLTrace.url (urlTraces s) ++ [url].
Proof.
  unfold start_resolve. simpl.
  destruct (includes url "/*" || is_true _).
  - destruct (truthy_string _); [destruct (ExtractRequest.prompt _) |];
      simpl; now rewrite map_app.
  - destruct (negb _); simpl; rewrite map_url_alter by reflexivity;
      now rewrite map_app.
Qed.

Lemma map_url_start_all_resolve (env : Collaborators) (req : Request.t)
    (urls : list string) (s : state) :
  List.map URLTrace.url
    (urlTraces (snd (start_all (start_resolve env req) urls s)))
  = List.map URLTrace.url (urlTraces s) ++ urls.
Proof.
  rewrite start_all_state. revert s.
  induction urls as [| u us IH]; intros s; simpl.
  - now rewrite app_nil_r.
  - rewrite IH, map_url_start_resolve, <- app_assoc. reflexivity.
Qed.

(** A continuation of a resolution keeps the URLs of the ledger and
    appends, at most, URLs the ledger does not hold, each once. *)
Lemma map_url_resume_resolve (env : Collaborators) (req : Request.t)
    (t : rtask) (s : state) :
  exists new,
    List.map URLTrace.url (urlTraces (snd (resume_resolve env req t s)))
    = List.map URLTrace.url (urlTraces s) ++ new
    /\ NoDup new
    /\ forall u, In u new -> ~ In u (List.map URLTrace.url (urlTraces s)).
Proof.
  assert (Hsame : forall l : list URLTrace.t,
            List.map URLTrace.url l
            = List.map URLTrace.url (urlTraces s) ->
            exists new,
              List.map URLTrace.url l
              = List.map URLTrace.url (urlTraces s) ++ new
              /\ NoDup new
              /\ forall u, In u new ->
                   ~ In u (List.map URLTrace.url (urlTraces s))).
  { intros l Hl. exists []. rewrite app_nil_r.
    split; [exact Hl |]. split; [constructor | intros u []]. }
  destruct t as [tr b w [v | e] | tr b w [r | e] | tr ml [ls | e] | urls | e];
    simpl; try (apply Hsame; reflexivity);
    try (apply Hsame; now apply map_url_alter);
    try (apply Hsame; now apply map_url_catch_resolve).
  - unfold after_map. destruct (candidates env b r) as [us ml].
    destruct (track_discovered_added us s) as (added & H1 & _ & H3 & H4 & _).
    exists (List.map URLTrace.url added).
    split; [| split; [exact H3 | intros u Hu; now apply H4 in Hu]].
    destruct (truthy_string _); simpl; now rewrite H1, map_app.
  - apply Hsame, map_url_after_rank.
Qed.

Lemma map_url_start_scrape (env : Collaborators) (req : Request.t)
    (url : string) (s : state) :
  List.map URLTrace.url (urlTraces (snd (start_scrape env req url s)))
  = List.map URLTrace.url (urlTraces s).
Proof.
  unfold start_scrape.
  destruct (find_trace url (urlTraces s)) as [i |]; simpl; [| reflexivity].
  now rewrite !map_url_alter by reflexivity.
Qed.

Lemma map_url_resume_scrape (env : Collaborators) (req : Request.t)
    (t : ftask) (s : state) :
  List.map URLTrace.url (urlTraces (snd (resume_scrape env req t s)))
  = List.map URLTrace.url (urlTraces s).
Proof.
  destruct t as [tr u to j [v | e] | tr to j [v | e] | tr j [d | e]
                | tr d [v | e] | d | e];
    simpl; try reflexivity; try apply map_url_catch_scrape;
    try (destruct tr as [i |]; simpl; [| reflexivity];
         now rewrite !map_url_alter by reflexivity).
Qed.

Lemma map_url_attribute_tokens (n : option float) (docs : list Document.t)
    (l : list URLTrace.t) :
  List.map URLTrace.url (attribute_tokens n docs l) = List.map URLTrace.url l.
Proof.
  unfold attribute_tokens. destruct n as [n |]; [| reflexivity].
  destruct (truthy n); [| reflexivity]. apply map_url_attribute_docs.
Qed.

Lemma inputs_then_discovered_same (urls : list string)
    (l l' : list URLTrace.t) :
  List.map URLTrace.url l' = List.map URLTrace.url l ->
  inputs_then_discovered urls l -> inputs_then_discovered urls l'.
Proof. unfold inputs_then_discovered. now intros ->. Qed.

Lemma inputs_then_discovered_more (urls new : list string)
    (l l' : list URLTrace.t) :
  List.map URLTrace.url l' = List.map URLTrace.url l ++ new ->
  NoDup new ->
  (forall u, In u new -> ~ In u (List.map URLTrace.url l)) ->
  inputs_then_discovered urls l -> inputs_then_discovered urls l'.
Proof.
  intros Hl Hn Hd (rest & H1 & H2 & H3).
  exists (rest ++ new). rewrite Hl, H1, <- app_assoc.
  split; [reflexivity |]. split.
  - apply NoDup_app. split; [exact H2 |]. split; [| exact Hn].
    intros u Hu Hu'. rewrite list_elem_of_In in Hu, Hu'.
    apply (Hd u Hu'). rewrite H1. apply in_or_app. now right.
  - intros u Hu Hin. apply in_app_or in Hu as [Hu | Hu].
    + now apply (H3 u).
    + apply (Hd u Hu). rewrite H1. apply in_or_app. now left.
Qed.

(** X8: in every order of resumption, the ledger the controller leaves,
    and the ledger of any response it sends, starts with one trace for
    each input URL, in the order of the request and repeated where the
    request repeats a URL; every trace after these is for a URL that is
    no input URL, and no two of them are for the same URL. *)
Theorem ledger_inputs_then_discovered (env : Collaborators)
    (req : Request.t) (resolve_order scrape_order : list nat) :
  inputs_then_discovered (ExtractRequest.urls (Request.body req))
    (urlTraces (snd (extractController env req resolve_order scrape_order)))
  /\ forall l,
       sent_ledger (fst (extractController env req resolve_order scrape_order))
       = Some l ->
       inputs_then_discovered (ExtractRequest.urls (Request.body req)) l.
Proof.
  apply (controller_ledger env req
           (inputs_then_discovered (ExtractRequest.urls (Request.body req)))).
  - exists []. rewrite map_url_start_all_resolve. simpl.
    rewrite app_nil_r. split; [reflexivity |].
    split; [constructor | intros u []].
  - intros t s.
    destruct (map_url_resume_resolve env req t s) as (new & H1 & H2 & H3).
    now apply (inputs_then_discovered_more _ new).
  - intros u s. apply inputs_then_discovered_same, map_url_start_scrape.
  - intros t s. apply inputs_then_discovered_same, map_url_resume_scrape.
  - intros n docs l.
    apply inputs_then_discovered_same, map_url_attribute_tokens.
Qed.

(** * Billing and logging follow success *)

Lemma only_task_calls_issue (c : call) (s : state) :
  is_task_call c = true -> only_task_calls s -> only_task_calls (issue c s).
Proof.
  intros Hc H. unfold only_task_calls. simpl.
  apply Forall_app. split; [exact H | now repeat constructor].
Qed.

Lemma only_task_calls_same (s s' : state) :
  calls s' = calls s -> only_task_calls s -> only_task_calls s'.
Proof. unfold only_task_calls. now intros ->. Qed.

Lemma only_task_calls_start_resolve (env : Collaborators) (req : Request.t)
    (url : string) (s : state) :
  only_task_calls s -> only_task_calls (snd (start_resolve env req url s)).
Proof.
  intros H. unfold start_resolve. simpl.
  destruct (includes url "/*" || is_true _).
  - destruct (truthy_string _); [destruct (ExtractRequest.prompt _) |];
      simpl; now apply only_task_calls_issue.
  - destruct (negb _); exact H.
Qed.

Lemma only_task_calls_resume_resolve (env : Collaborators) (req : Request.t)
    (t : rtask) (s : state) :
  only_task_calls s -> only_task_calls (snd (resume_resolve env req t s)).
Proof.
  intros H.
  destruct t as [tr b w [v | e] | tr b w [r | e] | tr ml [ls | e] | urls | e];
    simpl; try exact H;
    try (eapply only_task_calls_same; [apply calls_catch_resolve | exact H]).
  - now apply only_task_calls_issue.
  - unfold after_map. destruct (candidates env b r) as [us ml].
    assert (Hd : only_task_calls (track_discovered us s))
      by (eapply only_task_calls_same; [apply calls_track_discovered | exact H]).
    destruct (truthy_string _); simpl; [| exact Hd].
    now apply only_task_calls_issue.
  - unfold after_rank. destruct (cascade _ _ _). exact H.
Qed.

Lemma only_task_calls_start_scrape (env : Collaborators) (req : Request.t)
    (url : string) (s : state) :
  only_task_calls s -> only_task_calls (snd (start_scrape env req url s)).
Proof.
  intros H. unfold start_scrape.
  destruct (find_trace url (urlTraces s)); simpl;
    unfold only_task_calls; simpl;
    (apply Forall_app; split; [exact H | now repeat constructor]).
Qed.

Lemma only_task_calls_resume_scrape (env : Collaborators) (req : Request.t)
    (t : ftask) (s : state) :
  only_task_calls s -> only_task_calls (snd (resume_scrape env req t s)).
Proof.
  intros H.
  destruct t as [tr u to j [v | e] | tr to j [v | e] | tr j [d | e]
                | tr d [v | e] | d | e];
    simpl; try exact H; try (now apply only_task_calls_issue);
    try (eapply only_task_calls_same; [apply calls_catch_scrape | exact H]);
    destruct tr; exact H.
Qed.

Lemma only_task_calls_quiet (cs : list call) :
  List.Forall (fun c => is_task_call c = true) cs ->
  credits_billed cs = [] /\ jobs_logged cs = []
  /\ completions_requested cs = 0%nat.
Proof.
  unfold credits_billed, jobs_logged, completions_requested.
  induction 1 as [| c cs Hc _ IH]; simpl; [auto |].
  destruct IH as (-> & -> & IH).
  destruct c; simpl in *; try discriminate; auto.
Qed.

(** The calls issued until the fetches have settled are calls of the
    tasks. *)
Lemma only_task_calls_resolve_all (env : Collaborators) (req : Request.t)
    (resolve_order : list nat) :
  only_task_calls (pstate (snd (resolve_all env req resolve_order))).
Proof.
  unfold resolve_all. simpl.
  destruct (start_all (start_resolve env req) _ _) as [ts s] eqn:E. simpl.
  apply run_preserves.
  - intros t s0. apply only_task_calls_resume_resolve.
  - change s with (snd (ts, s)). rewrite <- E.
    apply (start_all_preserves only_task_calls); [| constructor].
    intros x s0. apply only_task_calls_start_resolve.
Qed.

(** X9: the team is billed, and the job logged, exactly when the
    response reports success: then once each, after one call for the
    completion, five credits for each link handed to the fetch stage
    whether its fetch succeeded or not, the status being 200 and the
    job logged under the id the response carries.  When the controller
    ends in any other way, nothing is billed and nothing is logged. *)
Theorem billing_follows_success (env : Collaborators) (req : Request.t)
    (resolve_order scrape_order : list nat) :
  let o := fst (extractController env req resolve_order scrape_order) in
  let cs := calls (snd (extractController env req resolve_order scrape_order)) in
  if succeeded o then
    exists links body,
      resolved_links env req resolve_order = Some links
      /\ o = Responded (Some 200%Z) body
      /\ credits_billed cs = [(length links * 5)%nat]
      /\ option_map (fun id => [id]) (Response.scrape_id body)
         = Some (jobs_logged cs)
      /\ completions_requested cs = 1%nat
  else credits_billed cs = [] /\ jobs_logged cs = [].
Proof.
  pose proof (only_task_calls_resolve_all env req resolve_order) as Hp.
  unfold extractController, resolved_links.
  destruct (resolve_all env req resolve_order) as [id p]. simpl in Hp |- *.
  destruct (Promise_all rsettled p) as [vs | e snap |]; simpl;
    try (split; now apply only_task_calls_quiet).
  destruct (length (links_of vs) =? 0)%nat; simpl;
    [split; now apply only_task_calls_quiet |].
  unfold scrape_all.
  destruct (start_all (start_scrape env req) _ _) as [fs s2] eqn:E2.
  assert (Hs2 : only_task_calls s2).
  { change s2 with (snd (fs, s2)). rewrite <- E2.
    apply (start_all_preserves only_task_calls); [| exact Hp].
    intros x s0. apply only_task_calls_start_scrape. }
  set (p' := run (resume_scrape env req) fsettled 4 scrape_order
               (mkPool fs s2 None)).
  assert (Hend : only_task_calls (pstate p')).
  { apply run_preserves; [| exact Hs2].
    intros t s0. apply only_task_calls_resume_scrape. }
  apply only_task_calls_quiet in Hend as (Hb & Hl & Hc).
  destruct (Promise_all fsettled p') as [ds | [e | n] snap |]; simpl;
    try tauto.
  unfold complete. simpl.
  destruct (generateOpenAICompletions env _ _) as [c | e]; simpl.
  - eexists. eexists. split; [reflexivity |]. split; [reflexivity |].
    unfold credits_billed, jobs_logged, completions_requested in *.
    rewrite !flat_map_app, !List.filter_app, !length_app, Hb, Hl, Hc.
    simpl. auto.
  - unfold credits_billed, jobs_logged in *.
    rewrite !flat_map_app, Hb, Hl. simpl. auto.
Qed.

(** * Which failures reach the request *)

Section Blame.
Context {T A : Type}.
Variable resume : T -> state -> T * state.
Variable settled_of : T -> option (result A).
Variable good : T -> Prop.
Variable R : thrown -> Prop.
Hypothesis good_resume : forall t s, good t -> good (fst (resume t s)).
Hypothesis good_rejected :
  forall t e, good t -> settled_of t = Some (Throw e) -> R e.

Lemma blame_step (p : pool) (i : nat) :
  Forall good (tasks p)
  /\ (forall e snap, rejection p = Some (e, snap) -> R e) ->
  Forall good (tasks (step resume settled_of p i))
  /\ (forall e snap,
        rejection (step resume settled_of p i) = Some (e, snap) -> R e).
Proof.
  intros [Hg Hr]. unfold step.
  destruct (tasks p !! i) as [t |] eqn:Ei; [| now split].
  destruct (settled_of t); [now split |].
  assert (Ht : good t) by (rewrite Forall_lookup in Hg; now apply (Hg i)).
  pose proof (good_resume t (pstate p) Ht) as Ht'.
  destruct (resume t (pstate p)) as [t' s']. simpl in *.
  split; [now apply Forall_insert |].
  intros e snap. unfold note_rejection.
  destruct (rejection p) as [[e0 snap0] |].
  - intros E. injection E as <- <-. now apply (Hr e0 snap0).
  - destruct (settled_of t') as [[v | e1] |] eqn:Es; try discriminate.
    intros E. injection E as <- <-. now apply (good_rejected t').
Qed.

(** The first rejection of a pool is the rejection of one of its
    tasks. *)
Lemma blame_run (k : nat) (l : list nat) (ts : list T) (s : state) :
  Forall good ts ->
  forall e snap,
    rejection (run resume settled_of k l (mkPool ts s None)) = Some (e, snap) ->
    R e.
Proof.
  intros Hg. unfold run. simpl. generalize (l ++ drain (length ts) k).
  intros l'.
  assert (H : Forall good (tasks (mkPool ts s None))
              /\ (forall e snap,
                    rejection (mkPool ts s None) = Some (e, snap) -> R e))
    by (split; [exact Hg | discriminate]).
  revert H. generalize (mkPool ts s None). intros p. revert p.
  induction l' as [| i l' IH]; intros p H; simpl; [apply H |].
  apply IH, blame_step, H.
Qed.

End Blame.

Section PoolSteps.
Context {T A : Type}.
Variable resume : T -> state -> T * state.
Variable settled_of : T -> option (result A).
Variable I : pool (T := T) -> Prop.
Hypothesis I_step : forall p i, I p -> I (step resume settled_of p i).

Lemma pool_run (k : nat) (l : list nat) (p : pool) :
  I p -> I (run resume settled_of k l p).
Proof.
  unfold run. generalize (l ++ drain (length (tasks p)) k). intros l'.
  revert p. induction l' as [| i l' IH]; intros p H; simpl; [exact H |].
  apply IH, I_step, H.
Qed.

End PoolSteps.

Lemma resolution_traced_start (env : Collaborators) (req : Request.t)
    (url : string) (s : state) :
  resolution_traced env (fst (start_resolve env req url s)).
Proof.
  unfold start_resolve. simpl. destruct (includes url "/*" || is_true _).
  - destruct (truthy_string _); [| simpl; eauto].
    destruct (ExtractRequest.prompt _) as [p |]; simpl; eauto.
  - destruct (negb _); exact I.
Qed.

Lemma resolution_traced_resume (env : Collaborators) (req : Request.t)
    (t : rtask) (s : state) :
  resolution_traced env t ->
  resolution_traced env (fst (resume_resolve env req t s)).
Proof.
  destruct t as [tr b w [v | e] | tr b w [r | [e | n]]
                | tr ml [ls | [e | n]] | urls | e];
    simpl; intros H; try exact I; try exact H.
  - eauto.
  - destruct H as [q H]. left. eauto.
  - unfold after_map. destruct (candidates env b r).
    destruct (truthy_string _); simpl; eauto.
  - destruct H as [args H]. right. exists n. split; [reflexivity |].
    left. eauto.
  - unfold after_rank. destruct (cascade _ _ _). exact I.
  - destruct H as (l & urls & q & H). right. exists n.
    split; [reflexivity |]. right. eauto.
Qed.

Lemma resolution_traced_rejected (env : Collaborators) (t : rtask)
    (v : thrown) :
  resolution_traced env t -> rsettled t = Some (Throw v) ->
  resolution_failure env v.
Proof.
  intros H Hs. destruct t; simpl in *; try discriminate.
  injection Hs as <-. exact H.
Qed.

(** What the resolutions are rejected with, in every order. *)
Lemma resolve_rejection_is_failure (env : Collaborators) (req : Request.t)
    (resolve_order : list nat) (v : thrown) (snap : list URLTrace.t) :
  rejection (snd (resolve_all env req resolve_order)) = Some (v, snap) ->
  resolution_failure env v.
Proof.
  unfold resolve_all. simpl.
  destruct (start_all (start_resolve env req) _ _) as [ts s] eqn:E.
  assert (Hts : Forall (resolution_traced env) ts).
  { change ts with (fst (ts, s)). rewrite <- E. apply start_all_tasks.
    intros x s0. apply resolution_traced_start. }
  apply (blame_run (resume_resolve env req) rsettled
           (resolution_traced env) (resolution_failure env)
           (resolution_traced_resume env req)
           (resolution_traced_rejected env) 3%nat resolve_order ts s Hts).
Qed.

Lemma fetch_traced_start (env : Collaborators) (req : Request.t)
    (url : string) (s : state) :
  fetch_traced env req (fst (start_scrape env req url s)).
Proof. reflexivity. Qed.

Lemma fetch_traced_resume (env : Collaborators) (req : Request.t)
    (t : ftask) (s : state) :
  fetch_traced env req t ->
  fetch_traced env req (fst (resume_scrape env req t s)).
Proof.
  destruct t as [tr u to j [v | e] | tr to j [v | [e | n]]
                | tr j [d | [e | n]] | tr d [v | [e | n]] | d | e];
    simpl; intros H; try exact I; try exact H;
    try (destruct tr; exact I);
    try (split; [apply H | eauto]).
  - split; [eauto | eauto].
  - now left.
  - destruct tr as [i |]; simpl; [| exact I].
    destruct H as (Hp & job & jobId & priority & H).
    right. exists n. split; [reflexivity |]. split; [exact Hp |].
    left. eauto.
  - destruct tr as [i |]; simpl; [| exact I].
    destruct H as (Hp & jobId & timeout & H).
    right. exists n. split; [reflexivity |]. split; [exact Hp |].
    right. left. eauto.
  - destruct tr as [i |]; simpl; [| exact I].
    destruct H as (Hp & jobId & H).
    right. exists n. split; [reflexivity |]. split; [exact Hp |].
    right. right. eauto.
Qed.

Lemma fetch_traced_rejected (env : Collaborators) (req : Request.t)
    (t : ftask) (v : thrown) :
  fetch_traced env req t -> fsettled t = Some (Throw v) ->
  fetch_failure env req v.
Proof.
  intros H Hs. destruct t; simpl in *; try discriminate.
  injection Hs as <-. exact H.
Qed.

(** What the fetches are rejected with, in every order. *)
Lemma scrape_rejection_is_failure (env : Collaborators) (req : Request.t)
    (links : list string) (scrape_order : list nat) (s : state)
    (v : thrown) (snap : list URLTrace.t) :
  rejection
    (run (resume_scrape env req) fsettled 4 scrape_order
       (mkPool (fst (start_all (start_scrape env req) links s))
          (snd (start_all (start_scrape env req) links s)) None))
  = Some (v, snap) ->
  fetch_failure env req v.
Proof.
  apply (blame_run (resume_scrape env req) fsettled
           (fetch_traced env req) (fetch_failure env req)
           (fetch_traced_resume env req)
           (fetch_traced_rejected env req) 4%nat scrape_order).
  apply start_all_tasks. intros x s0. apply fetch_traced_start.
Qed.

(** X10: what leaves the controller as an exception, the parse of the
    body included, is one of four things: what
    [extractRequestSchema.parse] threw; what a resolution was rejected
    with, that is what [generateBasicCompletion] threw or the
    [TypeError] of the [catch] of line 226 reading the message of a
    [null] or [undefined] that the map search or the ranker rejected
    with; the [TypeError] of the [catch] of line 324 reading the status
    of a [null] or [undefined] that [getJobPriority] rejected with; or
    what [generateOpenAICompletions] threw. *)
Theorem exceptions_that_escape {Body : Type}
    (parse : Body -> result ExtractRequest.t) (env : Collaborators)
    (body : Body) (team_id : string) (plan sub_id : option string)
    (resolve_order scrape_order : list nat) (v : thrown) :
  fst (extractController_parsing parse env body team_id plan sub_id
         resolve_order scrape_order) = Rejected v ->
  parse body = Throw v
  \/ resolution_failure env v
  \/ (exists n,
        v = Obj (cannot_read n "status")
        /\ getJobPriority env plan team_id 10%Z = Throw (Nullish n))
  \/ (exists args context,
        generateOpenAICompletions env args context = Throw v).
Proof.
  unfold extractController_parsing.
  destruct (parse body) as [b | v0]; [| simpl; intros [= <-]; now left].
  set (req := Request.mk b team_id plan sub_id).
  unfold extractController.
  pose proof (resolve_rejection_is_failure env req resolve_order) as Hres.
  destruct (resolve_all env req resolve_order) as [id p]. simpl in Hres.
  simpl.
  unfold Promise_all at 1.
  destruct (rejection p) as [[v0 snap] |] eqn:Er.
  { simpl. intros [= <-]. right. left. now apply (Hres v0 snap). }
  destruct (values_of rsettled _) as [vs |]; [| discriminate].
  destruct (length (links_of vs) =? 0)%nat; [discriminate |].
  unfold scrape_all.
  pose proof (scrape_rejection_is_failure env req (links_of vs) scrape_order
                (pstate p)) as Hf.
  destruct (start_all (start_scrape env req) _ _) as [fs s2].
  simpl in Hf. unfold Promise_all. clear Er Hres.
  destruct (rejection (run _ _ _ _ _)) as [[[e1 | n] snap] |] eqn:Ef.
  - discriminate.
  - simpl. intros [= <-]. right. right. left. exists n.
    split; [reflexivity |].
    destruct (Hf _ _ eq_refl) as [H | (n' & H & _)]; [exact H | discriminate].
  - destruct (values_of fsettled _) as [ds |]; [| discriminate].
    unfold complete. simpl.
    destruct (generateOpenAICompletions env _ _) as [c | e1] eqn:Ec;
      [discriminate |].
    simpl. intros [= <-]. right. right. right. eauto.
Qed.

(** A pattern URL and a literal URL with a prompt, the map search
    rejecting with [null]: the [catch] of the resolution throws. *)
Lemma exceptions_that_escape_witness :
  (fun b : ExtractRequest.t => Ok b)
    (Request.body
       (sample_request ["https://example.com/*"; "https://example.com/page"]
          (Some "pricing")))
  = Throw (Obj (cannot_read null "message"))
  \/ resolution_failure
       (sample_env nothing_blocked no_rephrase
          (fun _ => Throw (Nullish null)) (flat_score 0.9) job_done)
       (Obj (cannot_read null "message"))
  \/ (exists n,
        Obj (cannot_read null "message") = Obj (cannot_read n "status")
        /\ getJobPriority
             (sample_env nothing_blocked no_rephrase
                (fun _ => Throw (Nullish null)) (flat_score 0.9) job_done)
             (Request.plan
                (sample_request
                   ["https://example.com/*"; "https://example.com/page"]
                   (Some "pricing")))
             (Request.team_id
                (sample_request
                   ["https://example.com/*"; "https://example.com/page"]
                   (Some "pricing"))) 10%Z
           = Throw (Nullish n))
  \/ (exists args context,
        generateOpenAICompletions
          (sample_env nothing_blocked no_rephrase
             (fun _ => Throw (Nullish null)) (flat_score 0.9) job_done)
          args context
        = Throw (Obj (cannot_read null "message"))).
Proof.
  apply (exceptions_that_escape (fun b : ExtractRequest.t => Ok b)
           (sample_env nothing_blocked no_rephrase
              (fun _ => Throw (Nullish null)) (flat_score 0.9) job_done)
           (Request.body
              (sample_request
                 ["https://example.com/*"; "https://example.com/page"]
                 (Some "pricing")))
           (Request.team_id
              (sample_request
                 ["https://example.com/*"; "https://example.com/page"]
                 (Some "pricing")))
           (Request.plan
              (sample_request
                 ["https://example.com/*"; "https://example.com/page"]
                 (Some "pricing")))
           (Request.sub_id
              (sample_request
                 ["https://example.com/*"; "https://example.com/page"]
                 (Some "pricing"))) [] []).
  vm_compute. reflexivity.
Defined.

Lemma fetch_not_failing_start (env : Collaborators) (req : Request.t)
    (url : string) (s : state) :
  (forall v, getJobPriority env (Request.plan req) (Request.team_id req) 10%Z
             <> Throw v) ->
  fetch_not_failing (fst (start_scrape env req url s)).
Proof.
  intros Hok. unfold start_scrape. simpl.
  destruct (getJobPriority env _ _ _) as [v | e] eqn:E; [exact I |].
  now destruct (Hok e).
Qed.

Lemma fetch_not_failing_resume (env : Collaborators) (req : Request.t)
    (t : ftask) (s : state) :
  (forall job jobId priority n,
     addScrapeJob env job jobId priority <> Throw (Nullish n)) ->
  (forall jobId timeout n, waitForJob env jobId timeout <> Throw (Nullish n)) ->
  (forall jobId n, queue_remove env jobId <> Throw (Nullish n)) ->
  fetch_not_failing t ->
  fetch_not_failing (fst (resume_scrape env req t s)).
Proof.
  intros Hadd Hwait Hrem.
  destruct t as [tr u to j [v | e] | tr to j [v | [e | n]]
                | tr j [d | [e | n]] | tr d [v | [e | n]] | d | e];
    simpl; intros H; try exact I; try contradiction;
    try (destruct tr; exact I).
  - destruct (addScrapeJob env _ _ _) as [x | [e | n]] eqn:E; try exact I.
    now destruct (Hadd _ _ _ _ E).
  - destruct (waitForJob env _ _) as [x | [e | n]] eqn:E; try exact I.
    now destruct (Hwait _ _ _ E).
  - destruct (queue_remove env _) as [x | [e | n]] eqn:E; try exact I.
    now destruct (Hrem _ _ E).
Qed.

(** X11: when the priority lookup and the completion call do not fail,
    there is a link to fetch, and [addScrapeJob], [waitForJob] and the
    removal from the queue reject with neither [null] nor [undefined],
    the response is a 200 that reports success and carries no error, in
    every order of resumption and whatever else these three reject
    with: a fetch that fails, even every fetch failing, changes
    neither. *)
Theorem fetch_errors_isolated (env : Collaborators) (req : Request.t)
    (resolve_order scrape_order : list nat) (links : list string) :
  (forall v, getJobPriority env (Request.plan req) (Request.team_id req) 10%Z
             <> Throw v) ->
  (forall args context v,
     generateOpenAICompletions env args context <> Throw v) ->
  (forall job jobId priority n,
     addScrapeJob env job jobId priority <> Throw (Nullish n)) ->
  (forall jobId timeout n, waitForJob env jobId timeout <> Throw (Nullish n)) ->
  (forall jobId n, queue_remove env jobId <> Throw (Nullish n)) ->
  resolved_links env req resolve_order = Some links ->
  links <> [] ->
  exists body,
    fst (extractController env req resolve_order scrape_order)
    = Responded (Some 200%Z) body
    /\ Response.success body = true
    /\ Response.error body = None
    /\ Response.scrape_id body <> None.
Proof.
  intros Hprio Hcomp Hadd Hwait Hrem Hlinks Hne.
  unfold extractController, resolved_links in *.
  destruct (resolve_all env req resolve_order) as [id p]. simpl in *.
  destruct (Promise_all rsettled p) as [vs | e snap |]; try discriminate.
  injection Hlinks as <-.
  destruct (length (links_of vs) =? 0)%nat eqn:El.
  { apply Nat.eqb_eq in El. destruct (links_of vs); [congruence | discriminate]. }
  unfold scrape_all.
  destruct (start_all (start_scrape env req) _ _) as [fs s2] eqn:E2.
  assert (Hfs : Forall fetch_not_failing fs).
  { change fs with (fst (fs, s2)). rewrite <- E2. apply start_all_tasks.
    intros x s0. now apply fetch_not_failing_start. }
  pose proof (good_run (resume_scrape env req) fsettled fetch_not_failing
                (fun t s => fetch_not_failing_resume env req t s
                              Hadd Hwait Hrem)) as Hrun.
  specialize (Hrun ltac:(intros [] e0 H; simpl in *; congruence)
                4%nat scrape_order (mkPool fs s2 None) Hfs eq_refl).
  pose proof (Promise_all_settles (resume_scrape env req) fsettled fawaits 4
                fawaits_settled (fawaits_resume env req) fawaits_bound
                scrape_order (mkPool fs s2 None)) as Hset.
  unfold Promise_all in *. rewrite Hrun in *.
  destruct (values_of fsettled _) as [ds |].
  - unfold complete. simpl.
    destruct (generateOpenAICompletions env _ _) as [c | e] eqn:Ec.
    + eexists. split; [reflexivity |]. simpl.
      split; [reflexivity |]. split; [reflexivity | discriminate].
    + now destruct (Hcomp _ _ _ Ec).
  - exfalso. apply Hset; [| reflexivity]. intros _. simpl.
    eapply List.Forall_impl; [| exact Hfs].
    intros [] H e0; simpl in *; congruence.
Qed.

(** Two literal URLs, the wait for every job timing out. *)
Lemma fetch_errors_isolated_witness :
  exists body,
    fst (extractController
           (sample_env nothing_blocked no_rephrase no_map no_rank job_timeout)
           (sample_request ["https://example.com/a"; "https://example.com/b"]
              None) [1; 0]%nat [1; 0; 1]%nat)
    = Responded (Some 200%Z) body
    /\ Response.success body = true
    /\ Response.error body = None
    /\ Response.scrape_id body <> None.
Proof.
  apply (fetch_errors_isolated
           (sample_env nothing_blocked no_rephrase no_map no_rank job_timeout)
           (sample_request ["https://example.com/a"; "https://example.com/b"]
              None) [1; 0]%nat [1; 0; 1]%nat
           ["https://example.com/a"; "https://example.com/b"]).
  - intros e. simpl. discriminate.
  - intros args context e. simpl. discriminate.
  - intros job jobId priority n. simpl. discriminate.
  - intros jobId timeout n. simpl. unfold job_timeout. discriminate.
  - intros jobId n. simpl. discriminate.
  - vm_compute. reflexivity.
  - discriminate.
Defined.

(** ** A failing priority lookup *)

Lemma start_all_length {T X} (start : X -> state -> T * state)
    (xs : list X) (s : state) :
  length (fst (start_all start xs s)) = length xs.
Proof.
  unfold start_all.
  assert (Hacc : forall ts s,
            length (fst (List.fold_left
                           (fun '(ts, s) x =>
                              let '(t, s) := start x s in (ts ++ [t], s))
                           xs (ts, s)))
            = (length ts + length xs)%nat).
  { induction xs as [| x xs IH]; intros ts s0; simpl; [lia |].
    destruct (start x s0) as [t s']. rewrite IH, length_app. simpl. lia. }
  apply Hacc.
Qed.

Lemma calls_start_scrape (env : Collaborators) (req : Request.t)
    (url : string) (s : state) :
  calls (snd (start_scrape env req url s))
  = calls s ++ [Call_getJobPriority (Request.plan req) (Request.team_id req)].
Proof.
  unfold start_scrape. destruct (find_trace url (urlTraces s)); reflexivity.
Qed.

Lemma calls_start_all_scrape (env : Collaborators) (req : Request.t)
    (links : list string) (s : state) :
  calls (snd (start_all (start_scrape env req) links s))
  = calls s
    ++ repeat (Call_getJobPriority (Request.plan req) (Request.team_id req))
         (length links).
Proof.
  rewrite start_all_state. revert s.
  induction links as [| u us IH]; intros s;
    cbn [List.fold_left length repeat].
  - now rewrite app_nil_r.
  - rewrite IH, calls_start_scrape, <- app_assoc. reflexivity.
Qed.

Lemma stopped_at_priority_step (env : Collaborators) (req : Request.t)
    (e : Exn.t) (s0 : state) (p : pool (T := ftask)) (i : nat) :
  pstate p = s0
  /\ Forall (stopped_at_priority e) (tasks p)
  /\ match rejection p with
     | None => Forall (fun t => fsettled t = None) (tasks p)
     | Some (e', snap) => e' = e /\ snap = urlTraces s0
     end ->
  pstate (step (resume_scrape env req) fsettled p i) = s0
  /\ Forall (stopped_at_priority e)
       (tasks (step (resume_scrape env req) fsettled p i))
  /\ match rejection (step (resume_scrape env req) fsettled p i) with
     | None =>
         Forall (fun t => fsettled t = None)
           (tasks (step (resume_scrape env req) fsettled p i))
     | Some (e', snap) => e' = e /\ snap = urlTraces s0
     end.
Proof.
  intros (Hs & Ht & Hr). unfold step.
  destruct (tasks p !! i) as [t |] eqn:Ei; [| auto].
  destruct (fsettled t) eqn:Es; [auto |].
  assert (Hst : stopped_at_priority e t)
    by (rewrite Forall_lookup in Ht; now apply (Ht i)).
  destruct t as [tr u to j [v | e'] | tr to j q | tr j q | tr d q | d | e'];
    simpl in Hst, Es; try contradiction; try discriminate.
  subst e'. simpl. split; [exact Hs |]. split.
  - apply Forall_insert; [exact Ht | reflexivity].
  - unfold note_rejection. destruct (rejection p) as [[e' snap] |];
      [exact Hr |].
    simpl. now rewrite Hs.
Qed.

(** X12: when the priority lookup fails, with an exception that is an
    object, and there is a link to fetch,
    the request ends, in every order of resumption, with the status and
    the error of the exception thrown and [success: false]; the ledger
    sent is the one the start of the fetches left; and the calls of the
    fetch stage are one priority lookup for each link, and no other: no
    job is submitted, nothing is completed, billed or logged. *)
Theorem priority_failure_ends_request (env : Collaborators)
    (req : Request.t) (resolve_order scrape_order : list nat)
    (links : list string) (e : Exn.t) :
  getJobPriority env (Request.plan req) (Request.team_id req) 10%Z = Throw e ->
  resolved_links env req resolve_order = Some links ->
  links <> [] ->
  let s0 := fetches_started env req resolve_order links in
  extractController env req resolve_order scrape_order
  = (Responded (Exn.status e)
       (Response.mk false None None None (Exn.error e) (urlTraces s0)),
     s0)
  /\ calls s0
     = calls (pstate (snd (resolve_all env req resolve_order)))
       ++ repeat
            (Call_getJobPriority (Request.plan req) (Request.team_id req))
            (length links).
Proof.
  intros Hprio Hlinks Hne s0. split; [| apply calls_start_all_scrape].
  unfold extractController, resolved_links, fetches_started in *.
  destruct (resolve_all env req resolve_order) as [id p]. simpl in *.
  destruct (Promise_all rsettled p) as [vs | e0 snap |]; try discriminate.
  injection Hlinks as <-.
  destruct (length (links_of vs) =? 0)%nat eqn:El.
  { apply Nat.eqb_eq in El.
    destruct (links_of vs); [congruence | discriminate]. }
  apply Nat.eqb_neq in El.
  unfold scrape_all.
  pose proof (start_all_length (start_scrape env req) (links_of vs) (pstate p))
    as Hlen.
  pose proof (start_all_tasks (start_scrape env req) (stopped_at_priority e)
                (links_of vs) (pstate p)) as Hst.
  destruct (start_all (start_scrape env req) _ _) as [fs s2] eqn:E2.
  simpl in *. subst s0.
  specialize (Hst ltac:(intros x s1; unfold start_scrape; simpl;
                        rewrite Hprio; reflexivity)).
  assert (Hpend : Forall (fun t => fsettled t = None) fs).
  { change fs with (fst (fs, s2)). rewrite <- E2. apply start_all_tasks.
    intros x s1. reflexivity. }
  pose proof (pool_run (resume_scrape env req) fsettled _
                (stopped_at_priority_step env req e s2)
                4 scrape_order (mkPool fs s2 None)
                (conj eq_refl (conj Hst Hpend))) as (Hs & Ht & Hr).
  pose proof (run_settles (resume_scrape env req) fsettled fawaits 4
                fawaits_settled (fawaits_resume env req) fawaits_bound
                scrape_order (mkPool fs s2 None)) as Hset.
  set (p' := run (resume_scrape env req) fsettled 4 scrape_order
               (mkPool fs s2 None)) in *.
  assert (Hl : length (tasks p') = length fs)
    by apply (length_steps (resume_scrape env req) fsettled
                (scrape_order ++ drain (length fs) 4) (mkPool fs s2 None)).
  unfold Promise_all. destruct (rejection p') as [[e' snap] |].
  - destruct Hr as [-> ->]. now rewrite Hs.
  - exfalso.
    destruct (tasks p') as [| t ts']; [simpl in Hl; lia |].
    apply Forall_cons in Hr as [Hr _]. apply Forall_cons in Hset as [Hset _].
    contradiction.
Qed.

(** Two literal URLs, the priority lookup answering 429. *)
Lemma priority_failure_ends_request_witness :
  let env :=
    with_priority (Throw (http_failure 429 "Rate limit exceeded"))
      (sample_env nothing_blocked no_rephrase no_map no_rank job_done) in
  let req :=
    sample_request ["https://example.com/a"; "https://example.com/b"] None in
  let s0 :=
    fetches_started env req [] ["https://example.com/a"; "https://example.com/b"]
  in
  extractController env req [] [1; 0]%nat
  = (Responded (Some 429%Z)
       (Response.mk false None None None (Some "Rate limit exceeded")
          (urlTraces s0)),
     s0)
  /\ calls s0
     = calls (pstate (snd (resolve_all env req [])))
       ++ repeat (Call_getJobPriority None "team") 2.
Proof.
  apply (priority_failure_ends_request
           (with_priority (Throw (http_failure 429 "Rate limit exceeded"))
              (sample_env nothing_blocked no_rephrase no_map no_rank job_done))
           (sample_request ["https://example.com/a"; "https://example.com/b"]
              None) [] [1; 0]%nat
           ["https://example.com/a"; "https://example.com/b"]
           (http_failure 429 "Rate limit exceeded")).
  - reflexivity.
  - vm_compute. reflexivity.
  - discriminate.
Defined.

(** * Requests for literal URLs *)

Lemma start_all_fst {T X} (start : X -> state -> T * state) (g : X -> T)
    (xs : list X) (s : state) :
  (forall x s, In x xs -> fst (start x s) = g x) ->
  fst (start_all start xs s) = List.map g xs.
Proof.
  unfold start_all.
  assert (Hacc : forall ts s,
            (forall x s, In x xs -> fst (start x s) = g x) ->
            fst (List.fold_left
                   (fun '(ts, s) x =>
                      let '(t, s) := start x s in (ts ++ [t], s))
                   xs (ts, s))
            = ts ++ List.map g xs).
  { induction xs as [| x xs IH]; intros ts s0 Hg; simpl.
    - now rewrite app_nil_r.
    - pose proof (Hg x s0 (or_introl eq_refl)) as Hx.
      destruct (start x s0) as [t s']. simpl in Hx. subst t.
      rewrite IH by (intros y s1 Hy; apply Hg; now right).
      now rewrite <- app_assoc. }
  intros Hg. now rewrite Hacc.
Qed.

Section Settled.
Context {T A : Type}.
Variable resume : T -> state -> T * state.
Variable settled_of : T -> option (result A).

(** A pool whose tasks have all settled is left as it is. *)
Lemma run_all_settled (k : nat) (l : list nat) (p : pool) :
  Forall (fun t => settled_of t <> None) (tasks p) ->
  run resume settled_of k l p = p.
Proof.
  intros H. unfold run. generalize (l ++ drain (length (tasks p)) k).
  intros l'. induction l' as [| i l' IH]; simpl; [reflexivity |].
  assert (Hi : step resume settled_of p i = p).
  { unfold step. destruct (tasks p !! i) as [t |] eqn:Ei; [| reflexivity].
    rewrite Forall_lookup in H. specialize (H i t Ei).
    destruct (settled_of t); [reflexivity | congruence]. }
  rewrite Hi. exact IH.
Qed.

End Settled.

Lemma literal_start_resolve (env : Collaborators) (req : Request.t)
    (url : string) (s : state) :
  is_true (ExtractRequest.allowExternalLinks (Request.body req)) = false ->
  includes url "/*" = false ->
  fst (start_resolve env req url s) = literal_task env url
  /\ calls (snd (start_resolve env req url s)) = calls s
  /\ List.map trace_summary (urlTraces (snd (start_resolve env req url s)))
     = List.map trace_summary (urlTraces s) ++ [literal_summary env url].
Proof.
  intros Ha Hu. unfold start_resolve, literal_task, literal_summary. simpl.
  rewrite Ha, Hu. simpl.
  destruct (isUrlBlocked env url); simpl;
    (split; [reflexivity |]; split; [reflexivity |]);
    rewrite <- (Nat.add_0_r (length (urlTraces s))), alter_app_r, map_app;
    reflexivity.
Qed.

Lemma literal_values (env : Collaborators) (urls : list string) :
  values_of rsettled (List.map (literal_task env) urls)
  = Some (List.map
            (fun u => if negb (isUrlBlocked env u) then [u] else []) urls).
Proof.
  induction urls as [| u us IH]; simpl; [reflexivity |].
  rewrite IH. unfold literal_task. destruct (negb _); reflexivity.
Qed.

Lemma literal_links (blocked : string -> bool) (urls : list string) :
  links_of (List.map (fun u => if negb (blocked u) then [u] else []) urls)
  = List.filter
      (fun u => negb (blocked u) && negb (String.eqb u EmptyString)) urls.
Proof.
  unfold links_of. induction urls as [| u us IH]; simpl; [reflexivity |].
  rewrite List.filter_app, IH.
  destruct (blocked u); simpl; [reflexivity |].
  destruct (negb (String.eqb u EmptyString)); reflexivity.
Qed.

(** X13: a request that names no pattern and does not allow external
    links is resolved without a call: in every order of resumption the
    links are the input URLs that are not blocked and not empty, in the
    order of the request and as often as the request names them; and
    the ledger holds one trace for each input URL, used if the URL is
    not blocked and otherwise failed with [URL is blocked]. *)
Theorem literal_request_resolved (env : Collaborators) (req : Request.t)
    (resolve_order : list nat) :
  is_true (ExtractRequest.allowExternalLinks (Request.body req)) = false ->
  (forall u, In u (ExtractRequest.urls (Request.body req)) ->
             includes u "/*" = false) ->
  let s := pstate (snd (resolve_all env req resolve_order)) in
  resolved_links env req resolve_order
  = Some (List.filter
            (fun u => negb (isUrlBlocked env u)
                      && negb (String.eqb u EmptyString))
            (ExtractRequest.urls (Request.body req)))
  /\ calls s = []
  /\ List.map trace_summary (urlTraces s)
     = List.map (literal_summary env) (ExtractRequest.urls (Request.body req)).
Proof.
  intros Ha Hu. unfold resolved_links, resolve_all. simpl.
  set (urls := ExtractRequest.urls (Request.body req)) in *.
  set (s0 := snd (randomUUID initial_state)).
  change (mkState [] [] 0 1) with s0.
  pose proof (start_all_fst (start_resolve env req) (literal_task env)
                urls s0) as Hts.
  specialize (Hts ltac:(intros x s1 Hx;
                        now apply literal_start_resolve; [| apply Hu])).
  assert (Hst : forall s1,
            calls (snd (start_all (start_resolve env req) urls s1)) = calls s1
            /\ List.map trace_summary
                 (urlTraces (snd (start_all (start_resolve env req) urls s1)))
               = List.map trace_summary (urlTraces s1)
                 ++ List.map (literal_summary env) urls).
  { intros s1. rewrite start_all_state. revert s1 Hu. clear Hts.
    induction urls as [| u us IH]; intros s1 Hu;
      cbn [List.fold_left List.map].
    - now rewrite app_nil_r.
    - destruct (literal_start_resolve env req u s1 Ha
                  (Hu u (or_introl eq_refl))) as (_ & Hc & Hl).
      destruct (IH (snd (start_resolve env req u s1))) as [Hc' Hl'].
      { intros v Hv. apply Hu. now right. }
      rewrite Hc', Hl', Hc, Hl, <- app_assoc. split; reflexivity. }
  specialize (Hst s0).
  destruct (start_all (start_resolve env req) urls s0) as [ts s1].
  simpl in Hts, Hst. subst ts.
  rewrite run_all_settled.
  - unfold Promise_all. simpl. rewrite literal_values, literal_links.
    split; [reflexivity | exact Hst].
  - simpl. apply List.Forall_forall. intros t Ht.
    apply in_map_iff in Ht as (u & <- & _). unfold literal_task.
    destruct (negb _); discriminate.
Qed.

(** Three literal URLs, the second blocked and the first named twice. *)
Lemma literal_request_resolved_witness :
  let env :=
    sample_env (String.eqb "https://blocked.example") no_rephrase no_map
      no_rank job_done in
  let req :=
    sample_request
      ["https://example.com/a"; "https://blocked.example";
       "https://example.com/a"] (Some "pricing") in
  let s := pstate (snd (resolve_all env req [2; 0]%nat)) in
  resolved_links env req [2; 0]%nat
  = Some (List.filter
            (fun u => negb (isUrlBlocked env u)
                      && negb (String.eqb u EmptyString))
            (ExtractRequest.urls (Request.body req)))
  /\ calls s = []
  /\ List.map trace_summary (urlTraces s)
     = List.map (literal_summary env) (ExtractRequest.urls (Request.body req)).
Proof.
  apply (literal_request_resolved
           (sample_env (String.eqb "https://blocked.example") no_rephrase
              no_map no_rank job_done)
           (sample_request
              ["https://example.com/a"; "https://blocked.example";
               "https://example.com/a"] (Some "pricing")) [2; 0]%nat).
  - reflexivity.
  - intros u [<- | [<- | [<- | []]]]; vm_compute; reflexivity.
Defined.

(** * The order of resumption *)

Lemma map_insert {A B} (f : A -> B) (l : list A) (i : nat) (x : A) :
  List.map f (<[i := x]> l) = <[i := f x]> (List.map f l).
Proof.
  revert i. induction l as [| y l IH]; intros [| i]; simpl; try reflexivity.
  f_equal. apply IH.
Qed.

Lemma lookup_map {A B} (f : A -> B) (l : list A) (i : nat) :
  List.map f l !! i = option_map f (l !! i).
Proof.
  revert i. induction l as [| y l IH]; intros [| i]; simpl; try reflexivity.
  apply IH.
Qed.

Section Confluence.
Context {T A V : Type}.
Variable resume : T -> state -> T * state.
Variable settled_of : T -> option (result A).

(** What of a task decides its further course, and its course. *)
Variable view : T -> V.
Variable next : V -> V.
Variable settledV : V -> option (result A).
Variable awaits : V -> nat.
Variable k : nat.
Hypothesis view_settled : forall t, settled_of t = settledV (view t).
Hypothesis view_resume :
  forall t s, settled_of t = None -> view (fst (resume t s)) = next (view t).
Hypothesis awaitsV_settled : forall v, settledV v = None <-> awaits v <> 0%nat.
Hypothesis awaitsV_next :
  forall v, settledV v = None -> (awaits (next v) < awaits v)%nat.
Hypothesis awaitsV_bound : forall v, (awaits v <= k)%nat.
Hypothesis next_settled : forall v, settledV v <> None -> next v = v.

Lemma iter_fixed (n : nat) (v : V) :
  settledV v <> None -> Nat.iter n next v = v.
Proof.
  intros H. induction n as [| n IH]; simpl; [reflexivity |].
  rewrite IH. now apply next_settled.
Qed.

Lemma iter_settled (n : nat) (v : V) :
  (awaits v <= n)%nat -> settledV (Nat.iter n next v) <> None.
Proof.
  revert v. induction n as [| n IH]; intros v Hn.
  - simpl. intros H. apply awaitsV_settled in H. lia.
  - rewrite Nat.iter_succ_r. destruct (settledV v) eqn:E.
    + rewrite next_settled by congruence. apply IH.
      destruct (Nat.eq_dec (awaits v) 0) as [-> | Hne]; [lia |].
      apply awaitsV_settled in Hne. congruence.
    + apply IH. specialize (awaitsV_next v E). lia.
Qed.

Lemma settle_next (v : V) : Nat.iter k next (next v) = Nat.iter k next v.
Proof.
  rewrite Nat.iter_swap. apply next_settled, iter_settled, awaitsV_bound.
Qed.

Lemma settle_step (p : pool) (i : nat) :
  List.map (fun t => Nat.iter k next (view t))
    (tasks (step resume settled_of p i))
  = List.map (fun t => Nat.iter k next (view t)) (tasks p).
Proof.
  unfold step. destruct (tasks p !! i) as [t |] eqn:Ei; [| reflexivity].
  destruct (settled_of t) eqn:Es; [reflexivity |].
  pose proof (view_resume t (pstate p) Es) as Hv.
  destruct (resume t (pstate p)) as [t' s']. simpl in *.
  rewrite map_insert, Hv, settle_next. apply list_insert_id.
  now rewrite lookup_map, Ei.
Qed.

Lemma settle_run (l : list nat) (p : pool) :
  List.map (fun t => Nat.iter k next (view t))
    (tasks (run resume settled_of k l p))
  = List.map (fun t => Nat.iter k next (view t)) (tasks p).
Proof.
  unfold run. generalize (l ++ drain (length (tasks p)) k). intros l'.
  revert p. induction l' as [| i l' IH]; intros p; simpl; [reflexivity |].
  rewrite IH. apply settle_step.
Qed.

Lemma view_measure_settled (t : T) :
  settled_of t = None <-> awaits (view t) <> 0%nat.
Proof. rewrite view_settled. apply awaitsV_settled. Qed.

Lemma view_measure_resume (t : T) (s : state) :
  settled_of t = None -> (awaits (view (fst (resume t s))) < awaits (view t))%nat.
Proof.
  intros H. rewrite view_resume by exact H. apply awaitsV_next.
  now rewrite <- view_settled.
Qed.

(** Whatever the schedule, every task ends where its own course takes
    it. *)
Lemma run_views (l : list nat) (p : pool) :
  List.map view (tasks (run resume settled_of k l p))
  = List.map (fun t => Nat.iter k next (view t)) (tasks p).
Proof.
  rewrite <- (settle_run l p).
  pose proof (run_settles resume settled_of (fun t => awaits (view t)) k
                view_measure_settled view_measure_resume
                (fun t => awaitsV_bound (view t)) l p) as Hs.
  apply map_ext_in. intros t Ht. symmetry. apply iter_fixed.
  rewrite List.Forall_forall in Hs. rewrite <- view_settled. now apply Hs.
Qed.

(** A rejection is noted only when a task is rejected. *)
Lemma rejection_has_task (l : list nat) (ts : list T) (s : state) :
  rejection (run resume settled_of k l (mkPool ts s None)) <> None ->
  exists j t e,
    tasks (run resume settled_of k l (mkPool ts s None)) !! j = Some t
    /\ settled_of t = Some (Throw e).
Proof.
  apply (pool_run resume settled_of
           (fun p => rejection p <> None ->
                     exists j t e, tasks p !! j = Some t
                                   /\ settled_of t = Some (Throw e)));
    [| simpl; congruence].
  intros p i H. unfold step.
  destruct (tasks p !! i) as [t |] eqn:Ei; [| exact H].
  destruct (settled_of t) eqn:Es; [exact H |].
  destruct (resume t (pstate p)) as [t' s'] eqn:Er. simpl.
  unfold note_rejection. destruct (rejection p) as [r |] eqn:Erej.
  - intros _. destruct H as (j & tj & e & Hj & Hsj); [discriminate |].
    exists j, tj, e. split; [| exact Hsj].
    rewrite list_lookup_insert_ne; [exact Hj |].
    intros <-. congruence.
  - destruct (settled_of t') as [[v | e] |] eqn:Es'; try congruence.
    intros _. exists i, t', e. split; [| exact Es'].
    apply list_lookup_insert_eq. now apply lookup_lt_Some in Ei.
Qed.

Lemma values_of_view (ts1 ts2 : list T) :
  List.map view ts1 = List.map view ts2 ->
  values_of settled_of ts1 = values_of settled_of ts2.
Proof.
  revert ts2. induction ts1 as [| t ts1 IH]; intros [| t2 ts2]; simpl;
    try discriminate; [reflexivity |].
  intros [= Hv Hts]. rewrite !view_settled, Hv, (IH ts2 Hts). reflexivity.
Qed.

Lemma not_rejected_view (ts1 ts2 : list T) :
  List.map view ts1 = List.map view ts2 ->
  Forall (fun t => forall e, settled_of t <> Some (Throw e)) ts1 ->
  Forall (fun t => forall e, settled_of t <> Some (Throw e)) ts2.
Proof.
  revert ts2. induction ts1 as [| t ts1 IH]; intros [| t2 ts2]; simpl;
    try discriminate; [constructor |].
  intros [= Hv Hts] H. inversion H as [| ? ? Ht Hrest]. subst.
  constructor; [| now apply IH].
  intros e. rewrite view_settled, <- Hv, <- view_settled. apply Ht.
Qed.

(** Two pools whose tasks look alike join alike, whatever the two
    schedules: with the same values, or both with a rejection. *)
Lemma Promise_all_order (l1 l2 : list nat) (ts1 ts2 : list T)
    (s1 s2 : state) :
  List.map view ts1 = List.map view ts2 ->
  Forall (fun t => forall e, settled_of t <> Some (Throw e)) ts1 ->
  match Promise_all settled_of (run resume settled_of k l1 (mkPool ts1 s1 None)),
        Promise_all settled_of (run resume settled_of k l2 (mkPool ts2 s2 None))
  with
  | AllFulfilled v1, AllFulfilled v2 => v1 = v2
  | FirstRejected _ _, FirstRejected _ _ => True
  | _, _ => False
  end.
Proof.
  intros Hv H1.
  pose proof (not_rejected_view ts1 ts2 Hv H1) as H2.
  set (p1 := run resume settled_of k l1 (mkPool ts1 s1 None)).
  set (p2 := run resume settled_of k l2 (mkPool ts2 s2 None)).
  assert (Hend : List.map view (tasks p1) = List.map view (tasks p2)).
  { unfold p1, p2. rewrite !run_views. simpl.
    rewrite <- (map_map view (fun v => Nat.iter k next v) ts1).
    rewrite <- (map_map view (fun v => Nat.iter k next v) ts2).
    now rewrite Hv. }
  assert (Hn1 : none_rejected settled_of p1).
  { apply (none_rejected_steps resume settled_of). intros _. exact H1. }
  assert (Hn2 : none_rejected settled_of p2).
  { apply (none_rejected_steps resume settled_of). intros _. exact H2. }
  pose proof (rejection_has_task l1 ts1 s1) as Hr1.
  pose proof (rejection_has_task l2 ts2 s2) as Hr2.
  pose proof (run_settles resume settled_of (fun t => awaits (view t)) k
                view_measure_settled view_measure_resume
                (fun t => awaitsV_bound (view t)) l1 (mkPool ts1 s1 None))
    as Hs1.
  fold p1 in Hr1, Hs1. fold p2 in Hr2.
  unfold Promise_all.
  destruct (rejection p1) as [[e1 snap1] |] eqn:E1;
    destruct (rejection p2) as [[e2 snap2] |] eqn:E2.
  - exact I.
  - destruct Hr1 as (j & t & e & Hj & Hs); [discriminate |].
    specialize (Hn2 E2).
    pose proof (not_rejected_view (tasks p2) (tasks p1) (eq_sym Hend) Hn2)
      as Hn.
    rewrite Forall_lookup in Hn. now destruct (Hn j t Hj e).
  - destruct Hr2 as (j & t & e & Hj & Hs); [discriminate |].
    specialize (Hn1 E1).
    pose proof (not_rejected_view (tasks p1) (tasks p2) Hend Hn1) as Hn.
    rewrite Forall_lookup in Hn. now destruct (Hn j t Hj e).
  - specialize (Hn1 E1).
    pose proof (values_of_settled settled_of (tasks p1) Hs1 Hn1) as Hval.
    rewrite <- (values_of_view (tasks p1) (tasks p2) Hend).
    destruct (values_of settled_of (tasks p1)); [reflexivity | congruence].
Qed.

End Confluence.

(** When [Promise.all] has its values, every task is fulfilled. *)
Lemma values_of_fulfilled {T A : Type} (settled_of : T -> option (result A))
    (ts : list T) (vs : list A) :
  values_of settled_of ts = Some vs ->
  forall j t, ts !! j = Some t -> exists a, settled_of t = Some (Ok a).
Proof.
  revert vs. induction ts as [| t0 ts IH]; intros vs H j t Hj;
    [discriminate |].
  simpl in H. destruct (settled_of t0) as [[a | e] |] eqn:E0; try discriminate.
  destruct (values_of settled_of ts) as [vs' |] eqn:Ev; [| discriminate].
  destruct j as [| j]; simpl in Hj.
  - injection Hj as <-. eauto.
  - now apply (IH vs' eq_refl j).
Qed.

(** ** The resolutions, in any order *)

Lemma resume_resolve_state (env : Collaborators) (req : Request.t)
    (t : rtask) (s : state) :
  fst (resume_resolve env req t s) = next_resolve env req t.
Proof.
  unfold next_resolve.
  destruct t as [tr b w [v | e] | tr b w [r | [e | n]] | tr ml [ls | [e | n]] | urls | e];
    simpl; try reflexivity.
  - unfold after_map. destruct (candidates env b r).
    destruct (truthy_string _); reflexivity.
  - unfold after_rank. destruct (cascade _ _ _). reflexivity.
Qed.

Lemma next_resolve_settled (env : Collaborators) (req : Request.t)
    (t : rtask) :
  rsettled t <> None -> next_resolve env req t = t.
Proof.
  unfold next_resolve. destruct t; simpl; intros H;
    try reflexivity; now destruct H.
Qed.

Lemma resolutions_join_alike (env : Collaborators) (req : Request.t)
    (l1 l2 : list nat) (ts : list rtask) (s : state) :
  Forall (fun t => forall e, rsettled t <> Some (Throw e)) ts ->
  match Promise_all rsettled
          (run (resume_resolve env req) rsettled 3 l1 (mkPool ts s None)),
        Promise_all rsettled
          (run (resume_resolve env req) rsettled 3 l2 (mkPool ts s None))
  with
  | AllFulfilled v1, AllFulfilled v2 => v1 = v2
  | FirstRejected _ _, FirstRejected _ _ => True
  | _, _ => False
  end.
Proof.
  intros H.
  apply (Promise_all_order (resume_resolve env req) rsettled (fun t => t)
           (next_resolve env req) rsettled rawaits 3).
  - reflexivity.
  - intros t s0 _. apply resume_resolve_state.
  - apply rawaits_settled.
  - intros v Hv. apply (rawaits_resume env req v initial_state Hv).
  - apply rawaits_bound.
  - apply next_resolve_settled.
  - reflexivity.
  - exact H.
Qed.

Lemma resolve_started_not_rejected (env : Collaborators) (req : Request.t)
    (urls : list string) (s : state) :
  Forall (fun t => forall e, rsettled t <> Some (Throw e))
    (fst (start_all (start_resolve env req) urls s)).
Proof.
  apply start_all_tasks. intros x s0 e. apply start_resolve_not_rejected.
Qed.

(** X14: the links handed to the fetch stage do not depend on the order
    in which the awaited calls of the resolutions settle; nor does
    whether there are any, a rephrasing failure ending the request in
    every order or in none. *)
Theorem links_order_independent (env : Collaborators) (req : Request.t)
    (resolve_order resolve_order' : list nat) :
  resolved_links env req resolve_order
  = resolved_links env req resolve_order'.
Proof.
  unfold resolved_links, resolve_all. simpl.
  destruct (start_all (start_resolve env req) _ _) as [ts s] eqn:E. simpl.
  pose proof (resolutions_join_alike env req resolve_order resolve_order'
                ts s) as H.
  assert (Hts : Forall (fun t => forall e, rsettled t <> Some (Throw e)) ts).
  { change ts with (fst (ts, s)). rewrite <- E.
    apply resolve_started_not_rejected. }
  specialize (H Hts).
  destruct (Promise_all rsettled _) as [v1 | e1 snap1 |];
    destruct (Promise_all rsettled _) as [v2 | e2 snap2 |];
    try contradiction; [now subst | reflexivity].
Qed.

(** ** The fetches, in any order *)

Lemma fsettled_forget_trace (t : ftask) :
  fsettled t = fsettled (forget_trace t).
Proof. destruct t; reflexivity. Qed.

Lemma fawaits_forget_trace (t : ftask) :
  fawaits (forget_trace t) = fawaits t.
Proof. destruct t; reflexivity. Qed.

Lemma resume_scrape_view (env : Collaborators) (req : Request.t)
    (t : ftask) (s : state) :
  forget_trace (fst (resume_scrape env req t s))
  = next_scrape env req (forget_trace t).
Proof.
  unfold next_scrape.
  destruct t as [tr u to j [v | e] | tr to j [v | [e | n]]
                | tr j [d | [e | n]] | tr d [v | [e | n]] | d | e];
    try reflexivity; destruct tr; reflexivity.
Qed.

Lemma next_scrape_settled (env : Collaborators) (req : Request.t)
    (t : ftask) :
  fsettled t <> None -> next_scrape env req t = t.
Proof.
  unfold next_scrape. destruct t; simpl; intros H;
    try reflexivity; now destruct H.
Qed.


(** *** Which URLs have a trace *)

Lemma has_trace_In (u : string) (l : list URLTrace.t) :
  has_trace u l = true <-> In u (List.map URLTrace.url l).
Proof.
  unfold has_trace, find_trace.
  induction l as [| t l IH]; simpl; [split; [discriminate | tauto] |].
  destruct (String.eqb (URLTrace.url t) u) eqn:E.
  - apply String.eqb_eq in E. tauto.
  - apply String.eqb_neq in E.
    destruct (find_index _ l) as [i |]; simpl in *.
    + split; [intros _; right; now apply IH | reflexivity].
    + split; [discriminate |]. intros [H | H]; [contradiction |].
      now apply IH.
Qed.

Lemma has_trace_same (u : string) (l l' : list URLTrace.t) :
  (forall x, In x (List.map URLTrace.url l)
             <-> In x (List.map URLTrace.url l')) ->
  has_trace u l = has_trace u l'.
Proof.
  intros H. pose proof (has_trace_In u l) as H1.
  pose proof (has_trace_In u l') as H2. specialize (H u).
  destruct (has_trace u l), (has_trace u l'); try reflexivity.
  - assert (false = true) by tauto. discriminate.
  - assert (false = true) by tauto. discriminate.
Qed.






(** *** The fetch tasks as they start *)

Lemma start_scrape_view (env : Collaborators) (req : Request.t)
    (url : string) (s : state) :
  forget_trace (fst (start_scrape env req url s))
  = FAwaitPriority (found (has_trace url (urlTraces s))) url
      (scrape_timeout (ExtractRequest.timeout (Request.body req))) (uuids s)
      (getJobPriority env (Request.plan req) (Request.team_id req) 10%Z)
  /\ uuids (snd (start_scrape env req url s)) = S (uuids s).
Proof.
  unfold start_scrape, has_trace.
  destruct (find_trace url (urlTraces s)); split; reflexivity.
Qed.

Lemma fetch_tasks_same (env : Collaborators) (req : Request.t) (jobId : nat)
    (l l' : list URLTrace.t) (links : list string) :
  (forall u, has_trace u l = has_trace u l') ->
  fetch_tasks env req jobId l links = fetch_tasks env req jobId l' links.
Proof.
  intros H. revert jobId.
  induction links as [| u us IH]; intros jobId; simpl; [reflexivity |].
  now rewrite IH, H.
Qed.

(** The fetch tasks started for the links: one for each link, under
    the job ids drawn in their order, each with the trace the ledger
    has for its link. *)
Lemma start_all_scrape_tasks (env : Collaborators) (req : Request.t)
    (links : list string) (s : state) :
  List.map forget_trace (fst (start_all (start_scrape env req) links s))
  = fetch_tasks env req (uuids s) (urlTraces s) links.
Proof.
  unfold start_all.
  assert (Hacc : forall ts s,
            List.map forget_trace
              (fst (List.fold_left
                      (fun '(ts, s) x =>
                         let '(t, s) := start_scrape env req x s in
                         (ts ++ [t], s))
                      links (ts, s)))
            = List.map forget_trace ts
              ++ fetch_tasks env req (uuids s) (urlTraces s) links).
  { induction links as [| u us IH]; intros ts s0;
      cbn [List.fold_left fst fetch_tasks].
    - now rewrite app_nil_r.
    - destruct (start_scrape_view env req u s0) as [Hv Hn].
      pose proof (map_url_start_scrape env req u s0) as Hm.
      destruct (start_scrape env req u s0) as [t s']. simpl in Hv, Hn, Hm.
      rewrite IH, map_app, Hn. simpl. rewrite Hv, <- app_assoc.
      f_equal. f_equal. apply fetch_tasks_same. intros x.
      apply has_trace_same. intros y. now rewrite Hm. }
  apply Hacc.
Qed.





Lemma uuids_track_discovered (us : list string) (s : state) :
  uuids (track_discovered us s) = uuids s.
Proof.
  revert s. induction us as [| u us IH]; intros s; [reflexivity |].
  rewrite track_discovered_cons, IH. destruct (existsb _ _); reflexivity.
Qed.

Lemma uuids_resume_resolve (env : Collaborators) (req : Request.t)
    (t : rtask) (s : state) :
  uuids (snd (resume_resolve env req t s)) = uuids s.
Proof.
  destruct t as [tr b w [v | e] | tr b w [r | e] | tr ml [ls | e] | urls | e];
    simpl; try reflexivity; try apply uuids_catch_resolve.
  - unfold after_map. destruct (candidates env b r).
    destruct (truthy_string _); simpl; apply uuids_track_discovered.
  - unfold after_rank. destruct (cascade _ _ _). reflexivity.
Qed.


(** Which resolution is rejected first does depend on the order: two
    pattern URLs whose rephrasing calls both fail, each with its own
    exception. *)
Example first_rejection_depends_on_order :
  let env :=
    {| isUrlBlocked := nothing_blocked;
       removeDuplicateUrls := dedupe_normalized;
       buildRefrasedPrompt := fun prompt url => (prompt ++ " " ++ url)%string;
       generateBasicCompletion := fun q => Throw (failure q);
       getMapResults := fun args => no_map (MapArgs.url args);
       performRanking := fun _ urls _ => no_rank urls;
       getJobPriority := fun _ _ base => Ok base;
       addScrapeJob := fun _ _ _ => Ok tt;
       waitForJob := fun jobId _ => job_done jobId;
       queue_remove := fun _ => Ok tt;
       buildDocument := fun d => EmptyString;
       generateOpenAICompletions :=
         fun _ _ => Ok (Completions.mk (Some "{}") None None) |} in
  let req :=
    sample_request ["https://a.example/*"; "https://b.example/*"]
      (Some "pricing") in
  fst (extractController env req [0]%nat [])
  = Rejected (failure "pricing https://a.example")
  /\ fst (extractController env req [1]%nat [])
     = Rejected (failure "pricing https://b.example").
Proof. vm_compute. split; reflexivity. Qed.

(** * The blocklist and the links *)

Lemma screened_start (env : Collaborators) (req : Request.t)
    (url : string) (s : state) :
  screened env (fst (start_resolve env req url s)).
Proof.
  unfold start_resolve. simpl. destruct (includes url "/*" || is_true _).
  - destruct (truthy_string _); [destruct (ExtractRequest.prompt _) |];
      exact I.
  - destruct (isUrlBlocked env url) eqn:Eb; simpl; repeat constructor.
    exact Eb.
Qed.

Lemma screened_resume (env : Collaborators) (req : Request.t)
    (t : rtask) (s : state) :
  truthy_string (ExtractRequest.prompt (Request.body req)) = true ->
  screened env t -> screened env (fst (resume_resolve env req t s)).
Proof.
  intros Hp.
  destruct t as [tr b w [v | e] | tr b w [r | [e | n]] | tr ml [ls | [e | n]] | urls | e];
    simpl; intros H; try exact I; try exact H; try constructor.
  - unfold after_map. destruct (candidates env b r). rewrite Hp. exact I.
  - pose proof (In_cascade (isUrlBlocked env) ml ls) as Hc.
    unfold after_rank. destruct (cascade _ _ _) as [fl ls']. simpl in *.
    apply List.Forall_forall. intros u Hu.
    apply in_map_iff in Hu as (d & <- & Hd). apply In_take in Hd.
    now destruct (Hc d Hd) as (_ & Hb & _).
Qed.

Lemma values_of_Forall {T A} (settled_of : T -> option (result A))
    (P : T -> Prop) (Q : A -> Prop) (ts : list T) (vs : list A) :
  (forall t a, P t -> settled_of t = Some (Ok a) -> Q a) ->
  Forall P ts -> values_of settled_of ts = Some vs -> List.Forall Q vs.
Proof.
  intros HPQ. revert vs. induction ts as [| t ts IH]; intros vs H; simpl.
  - intros [= <-]. constructor.
  - inversion H as [| ? ? Ht Hts]. subst.
    destruct (settled_of t) as [[a | e] |] eqn:Es; try discriminate.
    destruct (values_of settled_of ts) as [vs' |]; [| discriminate].
    intros [= <-]. constructor; [now apply (HPQ t) | now apply IH].
Qed.

(** X16: when the request has a prompt, no link handed to the fetch
    stage is blocked, in any order of resumption and whatever the map
    search and the ranker return: a literal URL is checked where it is
    resolved, and a candidate of a pattern where it is filtered. *)
Theorem prompted_links_unblocked (env : Collaborators) (req : Request.t)
    (resolve_order : list nat) (links : list string) :
  truthy_string (ExtractRequest.prompt (Request.body req)) = true ->
  resolved_links env req resolve_order = Some links ->
  List.Forall (fun u => isUrlBlocked env u = false) links.
Proof.
  intros Hp. unfold resolved_links, resolve_all. simpl.
  destruct (start_all (start_resolve env req) _ _) as [ts s] eqn:E. simpl.
  assert (Hts : Forall (screened env) ts).
  { change ts with (fst (ts, s)). rewrite <- E. apply start_all_tasks.
    intros x s0. apply screened_start. }
  pose proof (Inv_run (resume_resolve env req) rsettled
                (fun ts _ => Forall (screened env) ts)) as Hrun.
  specialize (Hrun ltac:(intros ts0 s0 i t H Hi _;
                         apply Forall_insert; [exact H |];
                         apply screened_resume; [exact Hp |];
                         rewrite Forall_lookup in H; now apply (H i))
                3%nat resolve_order (mkPool ts s None) Hts).
  unfold Promise_all. destruct (rejection _); [destruct p; discriminate |].
  destruct (values_of rsettled _) as [vs |] eqn:Ev; [| discriminate].
  intros [= <-].
  pose proof (values_of_Forall rsettled (screened env)
                (List.Forall (fun u => isUrlBlocked env u = false)) _ vs
                ltac:(intros t a Ht Hs; destruct t; simpl in *;
                      try discriminate; injection Hs as <-; exact Ht)
                Hrun Ev) as Hvs.
  unfold links_of. apply List.Forall_forall. intros u Hu.
  apply filter_In in Hu as [Hu _]. apply in_concat in Hu as (l & Hl & Hu).
  rewrite List.Forall_forall in Hvs. specialize (Hvs l Hl).
  rewrite List.Forall_forall in Hvs. now apply Hvs.
Qed.

(** A pattern whose only page is blocked, beside a literal URL. *)
Lemma prompted_links_unblocked_witness :
  List.Forall
    (fun u =>
       isUrlBlocked
         (sample_env (String.eqb "https://example.com/docs") no_rephrase
            (one_page "https://example.com/docs") (flat_score 0.9) job_done)
         u = false)
    ["https://example.com/page"].
Proof.
  apply (prompted_links_unblocked
           (sample_env (String.eqb "https://example.com/docs") no_rephrase
              (one_page "https://example.com/docs") (flat_score 0.9) job_done)
           (sample_request ["https://example.com/*"; "https://example.com/page"]
              (Some "pricing")) [0; 1; 0]%nat ["https://example.com/page"]).
  - reflexivity.
  - vm_compute. reflexivity.
Defined.

(** * The calls of the fetch stage *)

Lemma start_all_tasks_in {T X} (start : X -> state -> T * state)
    (Q : T -> Prop) (xs : list X) (s : state) :
  (forall x s, In x xs -> Q (fst (start x s))) ->
  Forall Q (fst (start_all start xs s)).
Proof.
  unfold start_all.
  assert (Hacc : forall ts s,
            (forall x s, In x xs -> Q (fst (start x s))) ->
            Forall Q ts ->
            Forall Q (fst (List.fold_left
                             (fun '(ts, s) x =>
                                let '(t, s) := start x s in (ts ++ [t], s))
                             xs (ts, s)))).
  { induction xs as [| x xs IH]; intros ts s0 Hstart H; simpl; [exact H |].
    pose proof (Hstart x s0 (or_introl eq_refl)) as Hx.
    destruct (start x s0) as [t s'].
    apply IH; [intros y s1 Hy; apply Hstart; now right |].
    apply Forall_app. split; [exact H | now constructor]. }
  intros Hstart. apply Hacc; [exact Hstart | constructor].
Qed.

Lemma fetch_call_for_resume (env : Collaborators) (req : Request.t)
    (links : list string) (t : ftask) (s : state) :
  fetching_for env req links t ->
  List.Forall (fetch_call_for env req links) (calls s) ->
  fetching_for env req links (fst (resume_scrape env req t s))
  /\ List.Forall (fetch_call_for env req links)
       (calls (snd (resume_scrape env req t s))).
Proof.
  intros Ht Hc.
  destruct t as [tr u to j [v | e] | tr to j [v | [e | n]]
                | tr j [d | [e | n]] | tr d [v | [e | n]] | d | e];
    simpl in *; try (split; [exact I | exact Hc]);
    try (split; [exact I |]; destruct tr; exact Hc);
    try (destruct tr; simpl; (split; [exact I | exact Hc])).
  - destruct Ht as (Hu & -> & Hp). split; [reflexivity |].
    apply Forall_app. split; [exact Hc |]. constructor; [| constructor].
    simpl. split; [eauto | now symmetry].
  - split; [exact I |]. apply Forall_app. split; [exact Hc |].
    constructor; [exact Ht | constructor].
  - split; [exact I |]. apply Forall_app. split; [exact Hc |].
    now repeat constructor.
Qed.

(** X17: every call of the fetch stage is made for a resolved link, in
    any order of resumption: a job is submitted only for a link, in mode
    [single_urls] with the team, plan and origin of the request, and
    with the priority the lookup returned; and every wait has the
    timeout derived from the request timeout. *)
Theorem fetch_calls_for_links (env : Collaborators) (req : Request.t)
    (resolve_order scrape_order : list nat) (links : list string) :
  resolved_links env req resolve_order = Some links ->
  List.Forall (fetch_call_for env req links)
    (calls (snd (extractController env req resolve_order scrape_order))).
Proof.
  pose proof (resolve_all_no_fetch env req resolve_order) as Hno.
  unfold resolved_links, extractController.
  destruct (resolve_all env req resolve_order) as [id p]. simpl in Hno |- *.
  assert (Hp : List.Forall (fetch_call_for env req links) (calls (pstate p))).
  { eapply List.Forall_impl; [| exact Hno].
    intros c Hc. destruct c; simpl in *; try exact I; discriminate. }
  destruct (Promise_all rsettled p) as [vs | e snap |]; try discriminate.
  intros [= <-].
  destruct (length (links_of vs) =? 0)%nat; [exact Hp |].
  unfold scrape_all.
  pose proof (start_all_tasks_in (start_scrape env req)
                (fetching_for env req (links_of vs)) (links_of vs) (pstate p))
    as Hts.
  specialize (Hts ltac:(intros x s0 Hx; unfold start_scrape; simpl;
                        repeat split; exact Hx)).
  pose proof (calls_start_all_scrape env req (links_of vs) (pstate p)) as Hcs.
  destruct (start_all (start_scrape env req) _ _) as [fs s2].
  simpl in Hts, Hcs.
  assert (Hs2 : List.Forall (fetch_call_for env req (links_of vs)) (calls s2)).
  { rewrite Hcs. apply Forall_app. split; [exact Hp |].
    apply List.Forall_forall. intros c Hc. apply repeat_spec in Hc.
    subst c. exact I. }
  pose proof (Inv_run (resume_scrape env req) fsettled
                (fun ts s =>
                   Forall (fetching_for env req (links_of vs)) ts
                   /\ List.Forall (fetch_call_for env req (links_of vs))
                        (calls s))) as Hrun.
  specialize (Hrun ltac:(intros ts0 s0 i t [H1 H2] Hi _;
                         assert (Ht : fetching_for env req (links_of vs) t)
                           by (rewrite Forall_lookup in H1; now apply (H1 i));
                         destruct (fetch_call_for_resume env req (links_of vs)
                                     t s0 Ht H2) as [H3 H4];
                         split; [now apply Forall_insert | exact H4])
                4%nat scrape_order (mkPool fs s2 None) (conj Hts Hs2)).
  destruct Hrun as [_ Hend].
  destruct (Promise_all fsettled _) as [ds | [e | n] snap |];
    try exact Hend.
  unfold complete. simpl.
  destruct (generateOpenAICompletions env _ _) as [c | e]; simpl;
    rewrite <- ?app_assoc; (apply Forall_app; split; [exact Hend |]);
    repeat constructor.
Qed.

(** Two literal URLs and a timeout of 10000. *)
Lemma fetch_calls_for_links_witness :
  let env := sample_env nothing_blocked no_rephrase no_map no_rank job_done in
  let req :=
    Request.mk
      (ExtractRequest.mk ["https://example.com/a"; "https://example.com/b"]
         None None None None None None (Some 10000%float) None)
      "team" None None in
  List.Forall
    (fetch_call_for env req ["https://example.com/a"; "https://example.com/b"])
    (calls (snd (extractController env req [] [1; 1; 0]%nat))).
Proof.
  apply (fetch_calls_for_links
           (sample_env nothing_blocked no_rephrase no_map no_rank job_done)
           (Request.mk
              (ExtractRequest.mk
                 ["https://example.com/a"; "https://example.com/b"]
                 None None None None None None (Some 10000%float) None)
              "team" None None) [] [1; 1; 0]%nat
           ["https://example.com/a"; "https://example.com/b"]).
  vm_compute. reflexivity.
Defined.

(** * The documents handed to the completion *)

Lemma values_of_forget_trace (ts : list ftask) :
  values_of fsettled ts = values_of fsettled (List.map forget_trace ts).
Proof.
  induction ts as [| t ts IH]; simpl; [reflexivity |].
  now rewrite IH, fsettled_forget_trace.
Qed.

(** The course of a fetch whose priority lookup has succeeded. *)
Lemma fetch_task_settles (env : Collaborators) (req : Request.t)
    (priority : Z) (jobId : nat) (traced : bool) (url : string) :
  Nat.iter 4 (next_scrape env req)
    (FAwaitPriority (found traced) url
       (scrape_timeout (ExtractRequest.timeout (Request.body req))) jobId
       (Ok priority))
  = fetch_ended (fetch_outcome env req priority jobId traced url).
Proof.
  unfold fetch_outcome, next_scrape, fetch_caught. simpl.
  destruct (addScrapeJob env _ _ _) as [x | [e | n]]; simpl;
    [| destruct traced; reflexivity ..].
  destruct (waitForJob env _ _) as [d | [e | n]]; simpl;
    [| destruct traced; reflexivity ..].
  destruct (queue_remove env _) as [y | [e | n]]; simpl;
    destruct traced; reflexivity.
Qed.

Lemma fetch_tasks_settle (env : Collaborators) (req : Request.t)
    (priority : Z) (jobId : nat) (urlTraces : list URLTrace.t)
    (links : list string) :
  getJobPriority env (Request.plan req) (Request.team_id req) 10%Z
  = Ok priority ->
  List.map (fun v => Nat.iter 4 (next_scrape env req) v)
    (fetch_tasks env req jobId urlTraces links)
  = List.map fetch_ended
      (fetch_outcomes env req priority jobId urlTraces links).
Proof.
  intros Hp. revert jobId.
  induction links as [| u us IH]; intros jobId;
    cbn [fetch_tasks fetch_outcomes List.map]; [reflexivity |].
  rewrite Hp, fetch_task_settles, IH. reflexivity.
Qed.

(** The documents of the fetches are the values of the tasks they end
    as, [null] left out. *)
Lemma fetched_documents_values (os : list (result (option Document.t))) :
  fetched_documents os
  = option_map defined (values_of fsettled (List.map fetch_ended os)).
Proof.
  induction os as [| [d | v] os IH]; simpl; [reflexivity | | reflexivity].
  rewrite IH. destruct (values_of fsettled _) as [vs |]; simpl;
    [| reflexivity].
  destruct d; reflexivity.
Qed.

Lemma uuids_start_resolve (env : Collaborators) (req : Request.t)
    (url : string) (s : state) :
  uuids (snd (start_resolve env req url s)) = uuids s.
Proof.
  unfold start_resolve. simpl. destruct (includes url "/*" || is_true _).
  - destruct (truthy_string _); [destruct (ExtractRequest.prompt _) |];
      reflexivity.
  - destruct (negb _); reflexivity.
Qed.

Lemma resolve_all_ids (env : Collaborators) (req : Request.t)
    (resolve_order : list nat) :
  fst (resolve_all env req resolve_order) = 0%nat
  /\ uuids (pstate (snd (resolve_all env req resolve_order))) = 1%nat.
Proof.
  unfold resolve_all. simpl.
  destruct (start_all (start_resolve env req) _ _) as [ts s] eqn:E. simpl.
  split; [reflexivity |].
  apply (run_preserves (resume_resolve env req) rsettled
           (fun s' => uuids s' = 1%nat)).
  - intros t s0 Hs0. now rewrite uuids_resume_resolve.
  - simpl. change s with (snd (ts, s)). rewrite <- E.
    apply (start_all_preserves (fun s' => uuids s' = 1%nat));
      [| reflexivity].
    intros x s0 Hs0. now rewrite uuids_start_resolve.
Qed.

(** X18: when there are links and the priority lookup succeeds, the
    request ends, in every order of resumption, in one of two ways,
    according to what the fetches of the links yield.  The fetch of a
    link yields its document only when [addScrapeJob], [waitForJob] and
    the removal from the queue all succeed, so a document that was
    fetched is left out when its job cannot be removed; where one of the
    three is rejected it yields [null], unless the link has a trace and
    the rejection is with [null] or [undefined], on which the [catch]
    throws.  When no [catch] throws, the request ends as the completion
    over the documents the fetches yielded, in the order of the links;
    when one does, it ends with the error response of lines 324-328,
    with neither a status nor an error text.  The request has the first
    id drawn, and the jobs the ids drawn after it, one for each link. *)
Theorem documents_are_successful_fetches (env : Collaborators)
    (req : Request.t) (resolve_order scrape_order : list nat)
    (links : list string) (priority : Z) :
  resolved_links env req resolve_order = Some links ->
  links <> [] ->
  getJobPriority env (Request.plan req) (Request.team_id req) 10%Z
  = Ok priority ->
  match
    fetched_documents
      (fetch_outcomes env req priority 1
         (urlTraces (pstate (snd (resolve_all env req resolve_order))))
         links)
  with
  | Some docs =>
      exists s,
        extractController env req resolve_order scrape_order
        = complete env req 0 links docs s
  | None =>
      exists snapshot s,
        extractController env req resolve_order scrape_order
        = (Responded None (Response.mk false None None None None snapshot), s)
  end.
Proof.
  intros Hlinks Hne Hp.
  destruct (resolve_all_ids env req resolve_order) as [Hid Hu].
  unfold extractController, resolved_links in *.
  destruct (resolve_all env req resolve_order) as [id p]. simpl in *.
  subst id.
  destruct (Promise_all rsettled p) as [vs | e snap |]; try discriminate.
  injection Hlinks as <-.
  destruct (length (links_of vs) =? 0)%nat eqn:El.
  { apply Nat.eqb_eq in El.
    destruct (links_of vs); [congruence | discriminate]. }
  unfold scrape_all.
  pose proof (start_all_scrape_tasks env req (links_of vs) (pstate p)) as Hv.
  rewrite Hu in Hv.
  pose proof (scrape_rejection_is_failure env req (links_of vs) scrape_order
                (pstate p)) as Hf.
  pose proof (start_all_tasks (start_scrape env req)
                (fun t => forall e, fsettled t <> Some (Throw e))
                (links_of vs) (pstate p)
                (start_scrape_not_rejected env req)) as Hn.
  destruct (start_all (start_scrape env req) _ _) as [fs s2] eqn:E2.
  simpl in Hv, Hf, Hn.
  pose proof (run_views (resume_scrape env req) fsettled forget_trace
                (next_scrape env req) fsettled fawaits 4
                fsettled_forget_trace
                (fun t s0 _ => resume_scrape_view env req t s0)
                fawaits_settled) as Hviews.
  specialize (Hviews ltac:(intros v Hv0; unfold next_scrape;
                           rewrite fawaits_forget_trace;
                           apply (fawaits_resume env req v initial_state Hv0))
                fawaits_bound (next_scrape_settled env req)
                scrape_order (mkPool fs s2 None)).
  simpl in Hviews.
  rewrite <- (map_map forget_trace (fun v => Nat.iter 4 (next_scrape env req) v))
    in Hviews.
  rewrite Hv, (fetch_tasks_settle env req priority _ _ _ Hp) in Hviews.
  rewrite fetched_documents_values, <- Hviews, <- values_of_forget_trace.
  pose proof (Promise_all_settles (resume_scrape env req) fsettled fawaits 4
                fawaits_settled (fawaits_resume env req) fawaits_bound
                scrape_order (mkPool fs s2 None) (fun _ => Hn)) as Hset.
  pose proof (rejection_has_task (resume_scrape env req) fsettled 4
                scrape_order fs s2) as Hrej.
  unfold Promise_all in *.
  destruct (rejection (run _ _ _ _ _)) as [[v snap] |] eqn:Er.
  - destruct Hrej as (j & t & e & Hj & Ht); [discriminate |].
    destruct (values_of fsettled _) as [ds |] eqn:Ev.
    { pose proof (values_of_fulfilled fsettled _ _ Ev j t Hj) as [a Ha].
      congruence. }
    simpl.
    destruct (Hf v snap eq_refl) as [H | (n & -> & _)]; [congruence |].
    eexists. eexists. reflexivity.
  - destruct (values_of fsettled _) as [ds |]; [| congruence].
    simpl. eexists. reflexivity.
Qed.

(** Two literal URLs; the queue does not let the job of the second be
    removed. *)
Lemma documents_are_successful_fetches_witness :
  let env :=
    {| isUrlBlocked := nothing_blocked;
       removeDuplicateUrls := dedupe_normalized;
       buildRefrasedPrompt := fun prompt url => (prompt ++ " " ++ url)%string;
       generateBasicCompletion := fun _ => no_rephrase;
       getMapResults := fun args => no_map (MapArgs.url args);
       performRanking := fun _ urls _ => no_rank urls;
       getJobPriority := fun _ _ base => Ok base;
       addScrapeJob := fun _ _ _ => Ok tt;
       waitForJob := fun jobId _ => job_done jobId;
       queue_remove :=
         fun jobId =>
           if (jobId =? 2)%nat then Throw (failure "Missing lock") else Ok tt;
       buildDocument := fun d => EmptyString;
       generateOpenAICompletions :=
         fun _ _ => Ok (Completions.mk (Some "{}") None None) |} in
  let req :=
    sample_request ["https://example.com/a"; "https://example.com/b"] None in
  match
    fetched_documents
      (fetch_outcomes env req 10 1
         (urlTraces (pstate (snd (resolve_all env req []))))
         ["https://example.com/a"; "https://example.com/b"])
  with
  | Some docs =>
      exists s,
        extractController env req [] [1; 1; 1; 0]%nat
        = complete env req 0
            ["https://example.com/a"; "https://example.com/b"] docs s
  | None =>
      exists snapshot s,
        extractController env req [] [1; 1; 1; 0]%nat
        = (Responded None (Response.mk false None None None None snapshot), s)
  end.
Proof.
  intros env req.
  refine (documents_are_successful_fetches env req [] [1; 1; 1; 0]%nat
            ["https://example.com/a"; "https://example.com/b"] 10%Z _ _ _).
  - vm_compute. reflexivity.
  - discriminate.
  - reflexivity.
Defined.
(** * The responses of the controller *)

(** X19: every response the controller sends has one of four shapes,
    in every order of resumption.  It is the 400 with the no-links
    message and nothing else beside the ledger, sent when no link was
    resolved; or it is a 200 that reports success, with data, the id of
    the request and no error; or it reports what [getJobPriority]
    threw, with the status and the error of that exception, no success
    and no data; or, the priority lookup having succeeded, it reports
    the [TypeError] of the [catch] of a fetch that [addScrapeJob],
    [waitForJob] or the removal from the queue rejected with [null] or
    [undefined]: with neither a status nor an error text, no success
    and no data.  No response without success carries data. *)
Theorem response_shapes (env : Collaborators) (req : Request.t)
    (resolve_order scrape_order : list nat) :
  match fst (extractController env req resolve_order scrape_order) with
  | Responded status body =>
      (status = Some 400%Z
       /\ resolved_links env req resolve_order = Some []
       /\ body = Response.mk false None None None (Some NO_LINKS_ERROR)
                   (Response.urlTrace body))
      \/ (status = Some 200%Z
          /\ Response.success body = true
          /\ Response.data body <> None
          /\ Response.scrape_id body = Some 0%nat
          /\ Response.error body = None)
      \/ (exists e : Exn.t,
            getJobPriority env (Request.plan req) (Request.team_id req) 10%Z
            = Throw (Obj e)
            /\ status = Exn.status e
            /\ body = Response.mk false None None None (Exn.error e)
                        (Response.urlTrace body))
      \/ (exists n,
            (exists priority,
               getJobPriority env (Request.plan req) (Request.team_id req)
                 10%Z = Ok priority)
            /\ ((exists job jobId priority,
                   addScrapeJob env job jobId priority = Throw (Nullish n))
                \/ (exists jobId timeout,
                      waitForJob env jobId timeout = Throw (Nullish n))
                \/ (exists jobId, queue_remove env jobId = Throw (Nullish n)))
            /\ status = None
            /\ body = Response.mk false None None None None
                        (Response.urlTrace body))
  | Rejected _ | Unfinished => True
  end.
Proof.
  destruct (resolve_all_ids env req resolve_order) as [Hid _].
  unfold extractController, resolved_links.
  destruct (resolve_all env req resolve_order) as [id p]. simpl in *.
  subst id.
  destruct (Promise_all rsettled p) as [vs | e snap |]; simpl; try exact I.
  destruct (length (links_of vs) =? 0)%nat eqn:El; simpl.
  { left. apply Nat.eqb_eq in El.
    destruct (links_of vs); [auto | discriminate]. }
  unfold scrape_all.
  pose proof (scrape_rejection_is_failure env req (links_of vs) scrape_order
                (pstate p)) as Hb.
  destruct (start_all (start_scrape env req) _ _) as [fs s2]. simpl in Hb.
  unfold Promise_all.
  destruct (rejection _) as [[[e | n] snap] |]; simpl; [| exact I |].
  { destruct (Hb e snap eq_refl) as [H | (n & He & Hp & Hn)].
    - right. right. left. exists e. auto.
    - right. right. right. exists n. injection He as ->. auto. }
  destruct (values_of fsettled _) as [ds |]; simpl; [| exact I].
  unfold complete. simpl.
  destruct (generateOpenAICompletions env _ _) as [c | e]; simpl;
    [| exact I].
  right. left. repeat split. discriminate.
Qed.

(** The fourth shape occurs: the wait for the job of a literal URL, which
    has a trace, is rejected with [null]. *)
Example null_rejection_reported :
  exists ledger,
    fst (extractController
           (sample_env nothing_blocked no_rephrase no_map no_rank
              (fun _ => Throw (Nullish null)))
           (sample_request ["https://example.com/a"] None) [] [])
    = Responded None (Response.mk false None None None None ledger).
Proof. eexists. vm_compute. reflexivity. Qed.

(** * The traces of the links, once the fetches have started *)

Lemma found_marked_alter (P : string -> Prop) (f : URLTrace.t -> URLTrace.t)
    (j : nat) (l : list URLTrace.t) :
  (forall x, URLTrace.url (f x) = URLTrace.url x) ->
  (forall x, fetch_marked x -> fetch_marked (f x)) ->
  found_marked P l -> found_marked P (alter f j l).
Proof.
  intros Hu Hm H u i HP Hi.
  rewrite (find_trace_urls u (alter f j l) l) in Hi
    by now apply map_url_alter.
  destruct (H u i HP Hi) as (t & Ht & Hut & Hmt).
  destruct (Nat.eq_dec j i) as [-> | Hne].
  - exists (f t). rewrite list_lookup_alter_eq, Ht. simpl.
    split; [reflexivity |]. split; [now rewrite Hu | now apply Hm].
  - exists t. rewrite list_lookup_alter_ne by exact Hne. auto.
Qed.

Lemma found_marked_update_found (P : string -> Prop) (v : string)
    (f : URLTrace.t -> URLTrace.t) (l : list URLTrace.t) :
  (forall x, URLTrace.url (f x) = URLTrace.url x) ->
  (forall x, fetch_marked x -> fetch_marked (f x)) ->
  found_marked P l -> found_marked P (update_found v f l).
Proof.
  intros Hu Hm H. unfold update_found.
  destruct (find_trace v l); [now apply found_marked_alter | exact H].
Qed.

(** Starting the fetch of a URL marks its trace. *)
Lemma found_marked_start_scrape (env : Collaborators) (req : Request.t)
    (P : string -> Prop) (url : string) (s : state) :
  found_marked P (urlTraces s) ->
  found_marked (fun v => v = url \/ P v)
    (urlTraces (snd (start_scrape env req url s))).
Proof.
  intros H u i HP Hi.
  rewrite (find_trace_urls u _ (urlTraces s)) in Hi
    by apply map_url_start_scrape.
  unfold start_scrape.
  destruct (find_trace url (urlTraces s)) as [i0 |] eqn:E0; simpl.
  - destruct (Nat.eq_dec i0 i) as [-> | Hne].
    + apply find_trace_Some in Hi as (t & Ht & Hut).
      eexists. rewrite list_lookup_alter_eq, list_lookup_alter_eq, Ht. simpl.
      split; [reflexivity |]. split; [exact Hut |].
      split; [now left | discriminate].
    + rewrite !list_lookup_alter_ne by exact Hne.
      destruct HP as [-> | HP]; [congruence |]. now apply (H u i).
  - destruct HP as [-> | HP]; [congruence |]. now apply (H u i).
Qed.

Lemma found_marked_start_all (env : Collaborators) (req : Request.t)
    (links : list string) (s : state) :
  found_marked (fun v => In v links)
    (urlTraces (snd (start_all (start_scrape env req) links s))).
Proof.
  rewrite start_all_state.
  assert (Hacc : forall (P : string -> Prop) s,
            found_marked P (urlTraces s) ->
            found_marked (fun v => In v links \/ P v)
              (urlTraces
                 (List.fold_left (fun s x => snd (start_scrape env req x s))
                    links s))).
  { induction links as [| u us IH]; intros P s0 H; cbn [List.fold_left].
    - intros v i [[] | HP]. now apply H.
    - pose proof (IH _ _ (found_marked_start_scrape env req P u s0 H)) as H'.
      intros v i HP Hi. apply H'; [| exact Hi].
      destruct HP as [[<- | Hv] | HP]; auto. }
  pose proof (Hacc (fun _ => False) s) as H.
  intros v i Hv. apply H; [| now left]. intros u j [].
Qed.

Lemma fetch_marked_kept (x y : URLTrace.t) :
  URLTrace.status y = URLTrace.status x
  \/ URLTrace.status y = Status.scraped \/ URLTrace.status y = Status.error ->
  Timing.scrapedAt (URLTrace.timing y) = Timing.scrapedAt (URLTrace.timing x) ->
  fetch_marked x -> fetch_marked y.
Proof.
  unfold fetch_marked. intros Hs -> [H1 H2]. split; [| exact H2].
  destruct Hs as [-> | Hs]; assumption.
Qed.

Lemma found_marked_catch_scrape (P : string -> Prop) (trace : option nat)
    (v : thrown) (s : state) :
  found_marked P (urlTraces s) ->
  found_marked P (urlTraces (snd (catch_scrape trace v s))).
Proof.
  intros H.
  destruct (catch_scrape_state trace v s) as [-> | (i & f & -> & Hf)];
    [exact H |].
  simpl. apply found_marked_alter; [apply Hf | | exact H].
  intros x. apply fetch_marked_kept.
  - right. right. apply Hf.
  - f_equal. apply Hf.
Qed.

Lemma found_marked_resume_scrape (env : Collaborators) (req : Request.t)
    (P : string -> Prop) (t : ftask) (s : state) :
  found_marked P (urlTraces s) ->
  found_marked P (urlTraces (snd (resume_scrape env req t s))).
Proof.
  intros H.
  destruct t as [tr u to j [v | e] | tr to j [v | e] | tr j [d | e]
                | tr d [v | e] | d | e];
    simpl; try exact H; try (now apply found_marked_catch_scrape).
  destruct tr as [i |]; simpl; [| exact H].
  apply found_marked_alter;
    [reflexivity | intros x; apply fetch_marked_kept; simpl; auto |].
  apply found_marked_alter;
    [reflexivity | intros x; apply fetch_marked_kept; simpl; auto | exact H].
Qed.

Lemma found_marked_attribute_tokens (P : string -> Prop)
    (n : option float) (docs : list Document.t) (l : list URLTrace.t) :
  found_marked P l -> found_marked P (attribute_tokens n docs l).
Proof.
  intros H. unfold attribute_tokens. destruct n as [n |]; [| exact H].
  destruct (truthy n); [| exact H].
  generalize (totalLength docs). intros total. revert l H.
  induction docs as [| d docs IH]; intros l H; simpl; [exact H |].
  apply IH. unfold attribute_doc.
  destruct (truthy_string _); [| exact H].
  destruct (Document.sourceURL d) as [u |]; [| exact H].
  apply found_marked_update_found; [apply url_set_tokensUsed | | exact H].
  intros x. apply fetch_marked_kept; unfold URLTrace.set_tokensUsed;
    destruct (URLTrace.contentStats x); simpl; auto.
Qed.

(** X20: once the fetches have started, the ledger shows a fetch for
    every link that has a trace, and the other links have none.  In
    every order of resumption, in the ledger the controller leaves and
    in the ledger of the response, the trace [urlTraces.find] returns
    for a link, where it returns one, has status [scraped] or [error]
    and a [scrapedAt] time, whether the fetch went well or not, and
    whether or not the priority lookup failed before any job was
    submitted; and the traces are for the URLs the resolutions left
    traces for, in the same order: no trace is added for a link that
    had none, such as the base URL taken when a map search finds
    nothing (lines 130-132). *)
Theorem fetched_links_marked (env : Collaborators) (req : Request.t)
    (resolve_order scrape_order : list nat) (links : list string) :
  resolved_links env req resolve_order = Some links ->
  links <> [] ->
  (found_marked (fun u => In u links)
     (urlTraces (snd (extractController env req resolve_order scrape_order)))
   /\ List.map URLTrace.url
        (urlTraces
           (snd (extractController env req resolve_order scrape_order)))
      = List.map URLTrace.url
          (urlTraces (pstate (snd (resolve_all env req resolve_order)))))
  /\ forall l,
       sent_ledger (fst (extractController env req resolve_order scrape_order))
       = Some l ->
       found_marked (fun u => In u links) l
       /\ List.map URLTrace.url l
          = List.map URLTrace.url
              (urlTraces (pstate (snd (resolve_all env req resolve_order)))).
Proof.
  intros Hlinks Hne. unfold extractController, resolved_links in *.
  destruct (resolve_all env req resolve_order) as [id p]. simpl in *.
  destruct (Promise_all rsettled p) as [vs | e snap |]; try discriminate.
  injection Hlinks as <-.
  destruct (length (links_of vs) =? 0)%nat eqn:El.
  { apply Nat.eqb_eq in El.
    destruct (links_of vs); [congruence | discriminate]. }
  unfold scrape_all.
  pose proof (found_marked_start_all env req (links_of vs) (pstate p)) as Hs2.
  pose proof (start_all_preserves
                (fun s' => List.map URLTrace.url (urlTraces s')
                           = List.map URLTrace.url (urlTraces (pstate p)))
                (start_scrape env req) (links_of vs) (pstate p)
                ltac:(intros x s0 Hs0;
                      exact (eq_trans (map_url_start_scrape env req x s0)
                               Hs0))
                eq_refl) as Hu2.
  destruct (start_all (start_scrape env req) _ _) as [fs s2].
  simpl in Hs2, Hu2.
  destruct (run_snapshot (resume_scrape env req) fsettled
              (fun l => found_marked (fun u => In u (links_of vs)) l
                        /\ List.map URLTrace.url l
                           = List.map URLTrace.url (urlTraces (pstate p)))
              ltac:(intros t s0 [H1 H2];
                    split; [now apply found_marked_resume_scrape
                           | exact (eq_trans
                                      (map_url_resume_scrape env req t s0)
                                      H2)])
              4 scrape_order fs s2 (conj Hs2 Hu2)) as [Hp' Hsnap].
  unfold Promise_all.
  destruct (rejection _) as [[[e | n] snap] |].
  - split; [exact Hp' |]. simpl. intros l [= <-]. now apply (Hsnap e).
  - split; [exact Hp' | discriminate].
  - destruct (values_of fsettled _) as [ds |];
      [| split; [exact Hp' | discriminate]].
    unfold complete. simpl.
    destruct (generateOpenAICompletions env _ _) as [c | e]; simpl.
    + assert (H : found_marked (fun u => In u (links_of vs))
                    (attribute_tokens (Completions.numTokens c) (defined ds)
                       (urlTraces
                          (pstate
                             (run (resume_scrape env req) fsettled 4
                                scrape_order (mkPool fs s2 None)))))
                  /\ List.map URLTrace.url
                       (attribute_tokens (Completions.numTokens c)
                          (defined ds)
                          (urlTraces
                             (pstate
                                (run (resume_scrape env req) fsettled 4
                                   scrape_order (mkPool fs s2 None)))))
                     = List.map URLTrace.url (urlTraces (pstate p))).
      { split; [now apply found_marked_attribute_tokens |].
        rewrite map_url_attribute_tokens. apply Hp'. }
      split; [exact H |]. intros l [= <-]. exact H.
    + split; [exact Hp' | discriminate].
Qed.

(** A literal URL whose fetch times out, beside a pattern URL whose map
    search finds nothing: the base URL is fetched, and has no trace. *)
Lemma fetched_links_marked_witness :
  let env :=
    sample_env nothing_blocked no_rephrase
      (fun _ => Ok (MapResult.mk [] [])) no_rank
      (fun jobId => if (jobId =? 1)%nat then job_timeout jobId
                    else job_done jobId) in
  let req :=
    sample_request ["https://example.com/a"; "https://example.org/*"] None in
  (found_marked
     (fun u => In u ["https://example.com/a"; "https://example.org"])
     (urlTraces (snd (extractController env req [] [0; 1; 1]%nat)))
   /\ List.map URLTrace.url
        (urlTraces (snd (extractController env req [] [0; 1; 1]%nat)))
      = List.map URLTrace.url
          (urlTraces (pstate (snd (resolve_all env req [])))))
  /\ forall l,
       sent_ledger (fst (extractController env req [] [0; 1; 1]%nat)) = Some l ->
       found_marked
         (fun u => In u ["https://example.com/a"; "https://example.org"]) l
       /\ List.map URLTrace.url l
          = List.map URLTrace.url
              (urlTraces (pstate (snd (resolve_all env req [])))).
Proof.
  intros env req.
  apply (fetched_links_marked env req [] [0; 1; 1]%nat
           ["https://example.com/a"; "https://example.org"]).
  - vm_compute. reflexivity.
  - discriminate.
Defined.

(** The base URL of the pattern is fetched, and the ledger has no trace
    for it at the end. *)
Example fallback_link_untraced :
  let env :=
    sample_env nothing_blocked no_rephrase
      (fun _ => Ok (MapResult.mk [] [])) no_rank job_done in
  let req := sample_request ["https://example.org/*"] None in
  resolved_links env req [] = Some ["https://example.org"]
  /\ In (Call_waitForJob 1 (scrape_timeout None))
       (calls (snd (extractController env req [] [])))
  /\ has_trace "https://example.org"
       (urlTraces (snd (extractController env req [] []))) = false.
Proof.
  split; [vm_compute; reflexivity |]. split; [| vm_compute; reflexivity].
  vm_compute. auto 10.
Qed.

(** * The marks the relevance filter leaves in the ledger *)

Lemma lookup_update_found (u : string) (f : URLTrace.t -> URLTrace.t)
    (l : list URLTrace.t) (i : nat) (t : URLTrace.t) :
  l !! i = Some t ->
  update_found u f l !! i = Some t
  \/ (URLTrace.url t = u /\ find_trace u l = Some i
      /\ update_found u f l !! i = Some (f t)).
Proof.
  intros Hi. unfold update_found.
  destruct (find_trace u l) as [j |] eqn:Ej; [| now left].
  destruct (Nat.eq_dec j i) as [-> | Hne].
  - right. apply find_trace_Some in Ej as (x & Hx & Hu).
    rewrite Hi in Hx. injection Hx as <-.
    rewrite list_lookup_alter_eq, Hi. auto.
  - left. now rewrite list_lookup_alter_ne.
Qed.

(** What holds of a trace, and is kept by every write to a trace of its
    URL, holds after the loop. *)
Lemma fold_update_found_kept {A} (R : URLTrace.t -> Prop) (g : A -> string)
    (f : A -> URLTrace.t -> URLTrace.t) (xs : list A) (l : list URLTrace.t)
    (i : nat) (t : URLTrace.t) :
  (forall a x, In a xs -> URLTrace.url x = g a -> R x -> R (f a x)) ->
  l !! i = Some t -> R t ->
  exists t',
    List.fold_left (fun traces a => update_found (g a) (f a) traces) xs l !! i
    = Some t'
    /\ R t'.
Proof.
  revert l t. induction xs as [| a xs IH]; intros l t Hf Hi Ht; simpl;
    [eauto |].
  assert (Hf' : forall b x, In b xs -> URLTrace.url x = g b -> R x -> R (f b x))
    by (intros b x Hb; apply Hf; now right).
  destruct (lookup_update_found (g a) (f a) l i t Hi)
    as [H1 | (Hu & _ & H1)].
  - now apply (IH _ t).
  - apply (IH _ (f a t)); [exact Hf' | exact H1 |].
    apply Hf; [now left | exact Hu | exact Ht].
Qed.

(** What every write for a URL establishes holds, after the loop, of
    the trace found for that URL, if the loop writes for it at all. *)
Lemma fold_update_found_set {A} (R : URLTrace.t -> Prop) (g : A -> string)
    (f : A -> URLTrace.t -> URLTrace.t) (xs : list A) (l : list URLTrace.t)
    (a0 : A) (i : nat) :
  (forall a x, URLTrace.url (f a x) = URLTrace.url x) ->
  (forall a x, In a xs -> URLTrace.url x = g a -> g a = g a0 -> R (f a x)) ->
  (forall a x, In a xs -> URLTrace.url x = g a -> g a <> g a0 -> R x ->
               R (f a x)) ->
  In a0 xs -> find_trace (g a0) l = Some i ->
  exists t',
    List.fold_left (fun traces a => update_found (g a) (f a) traces) xs l !! i
    = Some t'
    /\ R t'.
Proof.
  intros Hu. revert l. induction xs as [| a xs IH];
    intros l Hset Hkeep Hin Hi; [destruct Hin |].
  assert (Hkeep' : forall b x, In b (a :: xs) -> URLTrace.url x = g b ->
                               R x -> R (f b x)).
  { intros b x Hb Hx HR. destruct (string_dec (g b) (g a0)) as [E | E].
    - now apply Hset.
    - now apply Hkeep. }
  assert (Hnext : find_trace (g a0) (update_found (g a) (f a) l) = Some i).
  { rewrite (find_trace_urls _ _ l); [exact Hi |].
    apply map_url_update_found, Hu. }
  cbn [List.fold_left].
  destruct (string_dec (g a) (g a0)) as [E | E].
  - pose proof (find_trace_Some _ _ _ Hi) as (t & Ht & Hut).
    assert (H1 : update_found (g a) (f a) l !! i = Some (f a t)).
    { unfold update_found. rewrite E, Hi, list_lookup_alter_eq, Ht.
      reflexivity. }
    apply (fold_update_found_kept R g f xs _ i (f a t)).
    + intros b x Hb. apply Hkeep'. now right.
    + exact H1.
    + apply Hset; [now left | congruence | exact E].
  - destruct Hin as [-> | Hin]; [congruence |].
    apply IH; try assumption.
    + intros b x Hb. apply Hset. now right.
    + intros b x Hb. apply Hkeep. now right.
Qed.

Lemma existsb_doc_url (u : string) (fl : list MapDocument.t) :
  existsb (fun l0 => String.eqb (MapDocument.url l0) u) fl = true
  <-> In u (List.map MapDocument.url fl).
Proof.
  rewrite existsb_exists, in_map_iff. split.
  - intros (d & Hd & E). apply String.eqb_eq in E. eauto.
  - intros (d & E & Hd). exists d. split; [exact Hd | now apply String.eqb_eq].
Qed.

Lemma In_skip {A} (x : A) (n : nat) (l : list A) :
  In x (skipn n l) -> In x l.
Proof.
  intros H. rewrite <- (firstn_skipn n l). apply in_or_app. now right.
Qed.

(** X21: what the relevance filter leaves in the ledger for the traces
    [urlTraces.find] returns.  A document beyond the ranking limit is
    marked as not used, with the ranking-limit warning.  A document
    within the limit is marked as used, unless a document beyond the
    limit has the same URL: the marks of the limit are written last.
    A scored link whose URL is the URL of no accepted document is marked
    as not used, with its score and the below-threshold warning. *)
Theorem after_rank_marks (env : Collaborators) (ml : list MapDocument.t)
    (ls : list LinkScore.t) (s : state) :
  let accepted := fst (cascade (isUrlBlocked env) ml ls) in
  let after := urlTraces (snd (after_rank env ml ls s)) in
  (forall d i,
     In d (skipn MAX_RANKING_LIMIT accepted) ->
     find_trace (MapDocument.url d) (urlTraces s) = Some i ->
     exists t, after !! i = Some t /\ marked_over_limit t)
  /\ (forall d i,
        In d (firstn MAX_RANKING_LIMIT accepted) ->
        ~ In (MapDocument.url d)
            (List.map MapDocument.url (skipn MAX_RANKING_LIMIT accepted)) ->
        find_trace (MapDocument.url d) (urlTraces s) = Some i ->
        exists t,
          after !! i = Some t /\ URLTrace.usedInCompletion t = Some true)
  /\ (forall x i,
        In x ls ->
        ~ In (LinkScore.link x) (List.map MapDocument.url accepted) ->
        find_trace (LinkScore.link x) (urlTraces s) = Some i ->
        exists t, after !! i = Some t /\ marked_below_threshold t).
Proof.
  pose proof (cascade_scores_perm (isUrlBlocked env) ml ls) as Hperm.
  unfold after_rank. destruct (cascade (isUrlBlocked env) ml ls) as [fl ls'].
  simpl in *.
  set (l1 := score_traces fl ls' (urlTraces s)).
  set (l2 := mark_used (firstn MAX_RANKING_LIMIT fl) l1).
  assert (H1 : List.map URLTrace.url l1 = List.map URLTrace.url (urlTraces s))
    by apply map_url_score_traces.
  assert (H2 : List.map URLTrace.url l2 = List.map URLTrace.url (urlTraces s))
    by (unfold l2; now rewrite map_url_mark_used).
  split; [| split].
  - intros d i Hd Hi. unfold mark_dropped.
    rewrite <- (find_trace_urls _ l2 _ H2) in Hi.
    apply (fold_update_found_set marked_over_limit MapDocument.url
             (fun _ t => URLTrace.set_usedInCompletion false
                           (URLTrace.set_warning RankingLimit t))
             _ l2 d i); try assumption.
    + reflexivity.
    + intros a x _ _ _. split; reflexivity.
    + intros a x _ _ _ _. split; reflexivity.
  - intros d i Hd Hn Hi.
    rewrite <- (find_trace_urls _ l1 _ H1) in Hi.
    destruct (fold_update_found_set
                (fun t => URLTrace.url t = MapDocument.url d
                          /\ URLTrace.usedInCompletion t = Some true)
                MapDocument.url
                (fun _ => URLTrace.set_usedInCompletion true)
                (firstn MAX_RANKING_LIMIT fl) l1 d i) as (t & Ht & Hut & Hused);
      try assumption.
    + reflexivity.
    + intros a x _ Hx E. simpl. split; [congruence | reflexivity].
    + intros a x _ Hx E [Hy _]. congruence.
    + fold (mark_used (firstn MAX_RANKING_LIMIT fl) l1) in Ht. fold l2 in Ht.
      destruct (fold_update_found_kept
                  (fun t => URLTrace.url t = MapDocument.url d
                            /\ URLTrace.usedInCompletion t = Some true)
                  MapDocument.url
                  (fun _ t => URLTrace.set_usedInCompletion false
                                (URLTrace.set_warning RankingLimit t))
                  (skipn MAX_RANKING_LIMIT fl) l2 i t) as (t' & Ht' & _ & Hu');
        [| exact Ht | now split | eauto].
      intros a x Ha Hx [Hy _]. exfalso. apply Hn.
      apply in_map_iff. exists a. split; [congruence | exact Ha].
  - intros x i Hx Hn Hi.
    apply (Permutation_in x Hperm) in Hx.
    pose (R := fun t => URLTrace.url t = LinkScore.link x
                        /\ marked_below_threshold t).
    destruct (fold_update_found_set R LinkScore.link
                (fun score t =>
                   let t :=
                     URLTrace.set_relevanceScore (LinkScore.score score) t in
                   if negb (existsb (fun l0 => String.eqb (MapDocument.url l0)
                                                 (LinkScore.link score)) fl)
                   then URLTrace.set_usedInCompletion false
                          (URLTrace.set_warning
                             (BelowThreshold (LinkScore.score score)) t)
                   else t)
                ls' (urlTraces s) x i) as (t1 & Ht1 & HR1);
      try assumption.
    + intros a t. simpl. destruct (negb _); reflexivity.
    + intros a t _ Ht E. simpl.
      destruct (existsb _ fl) eqn:Ee.
      * apply existsb_doc_url in Ee. rewrite E in Ee. contradiction.
      * unfold R, marked_below_threshold. simpl.
        split; [congruence |].
        split; [reflexivity |]. split; [eauto | discriminate].
    + intros a t _ Ht E [Hy _]. congruence.
    + fold (score_traces fl ls' (urlTraces s)) in Ht1. fold l1 in Ht1.
      destruct (fold_update_found_kept R MapDocument.url
                  (fun _ => URLTrace.set_usedInCompletion true)
                  (firstn MAX_RANKING_LIMIT fl) l1 i t1) as (t2 & Ht2 & HR2);
        [| exact Ht1 | exact HR1 |].
      { intros a t Ha Ht [Hy _]. exfalso. apply Hn.
        apply in_map_iff. exists a. split; [congruence |].
        now apply In_take in Ha. }
      fold (mark_used (firstn MAX_RANKING_LIMIT fl) l1) in Ht2. fold l2 in Ht2.
      destruct (fold_update_found_kept R MapDocument.url
                  (fun _ t => URLTrace.set_usedInCompletion false
                                (URLTrace.set_warning RankingLimit t))
                  (skipn MAX_RANKING_LIMIT fl) l2 i t2) as (t3 & Ht3 & _ & HR3);
        [| exact Ht2 | exact HR2 | eauto].
      intros a t Ha Ht [Hy _]. exfalso. apply Hn.
      apply in_map_iff. exists a. split; [congruence |].
      now apply In_skip in Ha.
Qed.

(** * A request without a prompt *)

(** A pattern URL without a prompt: its page is fetched unscored. *)
Lemma no_prompt_no_filter_witness :
  no_prompt_call
    (snd (extractController
            (sample_env nothing_blocked no_rephrase
               (one_page "https://example.com/docs") no_rank job_done)
            (sample_request ["https://example.com/*"] None) [] [])).
Proof.
  apply (no_prompt_no_filter
           (sample_env nothing_blocked no_rephrase
              (one_page "https://example.com/docs") no_rank job_done)
           (sample_request ["https://example.com/*"] None) [] []).
  reflexivity.
Defined.

(** * Content statistics and completion times *)

Lemma stats_with_completion_kept (x y : URLTrace.t) :
  (URLTrace.contentStats y = None <-> URLTrace.contentStats x = None) ->
  Timing.completedAt (URLTrace.timing y)
  = Timing.completedAt (URLTrace.timing x) ->
  stats_with_completion x -> stats_with_completion y.
Proof.
  unfold stats_with_completion. intros Hc -> H. rewrite <- H.
  split; intros Hn E; apply Hn; now apply Hc.
Qed.

Lemma stats_with_completion_start_resolve (env : Collaborators)
    (req : Request.t) (url : string) (s : state) :
  List.Forall stats_with_completion (urlTraces s) ->
  List.Forall stats_with_completion
    (urlTraces (snd (start_resolve env req url s))).
Proof.
  intros H. unfold start_resolve. simpl.
  set (t0 := URLTrace.mk url _ _ _ _ _ _ _).
  assert (H0 : List.Forall stats_with_completion (urlTraces s ++ [t0])).
  { apply Forall_app. split; [exact H |]. constructor; [| constructor].
    unfold stats_with_completion. simpl. tauto. }
  destruct (includes url "/*" || is_true _).
  - destruct (truthy_string _); [destruct (ExtractRequest.prompt _) |];
      exact H0.
  - destruct (negb _); simpl;
      (apply Forall_alter; [exact H0 |]; intros x _;
       apply stats_with_completion_kept; simpl; tauto).
Qed.

Lemma stats_with_completion_update_found (u : string)
    (f : URLTrace.t -> URLTrace.t) (l : list URLTrace.t) :
  (forall x, URLTrace.contentStats (f x) = None
             <-> URLTrace.contentStats x = None) ->
  (forall x, Timing.completedAt (URLTrace.timing (f x))
             = Timing.completedAt (URLTrace.timing x)) ->
  List.Forall stats_with_completion l ->
  List.Forall stats_with_completion (update_found u f l).
Proof.
  intros Hc Ht. apply Forall_update_found. intros x _.
  now apply stats_with_completion_kept.
Qed.

Lemma stats_with_completion_catch_resolve (trace : nat) (v : thrown)
    (s : state) :
  List.Forall stats_with_completion (urlTraces s) ->
  List.Forall stats_with_completion (urlTraces (snd (catch_resolve trace v s))).
Proof.
  intros H. destruct (catch_resolve_state trace v s) as (f & -> & Hf).
  simpl. apply Forall_alter; [exact H |]. intros x _.
  destruct (Hf x) as (_ & _ & Hc & Ht & _).
  apply stats_with_completion_kept; [now rewrite Hc | now rewrite Ht].
Qed.

Lemma stats_with_completion_catch_scrape (trace : option nat) (v : thrown)
    (s : state) :
  List.Forall stats_with_completion (urlTraces s) ->
  List.Forall stats_with_completion (urlTraces (snd (catch_scrape trace v s))).
Proof.
  intros H.
  destruct (catch_scrape_state trace v s) as [-> | (i & f & -> & Hf)];
    [exact H |].
  simpl. apply Forall_alter; [exact H |]. intros x _.
  destruct (Hf x) as (_ & _ & Hc & Ht & _).
  apply stats_with_completion_kept; [now rewrite Hc | now rewrite Ht].
Qed.

Lemma stats_with_completion_resume_resolve (env : Collaborators)
    (req : Request.t) (t : rtask) (s : state) :
  List.Forall stats_with_completion (urlTraces s) ->
  List.Forall stats_with_completion
    (urlTraces (snd (resume_resolve env req t s))).
Proof.
  intros H.
  destruct t as [tr b w [v | e] | tr b w [r | e] | tr ml [ls | e] | urls | e];
    simpl; try exact H;
    try (now apply stats_with_completion_catch_resolve);
    try (apply Forall_alter; [exact H |]; intros x _;
         apply stats_with_completion_kept; simpl; tauto).
  - unfold after_map. destruct (candidates env b r) as [us ml].
    destruct (track_discovered_added us s) as (added & H1 & _ & _ & _ & H5).
    assert (Hd : List.Forall stats_with_completion
                   (urlTraces (track_discovered us s))).
    { rewrite H1. apply Forall_app. split; [exact H |].
      apply List.Forall_forall. intros x Hx.
      rewrite List.Forall_forall in H5.
      destruct (H5 x Hx) as (_ & _ & _ & _ & _ & Hc & _ & Ht).
      unfold stats_with_completion. rewrite Hc, Ht. tauto. }
    destruct (truthy_string _); exact Hd.
  - unfold after_rank. destruct (cascade _ _ _) as [fl ls']. simpl.
    apply Forall_fold_update_found.
    { intros a x _ _. apply stats_with_completion_kept; simpl; tauto. }
    apply Forall_fold_update_found.
    { intros a x _ _. apply stats_with_completion_kept; simpl; tauto. }
    apply (Forall_fold_update_found stats_with_completion LinkScore.link
             (fun score t =>
                let t :=
                  URLTrace.set_relevanceScore (LinkScore.score score) t in
                if negb (existsb (fun l0 => String.eqb (MapDocument.url l0)
                                              (LinkScore.link score)) fl)
                then URLTrace.set_usedInCompletion false
                       (URLTrace.set_warning
                          (BelowThreshold (LinkScore.score score)) t)
                else t)); [| exact H].
    intros a x _ _. apply stats_with_completion_kept; simpl;
      destruct (negb _); simpl; tauto.
Qed.

Lemma Forall_alter_twice {A} (P : A -> Prop) (f g : A -> A) (i : nat)
    (l : list A) :
  (forall x, P x -> P (g (f x))) ->
  List.Forall P l -> List.Forall P (alter g i (alter f i l)).
Proof.
  intros Hfg H. revert i. induction H as [| x l Hx Hl IH]; intros [| i];
    simpl; try constructor; auto.
  apply IH.
Qed.

Lemma stats_with_completion_start_scrape (env : Collaborators)
    (req : Request.t) (url : string) (s : state) :
  List.Forall stats_with_completion (urlTraces s) ->
  List.Forall stats_with_completion
    (urlTraces (snd (start_scrape env req url s))).
Proof.
  intros H. unfold start_scrape.
  destruct (find_trace url (urlTraces s)) as [i |]; simpl; [| exact H].
  apply Forall_alter;
    [| intros x _; apply stats_with_completion_kept; simpl; tauto].
  apply Forall_alter; [exact H |].
  intros x _. apply stats_with_completion_kept; simpl; tauto.
Qed.

Lemma stats_with_completion_resume_scrape (env : Collaborators)
    (req : Request.t) (t : ftask) (s : state) :
  List.Forall stats_with_completion (urlTraces s) ->
  List.Forall stats_with_completion
    (urlTraces (snd (resume_scrape env req t s))).
Proof.
  intros H.
  destruct t as [tr u to j [v | e] | tr to j [v | e] | tr j [d | e]
                | tr d [v | e] | d | e];
    simpl; try exact H;
    try (now apply stats_with_completion_catch_scrape);
    try (destruct tr as [i |]; simpl; [| exact H];
         apply Forall_alter; [exact H |]; intros x _;
         apply stats_with_completion_kept; simpl; tauto).
  destruct tr as [i |]; simpl; [| exact H].
  apply Forall_alter_twice; [| exact H]. intros x _.
  unfold stats_with_completion. simpl. split; discriminate.
Qed.

Lemma stats_with_completion_attribute_tokens (n : option float)
    (docs : list Document.t) (l : list URLTrace.t) :
  List.Forall stats_with_completion l ->
  List.Forall stats_with_completion (attribute_tokens n docs l).
Proof.
  intros H. unfold attribute_tokens. destruct n as [n |]; [| exact H].
  destruct (truthy n); [| exact H].
  generalize (totalLength docs). intros total. revert l H.
  induction docs as [| d docs IH]; intros l H; simpl; [exact H |].
  apply IH. unfold attribute_doc.
  destruct (truthy_string _); [| exact H].
  destruct (Document.sourceURL d) as [u |]; [| exact H].
  apply stats_with_completion_update_found; [| | exact H];
    intros x; unfold URLTrace.set_tokensUsed;
    destruct (URLTrace.contentStats x) eqn:E; simpl; try tauto;
    split; congruence.
Qed.

(** X22: in every order of resumption, in the ledger the controller
    leaves and in the ledger of any response it sends, a trace has
    content statistics exactly when it has a completion time: the two
    are written together, when a fetch has gone through to the removal
    of its job, and the token attribution adds statistics to no
    trace. *)
Theorem stats_iff_completed (env : Collaborators) (req : Request.t)
    (resolve_order scrape_order : list nat) :
  List.Forall stats_with_completion
    (urlTraces (snd (extractController env req resolve_order scrape_order)))
  /\ forall l,
       sent_ledger (fst (extractController env req resolve_order scrape_order))
       = Some l ->
       List.Forall stats_with_completion l.
Proof.
  apply (controller_ledger env req (List.Forall stats_with_completion)).
  - rewrite start_all_state.
    assert (H0 : List.Forall stats_with_completion
                   (urlTraces (snd (randomUUID initial_state))))
      by constructor.
    revert H0. generalize (snd (randomUUID initial_state)).
    induction (ExtractRequest.urls (Request.body req)) as [| u us IH];
      intros s H; simpl; [exact H |].
    apply IH. now apply stats_with_completion_start_resolve.
  - apply stats_with_completion_resume_resolve.
  - apply stats_with_completion_start_scrape.
  - apply stats_with_completion_resume_scrape.
  - apply stats_with_completion_attribute_tokens.
Qed.
